(** * Customer-service backend: identity resolution, thread routing, merge

    A shallow embedding of [server.js] (the v3 server): the pure helpers
    ([normalizeName], [nameSimilarity], [generateAutoTags],
    [determinePriority], [generateTicketId], [generateTagsFromNote]), the
    customer resolver [findOrCreateCustomer], the contact-form webhook, the
    reply, status and notes routes, the customer profile route and the
    customer merge route, over an explicit model of the tables the routes
    touch.

    Conventions of the model.
    - A JS string is a [string]: a sequence of code units below 256.
    - A JS number that counts something is a [nat]; a timestamp is a [Z]
      (milliseconds).  The similarity score is modelled twice: as an exact
      rational [Q] ([nameSimilarity], [name_tier]), and as the binary64
      number the code computes ([Double.nameSimilarity], [Double.name_tier]).
    - A table is the list of its rows in scan order; the store generates row
      ids from a counter.
    - [Date.now()] and [Math.random()] are arguments of the handlers; one
      request reads the clock once.
    - A route runs alone unless said otherwise: [contact_form_interleaved]
      lets another request write between the reads and the write of the
      resolver, [contact_form_checked] lets the store refuse the new ticket,
      and [merge_with] lets the store refuse writes.
    - [merge] takes the two ids as row ids; [merge_request] takes them as
      the body of the request spells them (a number or a string). *)

From Stdlib Require Import List String Ascii Bool Arith PeanoNat ZArith QArith Lia.
From Stdlib Require Import DecimalString DecimalNat Lqa Relations Floats.
Import ListNotations.

Local Open Scope string_scope.
Local Open Scope list_scope.
Local Open Scope nat_scope.

(* ================================================================== *)
(** ** JavaScript string primitives *)
(* ================================================================== *)

Module JsString.

Definition code (c : ascii) : nat := nat_of_ascii c.

Definition between (lo hi n : nat) : bool := (lo <=? n) && (n <=? hi).

(** Upper-case letters among the code units below 256: A-Z and the
    Latin-1 capitals (all of 192..222 except the multiplication sign). *)
Definition is_upper (c : ascii) : bool :=
  between 65 90 (code c)
  || (between 192 222 (code c) && negb (code c =? 215)).

Definition lower_char (c : ascii) : ascii :=
  if is_upper c then ascii_of_nat (code c + 32) else c.

(** [String.prototype.toLowerCase]. *)
Fixpoint toLowerCase (s : string) : string :=
  match s with
  | EmptyString => EmptyString
  | String c r => String (lower_char c) (toLowerCase r)
  end.

(** White space as [trim] and the regex class [\s] see it (code units
    below 256): TAB, LF, VT, FF, CR, SPACE, NBSP. *)
Definition is_space (c : ascii) : bool :=
  between 9 13 (code c) || (code c =? 32) || (code c =? 160).

Definition is_digit (c : ascii) : bool := between 48 57 (code c).

Definition is_lower_az (c : ascii) : bool := between 97 122 (code c).

(** [s.replace(/[class]/g, '')] seen from the code units that stay. *)
Fixpoint keep_chars (p : ascii -> bool) (s : string) : string :=
  match s with
  | EmptyString => EmptyString
  | String c r => if p c then String c (keep_chars p r) else keep_chars p r
  end.

Fixpoint trimStart (s : string) : string :=
  match s with
  | EmptyString => EmptyString
  | String c r => if is_space c then trimStart r else s
  end.

Fixpoint trimEnd (s : string) : string :=
  match s with
  | EmptyString => EmptyString
  | String c r =>
      let r' := trimEnd r in
      if is_space c && (r' =? "")%string then EmptyString else String c r'
  end.

(** [String.prototype.trim]. *)
Definition trim (s : string) : string := trimEnd (trimStart s).

(** [s.replace(/\s+/g, ' ')]: every maximal run of white space becomes one
    space.  [in_run] tells that the previous code unit was white space. *)
Fixpoint collapse_ws (in_run : bool) (s : string) : string :=
  match s with
  | EmptyString => EmptyString
  | String c r =>
      if is_space c
      then (if in_run then collapse_ws true r
            else String " " (collapse_ws true r))
      else String c (collapse_ws false r)
  end.

(** [s.split(sep)] for a one-character separator: never empty, the empty
    string splits to one empty piece. *)
Fixpoint split (sep : ascii) (s : string) : list string :=
  match s with
  | EmptyString => [EmptyString]
  | String c r =>
      if Ascii.eqb c sep then EmptyString :: split sep r
      else match split sep r with
           | [] => [String c EmptyString]
           | w :: ws => String c w :: ws
           end
  end.

(** [s.includes(sub)]. *)
Fixpoint includes (s sub : string) : bool :=
  prefix sub s
  || match s with
     | EmptyString => false
     | String _ r => includes r sub
     end.

(** [s.slice(-n)]: the last [n] code units, the whole string when it is
    shorter. *)
Definition slice_last (n : nat) (s : string) : string :=
  substring (length s - n) n s.

(** [s.substring(0, n)]. *)
Definition take (n : nat) (s : string) : string := substring 0 n s.

(** A string is falsy exactly when it is empty. *)
Definition truthy (s : string) : bool := negb (s =? "")%string.

End JsString.

Import JsString.

(* ================================================================== *)
(** ** Arrays used as sets *)
(* ================================================================== *)

(** [[...new Set(xs)]]: the first occurrence of every element, in order. *)
Fixpoint dedup_acc (seen : list string) (xs : list string) : list string :=
  match xs with
  | [] => []
  | x :: r =>
      if existsb (String.eqb x) seen then dedup_acc seen r
      else x :: dedup_acc (x :: seen) r
  end.

Definition dedup (xs : list string) : list string := dedup_acc [] xs.

(** [xs.includes(x)] on an array of strings. *)
Definition mem (x : string) (xs : list string) : bool :=
  existsb (String.eqb x) xs.

(* ================================================================== *)
(** ** Classifier helpers *)
(* ================================================================== *)

(** What the webhook can catch in this model: the refusal of an insert by
    the store, and the exception of spreading a value that is not iterable. *)
Inductive Error : Type := ConflictError | TypeError.

Definition error_message (e : Error) : string :=
  match e with
  | ConflictError => "duplicate key value violates unique constraint"
  | TypeError => "purposeTags[purpose] is not iterable"
  end.

(** The priority enum the tickets table declares. *)
Inductive Priority : Type := Low | Medium | High | Urgent.

Definition priority_rank (p : Priority) : nat :=
  match p with Low => 0 | Medium => 1 | High => 2 | Urgent => 3 end.

Definition determinePriority (purpose message : string) : Priority :=
  let msg := toLowerCase message in
  if includes msg "urgent" || includes msg "asap" || includes msg "immediately"
  then Urgent
  else if (purpose =? "Returns & Refunds")%string
          || includes msg "refund" || includes msg "cancel"
  then High
  else if (purpose =? "Billing")%string || (purpose =? "Shipping & Delivery")%string
  then High
  else if (purpose =? "Wholesale")%string || (purpose =? "Partnership")%string
  then Medium
  else Medium.

(** What [purposeTags[purpose]] evaluates to.  [purposeTags] is an object
    literal: besides its own nine keys, a lookup finds the members it
    inherits from [Object.prototype], which are truthy and not iterable. *)
Inductive Lookup : Type :=
| Own (tags : list string)
| Inherited
| Missing.

Definition object_prototype_keys : list string :=
  ["constructor"; "hasOwnProperty"; "isPrototypeOf"; "propertyIsEnumerable";
   "toLocaleString"; "toString"; "valueOf"; "__proto__";
   "__defineGetter__"; "__defineSetter__"; "__lookupGetter__"; "__lookupSetter__"].

Definition purposeTags (purpose : string) : Lookup :=
  if (purpose =? "Billing")%string then Own ["Billing inquiry"]
  else if (purpose =? "Tech Support")%string then Own ["Technical issue"]
  else if (purpose =? "Product Questions")%string then Own ["Product inquiry"]
  else if (purpose =? "Shipping & Delivery")%string then Own ["Shipping issue"]
  else if (purpose =? "Returns & Refunds")%string then Own ["Refund request"]
  else if (purpose =? "Wholesale")%string then Own ["Wholesale inquiry"; "Bulk order"]
  else if (purpose =? "Partnership")%string then Own ["Partnership inquiry"]
  else if (purpose =? "Press & Media")%string then Own ["Press inquiry"]
  else if (purpose =? "Other")%string then Own ["General inquiry"]
  else if mem purpose object_prototype_keys then Inherited
  else Missing.

(** [if (cond) tags.push(tag)]. *)
Definition push_if (cond : bool) (tag : string) (tags : list string) : list string :=
  if cond then tags ++ [tag] else tags.

(** The content rules of [generateAutoTags], from the tags pushed so far to
    the array returned. *)
Definition content_tags (message : string) (tags : list string) : list string :=
  let msg := toLowerCase message in
  let tags := push_if (includes msg "cancel" || includes msg "subscription") "Subscription issue" tags in
  let tags := push_if (includes msg "refund" || includes msg "money back") "Refund request" tags in
  let tags := push_if (includes msg "tracking" || includes msg "where is my order") "Tracking question" tags in
  let tags := push_if (includes msg "flavor" || includes msg "taste") "Flavor feedback" tags in
  let tags := push_if (includes msg "bulk" || includes msg "event" || includes msg "wholesale") "Bulk opportunity" tags in
  let tags := push_if (includes msg "love" || includes msg "amazing" || includes msg "obsessed") "Positive sentiment" tags in
  let tags := push_if (includes msg "disappoint" || includes msg "not working" || includes msg "doesn't work") "At risk" tags in
  let tags := push_if (includes msg "gift") "Gift buyer" tags in
  let tags := push_if (includes msg "how long" || includes msg "dosage" || includes msg "how much") "Dosage question" tags in
  let tags := push_if (includes msg "new flavor" || includes msg "mango" || includes msg "lemon") "New flavor interest" tags in
  dedup tags.

(** [generateAutoTags]: [tags.push(...purposeTags[purpose])] runs when the
    lookup is truthy and throws when what it found cannot be spread. *)
Definition generateAutoTags (purpose message : string) : Error + list string :=
  match purposeTags purpose with
  | Own tags => inr (content_tags message tags)
  | Inherited => inl TypeError
  | Missing => inr (content_tags message [])
  end.

Definition generateSummary (purpose message name : string) : string :=
  name ++ " submitted a " ++ toLowerCase purpose ++ " inquiry via the contact form.".

(** [generateTicketId]: [rnd] is the value of
    [Math.floor(Math.random() * 9000)], a number below 9000. *)
Definition generateTicketId (rnd : nat) : string :=
  "TIX-" ++ NilEmpty.string_of_uint (Nat.to_uint (rnd + 1000)).

(* ================================================================== *)
(** ** Fuzzy name matching *)
(* ================================================================== *)

Definition normalizeName (name : string) : string :=
  collapse_ws false
    (keep_chars (fun c => is_lower_az c || (code c =? 32))
       (trim (toLowerCase name))).

(** The inner loop [for i < shorter.length: if (shorter[i] !== longer[i]) diff++].
    An index past the end of [longer] reads [undefined], which differs. *)
Fixpoint diff_count (shorter longer : string) : nat :=
  match shorter with
  | EmptyString => 0
  | String a r =>
      match longer with
      | EmptyString => 1 + diff_count r EmptyString
      | String b r' => (if Ascii.eqb a b then 0 else 1) + diff_count r r'
      end
  end.

Definition abs_diff (n m : nat) : nat := (n - m) + (m - n).

Definition typo_close (pa pb : string) : bool :=
  let shorter := if length pa <=? length pb then pa else pb in
  let longer := if length pb <? length pa then pa else pb in
  diff_count shorter longer <=? 1.

(** What one pass of the inner loop body adds to [matches]. *)
Definition pair_award (pa pb : string) : Q :=
  if (pa =? pb)%string && (1 <? length pa) then 1%Q
  else if (3 <? length pa) && (3 <? length pb)
          && (abs_diff (length pa) (length pb) <=? 1)
  then (if typo_close pa pb then (8 # 10)%Q else 0%Q)
  else 0%Q.

Definition count_matches (partsA partsB : list string) : Q :=
  fold_left
    (fun m pa => fold_left (fun m' pb => Qplus m' (pair_award pa pb)) partsB m)
    partsA 0%Q.

Definition nameSimilarity (a b : string) : Q :=
  let na := normalizeName a in
  let nb := normalizeName b in
  if (na =? nb)%string then 1%Q
  else
    let partsA := split " " na in
    let partsB := split " " nb in
    let matches := count_matches partsA partsB in
    let maxParts := Nat.max (List.length partsA) (List.length partsB) in
    if 0 <? maxParts
    then Qdiv matches (inject_Z (Z.of_nat maxParts))
    else 0%Q.

(** The threshold of the resolver's third tier. *)
Definition threshold : Q := (7 # 10)%Q.

(** The scoring rule as the specification words it: the typo award has no
    minimum token length.  Only compared with [pair_award], never used by
    the model of the server. *)
Definition pair_award_spec (pa pb : string) : Q :=
  if (pa =? pb)%string && (1 <? length pa) then 1%Q
  else if abs_diff (length pa) (length pb) <=? 1
  then (if typo_close pa pb then (8 # 10)%Q else 0%Q)
  else 0%Q.

Definition nameSimilarity_spec (a b : string) : Q :=
  let na := normalizeName a in
  let nb := normalizeName b in
  if (na =? nb)%string then 1%Q
  else
    let partsA := split " " na in
    let partsB := split " " nb in
    let matches :=
      fold_left
        (fun m pa => fold_left (fun m' pb => Qplus m' (pair_award_spec pa pb)) partsB m)
        partsA 0%Q in
    let maxParts := Nat.max (List.length partsA) (List.length partsB) in
    if 0 <? maxParts
    then Qdiv matches (inject_Z (Z.of_nat maxParts))
    else 0%Q.

(* ================================================================== *)
(** ** The tables *)
(* ================================================================== *)

Definition Id : Type := nat.
Definition Time : Type := Z.

Inductive Status : Type := Open | Pending | Resolved | Closed.

Definition Status_eqb (a b : Status) : bool :=
  match a, b with
  | Open, Open | Pending, Pending | Resolved, Resolved | Closed, Closed => true
  | _, _ => false
  end.

Inductive SenderType : Type := FromCustomer | FromAgent | FromSystem.

(** A nullable text column read in a boolean position: null and the empty
    string are falsy. *)
Definition truthy_opt (o : option string) : bool :=
  match o with
  | Some x => truthy x
  | None => false
  end.

(** [x || ''] on a nullable text value. *)
Definition or_empty (o : option string) : string :=
  match o with
  | Some x => x
  | None => ""
  end.

(** [x || null] on a nullable text value. *)
Definition or_null (o : option string) : option string :=
  if truthy_opt o then o else None.

(** [a || b] on nullable text values. *)
Definition or_else (a b : option string) : option string :=
  if truthy_opt a then a else b.

(** [n || 0] on a nullable count. *)
Definition or_zero (o : option nat) : nat :=
  match o with
  | Some n => n
  | None => 0
  end.

(** One column under a partial update: written when the key is present. *)
Definition keep {A : Type} (new : option A) (old : A) : A :=
  match new with
  | Some v => v
  | None => old
  end.

Module Customer.

(** A row of [customers].  [tags] is written as an array by every insert
    and read through [tags || []], so null and the empty array are one
    value here; [alt_emails] and the shopify columns are never written by
    an insert and stay nullable. *)
Record t : Type := mk {
  id : Id;
  name : string;
  email : string;
  phone : option string;
  alt_emails : option (list string);
  tags : list string;
  ticket_count : nat;
  shopify_customer_id : option string;
  shopify_order_count : option nat;
  shopify_ltv : option nat;
  possible_duplicate_of : option Id;
  updated_at : Time
}.

(** The object handed to [.update(...)]: a column is written only when
    its key is present. *)
Record patch : Type := mk_patch {
  set_name : option string;
  set_phone : option (option string);
  set_alt_emails : option (list string);
  set_tags : option (list string);
  set_ticket_count : option nat;
  set_shopify_customer_id : option (option string);
  set_shopify_order_count : option nat;
  set_shopify_ltv : option nat;
  set_possible_duplicate_of : option (option Id);
  set_updated_at : option Time
}.

Definition apply (u : patch) (r : t) : t :=
  {| id := id r;
     name := keep (set_name u) (name r);
     email := email r;
     phone := keep (set_phone u) (phone r);
     alt_emails :=
       match set_alt_emails u with
       | Some l => Some l
       | None => alt_emails r
       end;
     tags := keep (set_tags u) (tags r);
     ticket_count := keep (set_ticket_count u) (ticket_count r);
     shopify_customer_id := keep (set_shopify_customer_id u) (shopify_customer_id r);
     shopify_order_count :=
       match set_shopify_order_count u with
       | Some n => Some n
       | None => shopify_order_count r
       end;
     shopify_ltv :=
       match set_shopify_ltv u with
       | Some n => Some n
       | None => shopify_ltv r
       end;
     possible_duplicate_of :=
       keep (set_possible_duplicate_of u) (possible_duplicate_of r);
     updated_at := keep (set_updated_at u) (updated_at r) |}.

End Customer.

Module Ticket.

Record t : Type := mk {
  id : Id;
  ticket_id : string;
  customer_id : Id;
  subject : string;
  status : Status;
  priority : Priority;
  channel : string;
  ai_tags : list string;
  ai_summary : string;
  purpose : string;
  created_at : Time;
  updated_at : Time
}.

Record patch : Type := mk_patch {
  set_customer_id : option Id;
  set_ai_tags : option (list string);
  set_status : option Status;
  set_updated_at : option Time
}.

Definition apply (u : patch) (r : t) : t :=
  {| id := id r;
     ticket_id := ticket_id r;
     customer_id := keep (set_customer_id u) (customer_id r);
     subject := subject r;
     status := keep (set_status u) (status r);
     priority := priority r;
     channel := channel r;
     ai_tags := keep (set_ai_tags u) (ai_tags r);
     ai_summary := ai_summary r;
     purpose := purpose r;
     created_at := created_at r;
     updated_at := keep (set_updated_at u) (updated_at r) |}.

End Ticket.

Module Message.

(** The flag the webhook adds to the metadata of a customer message. *)
Inductive mark : Type := Plain | Threaded | Reopened.

Record metadata : Type := mk_metadata {
  purpose : option string;
  phone : option string;
  attachment : option string;
  submitted_at : Time;
  flag : mark
}.

Record t : Type := mk {
  ticket_id : Id;
  sender_type : SenderType;
  sender_name : string;
  content : string;
  meta : option metadata
}.

End Message.

(** The store: the three tables, the two id sequences, and whether the
    customers table declares its primary email unique. *)
Record Store : Type := mkStore {
  customers : list Customer.t;
  tickets : list Ticket.t;
  messages : list Message.t;
  next_customer_id : Id;
  next_ticket_id : Id;
  unique_email : bool
}.

Definition empty_store (uq : bool) : Store :=
  {| customers := []; tickets := []; messages := [];
     next_customer_id := 1; next_ticket_id := 1; unique_email := uq |}.

Definition with_customers (s : Store) (cs : list Customer.t) : Store :=
  {| customers := cs; tickets := tickets s; messages := messages s;
     next_customer_id := next_customer_id s;
     next_ticket_id := next_ticket_id s; unique_email := unique_email s |}.

Definition with_tickets (s : Store) (ts : list Ticket.t) : Store :=
  {| customers := customers s; tickets := ts; messages := messages s;
     next_customer_id := next_customer_id s;
     next_ticket_id := next_ticket_id s; unique_email := unique_email s |}.

Definition with_messages (s : Store) (ms : list Message.t) : Store :=
  {| customers := customers s; tickets := tickets s; messages := ms;
     next_customer_id := next_customer_id s;
     next_ticket_id := next_ticket_id s; unique_email := unique_email s |}.

(* ================================================================== *)
(** ** Query primitives *)
(* ================================================================== *)

Section Query.

Context {A : Type}.

(** [.single()]: the row when exactly one row is selected, null
    otherwise. *)
Definition single (rows : list A) : option A :=
  match rows with
  | [x] => Some x
  | _ => None
  end.

(** [.update(u).eq(...)]: every selected row is rewritten in place. *)
Definition update_where (sel : A -> bool) (f : A -> A) (rows : list A) : list A :=
  map (fun r => if sel r then f r else r) rows.

(** [.delete().eq(...)]. *)
Definition delete_where (sel : A -> bool) (rows : list A) : list A :=
  filter (fun r => negb (sel r)) rows.

End Query.

(** [.order('updated_at', {ascending: false}).limit(1)]: the most recently
    updated row, the first in scan order among equals. *)
Fixpoint latest (rows : list Ticket.t) : option Ticket.t :=
  match rows with
  | [] => None
  | t :: r =>
      match latest r with
      | Some t' =>
          if (Ticket.updated_at t <? Ticket.updated_at t')%Z then Some t' else Some t
      | None => Some t
      end
  end.

Definition insert_message (m : Message.t) (s : Store) : Store :=
  with_messages s (messages s ++ [m]).

(* ================================================================== *)
(** ** Identity resolver: [findOrCreateCustomer] *)
(* ================================================================== *)

Record Resolution : Type := mkResolved {
  customer : Customer.t;
  matchType : string;
  possibleMatch : option Customer.t;
  isNew : bool
}.

Definition Qltb (x y : Q) : bool := negb (Qle_bool y x).

(** [phone.replace(/\D/g, '')]. *)
Definition clean_phone (p : string) : string := keep_chars is_digit p.

(** The callback of [allCustomers.find]. *)
Definition phone_matches (phoneSuffix : string) (c : Customer.t) : bool :=
  (slice_last 10 (clean_phone (or_empty (Customer.phone c))) =? phoneSuffix)%string.

(** [.not('phone', 'is', null)]. *)
Definition has_phone (c : Customer.t) : bool :=
  match Customer.phone c with
  | Some _ => true
  | None => false
  end.

Definition email_tier (s : Store) (email : string) : option Customer.t :=
  single (filter (fun c => (Customer.email c =? toLowerCase email)%string) (customers s)).

Definition phone_tier (s : Store) (phone : option string) : option Customer.t :=
  match phone with
  | Some p =>
      if truthy p then
        let cleanPhone := clean_phone p in
        if 10 <=? length cleanPhone
        then find (phone_matches (slice_last 10 cleanPhone))
                  (filter has_phone (customers s))
        else None
      else None
  | None => None
  end.

(** One pass of the loop over [allCustomers] in the third tier. *)
Definition best_step (fullName : string) (acc : option Customer.t * Q) (c : Customer.t)
  : option Customer.t * Q :=
  let score := nameSimilarity fullName (Customer.name c) in
  if Qltb threshold score && Qltb (snd acc) score then (Some c, score) else acc.

Definition name_tier (s : Store) (fullName : string) : option Customer.t :=
  let nameParts := split " " (trim fullName) in
  if 2 <=? List.length nameParts
  then fst (fold_left (best_step fullName) (customers s) (None, 0%Q))
  else None.

(** The outcome of the reads of [findOrCreateCustomer]; the single write
    that follows depends on nothing else. *)
Inductive Decision : Type :=
| ByEmail (byEmail : Customer.t)
| ByPhone (phoneMatch : Customer.t)
| Flagged (bestMatch : Customer.t)
| Fresh.

Definition resolve_read (s : Store) (email : string) (phone : option string)
    (fullName : string) : Decision :=
  match email_tier s email with
  | Some byEmail => ByEmail byEmail
  | None =>
      match phone_tier s phone with
      | Some phoneMatch => ByPhone phoneMatch
      | None =>
          match name_tier s fullName with
          | Some bestMatch => Flagged bestMatch
          | None => Fresh
          end
      end
  end.

(** [supabase.from('customers').insert(row).select().single()].  The schema
    is not part of the sources; [unique_email] stands for the uniqueness
    constraint on the primary email that the specification asks of the
    store: when it is declared, an insert that repeats a primary email is
    refused and writes nothing. *)
Definition insert_customer (row_of : Id -> Customer.t) (s : Store)
  : Store * (Error + Customer.t) :=
  let row := row_of (next_customer_id s) in
  if unique_email s
     && existsb (fun c => (Customer.email c =? Customer.email row)%string) (customers s)
  then (s, inl ConflictError)
  else ({| customers := customers s ++ [row];
           tickets := tickets s;
           messages := messages s;
           next_customer_id := S (next_customer_id s);
           next_ticket_id := next_ticket_id s;
           unique_email := unique_email s |},
        inr row).

Definition new_customer (now : Time) (email : string) (phone : option string)
    (fullName : string) (dup : option Id) (new_id : Id) : Customer.t :=
  {| Customer.id := new_id;
     Customer.name := fullName;
     Customer.email := toLowerCase email;
     Customer.phone := or_null phone;
     Customer.alt_emails := None;
     Customer.tags := [];
     Customer.ticket_count := 1;
     Customer.shopify_customer_id := None;
     Customer.shopify_order_count := None;
     Customer.shopify_ltv := None;
     Customer.possible_duplicate_of := dup;
     Customer.updated_at := now |}.

Definition email_updates (now : Time) (phone : option string) (fullName : string)
    (byEmail : Customer.t) : Customer.patch :=
  {| Customer.set_name :=
       if truthy fullName && negb (fullName =? Customer.name byEmail)%string
       then Some fullName else None;
     Customer.set_phone :=
       if truthy_opt phone && negb (truthy_opt (Customer.phone byEmail))
       then Some phone else None;
     Customer.set_alt_emails := None;
     Customer.set_tags := None;
     Customer.set_ticket_count := Some (Customer.ticket_count byEmail + 1);
     Customer.set_shopify_customer_id := None;
     Customer.set_shopify_order_count := None;
     Customer.set_shopify_ltv := None;
     Customer.set_possible_duplicate_of := None;
     Customer.set_updated_at := Some now |}.

Definition phone_updates (now : Time) (email : string) (phoneMatch : Customer.t)
  : Customer.patch :=
  {| Customer.set_name := None;
     Customer.set_phone := None;
     Customer.set_alt_emails :=
       match Customer.alt_emails phoneMatch with
       | None => Some [toLowerCase email]
       | Some alts =>
           if negb (mem (toLowerCase email) alts)
           then Some (alts ++ [toLowerCase email])
           else None
       end;
     Customer.set_tags := None;
     Customer.set_ticket_count := Some (Customer.ticket_count phoneMatch + 1);
     Customer.set_shopify_customer_id := None;
     Customer.set_shopify_order_count := None;
     Customer.set_shopify_ltv := None;
     Customer.set_possible_duplicate_of := None;
     Customer.set_updated_at := Some now |}.

Definition update_customer (cid : Id) (u : Customer.patch) (s : Store) : Store :=
  with_customers s
    (update_where (fun r => Customer.id r =? cid) (Customer.apply u) (customers s)).

(** The write of [findOrCreateCustomer], run on the store as it is when the
    write arrives.  The matched row is returned as it was read. *)
Definition resolve_write (d : Decision) (s : Store) (now : Time) (email : string)
    (phone : option string) (fullName : string) : Store * (Error + Resolution) :=
  match d with
  | ByEmail byEmail =>
      (update_customer (Customer.id byEmail) (email_updates now phone fullName byEmail) s,
       inr (mkResolved byEmail "email" None false))
  | ByPhone phoneMatch =>
      (update_customer (Customer.id phoneMatch) (phone_updates now email phoneMatch) s,
       inr (mkResolved phoneMatch "phone" None false))
  | Flagged bestMatch =>
      match insert_customer
              (new_customer now email phone fullName (Some (Customer.id bestMatch))) s with
      | (s', inl e) => (s', inl e)
      | (s', inr newCustomer) =>
          (s', inr (mkResolved newCustomer "possible_duplicate" (Some bestMatch) true))
      end
  | Fresh =>
      match insert_customer (new_customer now email phone fullName None) s with
      | (s', inl e) => (s', inl e)
      | (s', inr newCustomer) => (s', inr (mkResolved newCustomer "new" None true))
      end
  end.

(** [findOrCreateCustomer] when nothing else writes between its reads and
    its write. *)
Definition findOrCreateCustomer (s : Store) (now : Time) (email : string)
    (phone : option string) (fullName : string) : Store * (Error + Resolution) :=
  resolve_write (resolve_read s email phone fullName) s now email phone fullName.

(* ================================================================== *)
(** ** Thread router: the contact-form webhook *)
(* ================================================================== *)

Definition is_active (t : Ticket.t) : bool :=
  Status_eqb (Ticket.status t) Open || Status_eqb (Ticket.status t) Pending.

Definition is_done (t : Ticket.t) : bool :=
  Status_eqb (Ticket.status t) Resolved || Status_eqb (Ticket.status t) Closed.

Definition owned_by (customerId : Id) (t : Ticket.t) : bool :=
  Ticket.customer_id t =? customerId.

Definition findOpenTicketForCustomer (s : Store) (customerId : Id) : option Ticket.t :=
  latest (filter (fun t => owned_by customerId t && is_active t) (tickets s)).

Definition findRecentClosed (s : Store) (customerId : Id) : option Ticket.t :=
  latest (filter (fun t => owned_by customerId t && is_done t) (tickets s)).

Definition reopen_window : Z := (24 * 60 * 60 * 1000)%Z.

Module Form.

(** The body of a contact-form request. *)
Record t : Type := mk {
  first_name : option string;
  last_name : option string;
  email : option string;
  phone : option string;
  purpose : option string;
  message : option string;
  attachment_info : option string;
  submitted_at : option Time
}.

End Form.

Record Duplicate : Type := mkDuplicate {
  dup_id : Id;
  dup_name : string;
  dup_email : string
}.

Inductive Response : Type :=
| BadRequest (error : string)
| NotFound (error : string)
| ServerError (error details : string)
| Accepted (ticket_id action customer_match : string) (possible_duplicate : option Duplicate)
| Success
| Merged (primary secondary : Duplicate) (ticketsMoved : nat).

Definition http_status (r : Response) : nat :=
  match r with
  | BadRequest _ => 400
  | NotFound _ => 404
  | ServerError _ _ => 500
  | Accepted _ _ _ _ => 201
  | Success => 200
  | Merged _ _ _ => 200
  end.

Definition update_ticket (tid : Id) (u : Ticket.patch) (s : Store) : Store :=
  with_tickets s
    (update_where (fun r => Ticket.id r =? tid) (Ticket.apply u) (tickets s)).

(** The update both the threaded and the reopened branch send. *)
Definition follow_up_patch (now : Time) (existing autoTags : list string) : Ticket.patch :=
  {| Ticket.set_customer_id := None;
     Ticket.set_ai_tags := Some (dedup (existing ++ autoTags));
     Ticket.set_status := Some Open;
     Ticket.set_updated_at := Some now |}.

Definition customer_message (f : Form.t) (now : Time) (fullName message : string)
    (flag : Message.mark) (tid : Id) : Message.t :=
  {| Message.ticket_id := tid;
     Message.sender_type := FromCustomer;
     Message.sender_name := fullName;
     Message.content := message;
     Message.meta :=
       Some {| Message.purpose := Form.purpose f;
               Message.phone := Form.phone f;
               Message.attachment := or_null (Form.attachment_info f);
               Message.submitted_at :=
                 match Form.submitted_at f with
                 | Some t => t
                 | None => now
                 end;
               Message.flag := flag |} |}.

Definition plain_message (sender : SenderType) (name content : string) (tid : Id)
  : Message.t :=
  {| Message.ticket_id := tid;
     Message.sender_type := sender;
     Message.sender_name := name;
     Message.content := content;
     Message.meta := None |}.

Definition insert_ticket (row_of : Id -> Ticket.t) (s : Store) : Store * Ticket.t :=
  let row := row_of (next_ticket_id s) in
  ({| customers := customers s;
      tickets := tickets s ++ [row];
      messages := messages s;
      next_customer_id := next_customer_id s;
      next_ticket_id := S (next_ticket_id s);
      unique_email := unique_email s |}, row).

Definition purpose_or (fallback : string) (p : option string) : string :=
  if truthy_opt p then or_empty p else fallback.

Definition new_ticket (now : Time) (ticketId : string) (customerId : Id)
    (f : Form.t) (message fullName : string) (autoTags : list string) (new_id : Id)
  : Ticket.t :=
  {| Ticket.id := new_id;
     Ticket.ticket_id := ticketId;
     Ticket.customer_id := customerId;
     Ticket.subject :=
       purpose_or "General" (Form.purpose f) ++ ": " ++ take 60 message
       ++ (if 60 <? length message then "..." else "");
     Ticket.status := Open;
     Ticket.priority := determinePriority (purpose_or "Other" (Form.purpose f)) message;
     Ticket.channel := "site_form";
     Ticket.ai_tags := autoTags;
     Ticket.ai_summary := generateSummary (purpose_or "Other" (Form.purpose f)) message fullName;
     Ticket.purpose := purpose_or "Other" (Form.purpose f);
     Ticket.created_at := now;
     Ticket.updated_at := now |}.

Definition fullName_of (first_name : string) (last_name : option string) : string :=
  trim (first_name ++ " " ++ (if truthy_opt last_name then or_empty last_name else "")).

Definition duplicate_of (c : Customer.t) : Duplicate :=
  mkDuplicate (Customer.id c) (Customer.name c) (Customer.email c).

(** Branch 1: thread the message onto the open ticket. *)
Definition thread_onto (t : Ticket.t) (s : Store) (now : Time) (f : Form.t)
    (fullName message : string) (autoTags : list string) : Store :=
  let s1 := insert_message
              (customer_message f now fullName message Message.Threaded (Ticket.id t)) s in
  update_ticket (Ticket.id t) (follow_up_patch now (Ticket.ai_tags t) autoTags) s1.

(** Branch 2: reopen the recently closed ticket (the dash of the system
    note is written in ASCII). *)
Definition reopen (t : Ticket.t) (s : Store) (now : Time) (f : Form.t)
    (fullName message : string) (autoTags : list string) : Store :=
  let s1 := insert_message
              (customer_message f now fullName message Message.Reopened (Ticket.id t)) s in
  let s2 := insert_message
              (plain_message FromSystem "System"
                 "Ticket reopened - customer sent a follow-up message." (Ticket.id t)) s1 in
  update_ticket (Ticket.id t) (follow_up_patch now (Ticket.ai_tags t) autoTags) s2.

(** Branch 3: a brand-new ticket, the message and the auto-reply. *)
Definition create_ticket (s : Store) (now : Time) (rnd : nat) (f : Form.t)
    (fullName message : string) (autoTags : list string) (customerId : Id)
  : Store * string :=
  let ticketId := generateTicketId rnd in
  let '(s1, ticket) :=
    insert_ticket (new_ticket now ticketId customerId f message fullName autoTags) s in
  let s2 := insert_message
              (customer_message f now fullName message Message.Plain (Ticket.id ticket)) s1 in
  let s3 := insert_message
              (plain_message FromAgent "Auto-reply"
                 ("Thanks for reaching out! We've received your message and a team member will get back to you shortly. Your ticket number is "
                  ++ ticketId ++ ".")
                 (Ticket.id ticket)) s2 in
  (s3, ticketId).

Definition wasRecentlyClosed (now : Time) (recentTicket : option Ticket.t) : bool :=
  match recentTicket with
  | Some t => (now - Ticket.updated_at t <? reopen_window)%Z
  | None => false
  end.

(** The three branches after the customer is known.  The result carries the
    display id of the ticket and [openTicket], the variable the response is
    computed from. *)
Definition route (s : Store) (now : Time) (rnd : nat) (f : Form.t)
    (fullName message : string) (autoTags : list string) (customerId : Id)
  : Store * string * option Ticket.t :=
  let openTicket := findOpenTicketForCustomer s customerId in
  match openTicket with
  | Some t =>
      (thread_onto t s now f fullName message autoTags, Ticket.ticket_id t, openTicket)
  | None =>
      let recentTicket := findRecentClosed s customerId in
      match recentTicket with
      | Some t =>
          if wasRecentlyClosed now recentTicket
          then (reopen t s now f fullName message autoTags, Ticket.ticket_id t, openTicket)
          else (create_ticket s now rnd f fullName message autoTags customerId, openTicket)
      | None => (create_ticket s now rnd f fullName message autoTags customerId, openTicket)
      end
  end.

(** The [action] field of the response. *)
Definition action_of (openTicket : option Ticket.t) : string :=
  match openTicket with
  | Some _ => "threaded"
  | None => "created"
  end.

(** [POST /webhook/contact-form].  [s_read] is the store the resolver reads,
    [s] the store its write and everything after it run on; they differ
    only when another request writes in between. *)
Definition contact_form_interleaved (s_read s : Store) (now : Time) (rnd : nat)
    (f : Form.t) : Store * Response :=
  if negb (truthy_opt (Form.first_name f))
     || negb (truthy_opt (Form.email f))
     || negb (truthy_opt (Form.message f))
  then (s, BadRequest "Missing required fields: first_name, email, message")
  else
    let email := or_empty (Form.email f) in
    let message := or_empty (Form.message f) in
    let fullName := fullName_of (or_empty (Form.first_name f)) (Form.last_name f) in
    match generateAutoTags (purpose_or "Other" (Form.purpose f)) message with
    | inl e => (s, ServerError "Failed to process submission" (error_message e))
    | inr autoTags =>
        match resolve_write (resolve_read s_read email (Form.phone f) fullName)
                s now email (Form.phone f) fullName with
        | (s1, inl e) => (s1, ServerError "Failed to process submission" (error_message e))
        | (s1, inr r) =>
            let '(s2, ticketId, openTicket) :=
              route s1 now rnd f fullName message autoTags (Customer.id (customer r)) in
            (s2, Accepted ticketId (action_of openTicket) (matchType r)
                   (option_map duplicate_of (possibleMatch r)))
        end
    end.

Definition contact_form (s : Store) (now : Time) (rnd : nat) (f : Form.t)
  : Store * Response :=
  contact_form_interleaved s s now rnd f.

(* ================================================================== *)
(** ** Ticket routes: status and reply *)
(* ================================================================== *)

Definition parse_status (status : string) : option Status :=
  if (status =? "open")%string then Some Open
  else if (status =? "pending")%string then Some Pending
  else if (status =? "resolved")%string then Some Resolved
  else if (status =? "closed")%string then Some Closed
  else None.

(** [PATCH /api/tickets/:ticketId/status]. *)
Definition patch_status (s : Store) (now : Time) (ticketId status : string)
  : Store * Response :=
  match parse_status status with
  | None => (s, BadRequest "Invalid status")
  | Some st =>
      (with_tickets s
         (update_where (fun r => (Ticket.ticket_id r =? ticketId)%string)
            (Ticket.apply {| Ticket.set_customer_id := None;
                             Ticket.set_ai_tags := None;
                             Ticket.set_status := Some st;
                             Ticket.set_updated_at := Some now |})
            (tickets s)),
       Success)
  end.

(** [POST /api/tickets/:ticketId/reply]; [sender_name] defaults to the
    agent's name when the body has none. *)
Definition post_reply (s : Store) (now : Time) (ticketId : string)
    (content : option string) (sender_name : option string) : Store * Response :=
  if negb (truthy_opt content) then (s, BadRequest "Reply content is required")
  else
    match single (filter (fun r => (Ticket.ticket_id r =? ticketId)%string) (tickets s)) with
    | None => (s, NotFound "Ticket not found")
    | Some ticket =>
        let s1 := insert_message
                    (plain_message FromAgent
                       (match sender_name with Some n => n | None => "Lauren" end)
                       (or_empty content) (Ticket.id ticket)) s in
        (update_ticket (Ticket.id ticket)
           {| Ticket.set_customer_id := None;
              Ticket.set_ai_tags := None;
              Ticket.set_status := None;
              Ticket.set_updated_at := Some now |} s1,
         Success)
    end.

(* ================================================================== *)
(** ** Merge engine *)
(* ================================================================== *)

(** Which of the four writes of the merge route the store refuses.  A
    refused write changes nothing and reports an error in its result. *)
Record Faults : Type := mkFaults {
  fail_move_tickets : bool;
  fail_update_primary : bool;
  fail_clear_references : bool;
  fail_delete_secondary : bool
}.

Definition no_faults : Faults := mkFaults false false false false.

Definition any_fault (fl : Faults) : bool :=
  fail_move_tickets fl || fail_update_primary fl
  || fail_clear_references fl || fail_delete_secondary fl.

(** A write whose result the route ignores: it applies unless refused. *)
Definition attempt (refused : bool) (w : Store -> Store) (s : Store) : Store :=
  if refused then s else w s.

Definition or_nil (o : option (list string)) : list string :=
  match o with
  | Some l => l
  | None => []
  end.

(** [allEmails.delete(x)] followed by the spread of the set. *)
Definition remove_string (x : string) (xs : list string) : list string :=
  filter (fun y => negb (y =? x)%string) xs.

Definition mergedAltEmails (primary secondary : Customer.t) : list string :=
  remove_string (Customer.email primary)
    (dedup (or_nil (Customer.alt_emails primary)
            ++ or_nil (Customer.alt_emails secondary)
            ++ [Customer.email secondary])).

Definition merge_updates (now : Time) (primary secondary : Customer.t) : Customer.patch :=
  {| Customer.set_name := None;
     Customer.set_phone :=
       Some (or_else (Customer.phone primary) (Customer.phone secondary));
     Customer.set_alt_emails := Some (mergedAltEmails primary secondary);
     Customer.set_tags := Some (dedup (Customer.tags primary ++ Customer.tags secondary));
     Customer.set_ticket_count :=
       Some (Customer.ticket_count primary + Customer.ticket_count secondary);
     Customer.set_shopify_customer_id :=
       Some (or_else (Customer.shopify_customer_id primary)
                     (Customer.shopify_customer_id secondary));
     Customer.set_shopify_order_count :=
       Some (Nat.max (or_zero (Customer.shopify_order_count primary))
                     (or_zero (Customer.shopify_order_count secondary)));
     Customer.set_shopify_ltv :=
       Some (Nat.max (or_zero (Customer.shopify_ltv primary))
                     (or_zero (Customer.shopify_ltv secondary)));
     Customer.set_possible_duplicate_of := Some None;
     Customer.set_updated_at := Some now |}.

(** [.update({ customer_id: primary_id })]. *)
Definition move_patch (primary_id : Id) : Ticket.patch :=
  {| Ticket.set_customer_id := Some primary_id;
     Ticket.set_ai_tags := None;
     Ticket.set_status := None;
     Ticket.set_updated_at := None |}.

Definition move_tickets (primary_id secondary_id : Id) (s : Store) : Store :=
  with_tickets s
    (update_where (owned_by secondary_id) (Ticket.apply (move_patch primary_id))
       (tickets s)).

Definition points_at (cid : Id) (c : Customer.t) : bool :=
  match Customer.possible_duplicate_of c with
  | Some d => d =? cid
  | None => false
  end.

(** [.update({ possible_duplicate_of: null })]. *)
Definition clear_patch : Customer.patch :=
  {| Customer.set_name := None;
     Customer.set_phone := None;
     Customer.set_alt_emails := None;
     Customer.set_tags := None;
     Customer.set_ticket_count := None;
     Customer.set_shopify_customer_id := None;
     Customer.set_shopify_order_count := None;
     Customer.set_shopify_ltv := None;
     Customer.set_possible_duplicate_of := Some None;
     Customer.set_updated_at := None |}.

Definition clear_references (secondary_id : Id) (s : Store) : Store :=
  with_customers s
    (update_where (points_at secondary_id) (Customer.apply clear_patch) (customers s)).

Definition delete_customer (cid : Id) (s : Store) : Store :=
  with_customers s (delete_where (fun r => Customer.id r =? cid) (customers s)).

Definition find_customer (s : Store) (cid : Id) : option Customer.t :=
  single (filter (fun r => Customer.id r =? cid) (customers s)).

(** [POST /api/customers/merge].  An id the body lacks (or gives as a falsy
    value) is [None].  Only the result of the first write is inspected. *)
Definition merge_with (fl : Faults) (s : Store) (now : Time)
    (primary_id secondary_id : option Id) : Store * Response :=
  match primary_id, secondary_id with
  | Some pid, Some sid =>
      if pid =? sid then (s, BadRequest "Cannot merge customer with themselves")
      else
        match find_customer s pid, find_customer s sid with
        | Some primary, Some secondary =>
            if fail_move_tickets fl
            then (s, ServerError "Failed to merge customers" "ticket update refused")
            else
              let s1 := move_tickets pid sid s in
              let s2 := attempt (fail_update_primary fl)
                          (update_customer pid (merge_updates now primary secondary)) s1 in
              let s3 := attempt (fail_clear_references fl) (clear_references sid) s2 in
              let s4 := attempt (fail_delete_secondary fl) (delete_customer sid) s3 in
              (s4, Merged (duplicate_of primary) (duplicate_of secondary)
                     (Customer.ticket_count secondary))
        | _, _ => (s, NotFound "One or both customers not found")
        end
  | _, _ => (s, BadRequest "primary_id and secondary_id required")
  end.

(** The merge route when the store refuses nothing. *)
Definition merge (s : Store) (now : Time) (primary_id secondary_id : option Id)
  : Store * Response :=
  merge_with no_faults s now primary_id secondary_id.

(* ================================================================== *)
(** ** Operations and reachable stores *)
(* ================================================================== *)

Inductive Op : Type :=
| Contact (now : Time) (rnd : nat) (f : Form.t)
| Reply (now : Time) (ticketId : string) (content sender_name : option string)
| SetStatus (now : Time) (ticketId status : string)
| Merge (now : Time) (primary_id secondary_id : option Id).

Definition run (s : Store) (op : Op) : Store * Response :=
  match op with
  | Contact now rnd f => contact_form s now rnd f
  | Reply now ticketId content sender_name => post_reply s now ticketId content sender_name
  | SetStatus now ticketId status => patch_status s now ticketId status
  | Merge now primary_id secondary_id => merge s now primary_id secondary_id
  end.

Definition run_all (s : Store) (ops : list Op) : Store :=
  fold_left (fun st op => fst (run st op)) ops s.

(** The number of tickets a customer owns. *)
Definition owned (s : Store) (cid : Id) : nat :=
  List.length (filter (owned_by cid) (tickets s)).

(* ================================================================== *)
(** ** Specification vocabulary *)
(* ================================================================== *)

(** Whether the webhook accepts the form. *)
Definition form_ok (f : Form.t) : bool :=
  truthy_opt (Form.first_name f) && truthy_opt (Form.email f)
  && truthy_opt (Form.message f).

Definition form_fullName (f : Form.t) : string :=
  fullName_of (or_empty (Form.first_name f)) (Form.last_name f).

(** The call of [generateAutoTags] the webhook makes for a form. *)
Definition form_tags (f : Form.t) : Error + list string :=
  generateAutoTags (purpose_or "Other" (Form.purpose f)) (or_empty (Form.message f)).

(** The router takes exactly one of its three branches. *)
Inductive Routed (s : Store) (now : Time) (rnd : nat) (f : Form.t)
    (fullName message : string) (autoTags : list string) (customerId : Id)
  : Store * string * option Ticket.t -> Prop :=
| RoutedThreaded t :
    findOpenTicketForCustomer s customerId = Some t ->
    Routed s now rnd f fullName message autoTags customerId
      (thread_onto t s now f fullName message autoTags, Ticket.ticket_id t, Some t)
| RoutedReopened t :
    findOpenTicketForCustomer s customerId = None ->
    findRecentClosed s customerId = Some t ->
    (now - Ticket.updated_at t < reopen_window)%Z ->
    Routed s now rnd f fullName message autoTags customerId
      (reopen t s now f fullName message autoTags, Ticket.ticket_id t, None)
| RoutedCreated :
    findOpenTicketForCustomer s customerId = None ->
    wasRecentlyClosed now (findRecentClosed s customerId) = false ->
    Routed s now rnd f fullName message autoTags customerId
      (create_ticket s now rnd f fullName message autoTags customerId, None).

(* ================================================================== *)
(** ** Sample data *)
(* ================================================================== *)

Module Sample.

Definition hour : Z := (60 * 60 * 1000)%Z.

(** The clock of the samples: one hundred hours after the epoch. *)
Definition now : Time := (100 * hour)%Z.

Definition alice : Customer.t :=
  {| Customer.id := 1;
     Customer.name := "Alice Johnson";
     Customer.email := "alice@example.com";
     Customer.phone := Some "+1 (555) 123-4567";
     Customer.alt_emails := None;
     Customer.tags := ["VIP"];
     Customer.ticket_count := 1;
     Customer.shopify_customer_id := None;
     Customer.shopify_order_count := Some 3;
     Customer.shopify_ltv := Some 120;
     Customer.possible_duplicate_of := None;
     Customer.updated_at := 0%Z |}.

Definition alicia : Customer.t :=
  {| Customer.id := 2;
     Customer.name := "Alicia Johnson";
     Customer.email := "alicia@example.com";
     Customer.phone := None;
     Customer.alt_emails := Some ["aj@example.com"];
     Customer.tags := ["VIP"; "Influencer"];
     Customer.ticket_count := 1;
     Customer.shopify_customer_id := Some "shop-2";
     Customer.shopify_order_count := Some 5;
     Customer.shopify_ltv := Some 80;
     Customer.possible_duplicate_of := Some 1;
     Customer.updated_at := 0%Z |}.

(** A ticket of customer [cid] in status [st], last updated [age] hours
    before [now]. *)
Definition ticket (tid cid : Id) (st : Status) (age : Z) : Ticket.t :=
  {| Ticket.id := tid;
     Ticket.ticket_id := generateTicketId tid;
     Ticket.customer_id := cid;
     Ticket.subject := "Billing: where is my invoice";
     Ticket.status := st;
     Ticket.priority := High;
     Ticket.channel := "site_form";
     Ticket.ai_tags := ["Billing inquiry"];
     Ticket.ai_summary := "Alice Johnson submitted a billing inquiry via the contact form.";
     Ticket.purpose := "Billing";
     Ticket.created_at := 0%Z;
     Ticket.updated_at := (now - age * hour)%Z |}.

Definition store (cs : list Customer.t) (ts : list Ticket.t) : Store :=
  {| customers := cs; tickets := ts; messages := [];
     next_customer_id := 10; next_ticket_id := 10; unique_email := true |}.

(** A contact form with the given name, email, phone and message. *)
Definition form (first last email : string) (phone : option string) (message : string)
  : Form.t :=
  {| Form.first_name := Some first;
     Form.last_name := Some last;
     Form.email := Some email;
     Form.phone := phone;
     Form.purpose := Some "Shipping & Delivery";
     Form.message := Some message;
     Form.attachment_info := None;
     Form.submitted_at := None |}.

Definition alice_form : Form.t :=
  form "Alice" "Johnson" "Alice@Example.com" None "Any news on the tracking number?".

(** The ticket the webhook creates for [alice_form] on an empty store. *)
Definition first_ticket : Ticket.t :=
  new_ticket now (generateTicketId 234) 10 alice_form
    "Any news on the tracking number?" "Alice Johnson"
    ["Shipping issue"; "Tracking question"] 10.

End Sample.

(** What the phone tier leaves in the alternate emails of the matched row. *)
Definition add_once (e : string) (old : list string) : list string :=
  if mem e old then old else old ++ [e].

Module MergeSample.

(** Alice and Alicia with three tickets, two of them Alicia's. *)
Definition before : Store :=
  Sample.store [Sample.alice; Sample.alicia]
    [Sample.ticket 1 1 Open 5; Sample.ticket 2 2 Resolved 30; Sample.ticket 3 2 Open 1].

(** The store refuses the update of the primary customer only. *)
Definition update_refused : Faults := mkFaults false true false false.

(** The store refuses the move of the tickets. *)
Definition move_refused : Faults := mkFaults true false false false.

End MergeSample.

(** The count invariant the server keeps: every customer's [ticket_count]
    is at least the number of tickets it owns, and ids are below the
    sequence that generates them. *)
Definition counts_cover (s : Store) : Prop :=
  (forall c, In c (customers s) -> owned s (Customer.id c) <= Customer.ticket_count c)
  /\ (forall c, In c (customers s) -> Customer.id c < next_customer_id s)
  /\ (forall t, In t (tickets s) -> Ticket.customer_id t < next_customer_id s).

(** Between the resolver and the router: the resolved customer's count
    already pays for one more ticket. *)
Definition ready (s : Store) (cid : Id) : Prop :=
  (forall c, In c (customers s) -> Customer.id c = cid ->
             owned s cid + 1 <= Customer.ticket_count c)
  /\ cid < next_customer_id s.

(** Primary emails are stored lower-cased. *)
Definition emails_lower (s : Store) : Prop :=
  forall c, In c (customers s) -> toLowerCase (Customer.email c) = Customer.email c.

(* ================================================================== *)
(** * Further vocabulary: shapes, notes, profiles, integrity *)
(* ================================================================== *)

(** Every code unit of [s] satisfies [p]. *)
Fixpoint all_chars (p : ascii -> bool) (s : string) : bool :=
  match s with
  | EmptyString => true
  | String c r => p c && all_chars p r
  end.

(** What [normalizeName] keeps: the letters a-z and the space. *)
Definition is_name_char (c : ascii) : bool := is_lower_az c || (code c =? 32).

(** No two spaces in a row. *)
Fixpoint single_spaced (s : string) : bool :=
  match s with
  | EmptyString => true
  | String a r =>
      match r with
      | EmptyString => true
      | String b _ => negb ((code a =? 32) && (code b =? 32)) && single_spaced r
      end
  end.

(** The tokens [nameSimilarity] compares. *)
Definition name_parts (name : string) : list string := split " " (normalizeName name).

(** A count as a rational. *)
Definition q_of_nat (n : nat) : Q := inject_Z (Z.of_nat n).

(** What the loop of the third tier knows after the customers in [seen]. *)
Definition best_so_far (fullName : string) (seen : list Customer.t)
    (acc : option Customer.t * Q) : Prop :=
  match fst acc with
  | None =>
      snd acc = 0%Q
      /\ forall c, In c seen -> ~ (threshold < nameSimilarity fullName (Customer.name c))%Q
  | Some b =>
      In b seen
      /\ snd acc = nameSimilarity fullName (Customer.name b)
      /\ (threshold < snd acc)%Q
      /\ forall c, In c seen -> (nameSimilarity fullName (Customer.name c) <= snd acc)%Q
  end.

(** "TIX-" followed by exactly four decimal digits. *)
Definition well_formed_ticket_id (x : string) : bool :=
  prefix "TIX-" x && (length x =? 8) && all_chars is_digit (substring 4 4 x).


(* ================================================================== *)
(** ** Notes and the tag synthesizer *)
(* ================================================================== *)

Definition generateTagsFromNote (noteContent : string) : list string :=
  let note := toLowerCase noteContent in
  let tags := [] in
  let tags := push_if (includes note "refund"
                       && (includes note "gave" || includes note "processed"
                           || includes note "issued" || includes note "already"))
                "Previous refund" tags in
  let tags := push_if (includes note "reshipped" || includes note "reship"
                       || includes note "sent replacement")
                "Previous reship" tags in
  let tags := push_if (includes note "discount" || includes note "coupon"
                       || includes note "% off")
                "Received discount" tags in
  let tags := push_if (includes note "dosage"
                       && (includes note "educated" || includes note "explained"
                           || includes note "guidance"))
                "Dosage education given" tags in
  let tags := push_if (includes note "vip" || includes note "high value"
                       || includes note "important")
                "VIP" tags in
  let tags := push_if (includes note "escalat") "Previously escalated" tags in
  let tags := push_if (includes note "repeat"
                       && (includes note "issue" || includes note "complaint"
                           || includes note "problem"))
                "Repeat complaint" tags in
  let tags := push_if (includes note "influencer" || includes note "social media"
                       || includes note "instagram" || includes note "tiktok")
                "Influencer" tags in
  let tags := push_if (includes note "wholesale" || includes note "bulk"
                       || includes note "distributor")
                "Wholesale lead" tags in
  let tags := push_if (includes note "subscription"
                       && (includes note "cancel" || includes note "pause"))
                "Subscription at risk" tags in
  let tags := push_if (includes note "happy" || includes note "satisfied"
                       || includes note "resolved")
                "Resolved positive" tags in
  let tags := push_if (includes note "angry" || includes note "upset"
                       || includes note "frustrated")
                "Difficult interaction" tags in
  let tags := push_if (includes note "didn't feel" || includes note "no effect"
                       || includes note "not working")
                "Effect skeptic" tags in
  dedup tags.

(** The tags the synthesizer can return, in the order it pushes them. *)
Definition note_vocabulary : list string :=
  ["Previous refund"; "Previous reship"; "Received discount"; "Dosage education given";
   "VIP"; "Previously escalated"; "Repeat complaint"; "Influencer"; "Wholesale lead";
   "Subscription at risk"; "Resolved positive"; "Difficult interaction"; "Effect skeptic"].

(** [sub] is [l] with some elements left out. *)
Fixpoint subsequence (sub l : list string) : bool :=
  match sub, l with
  | [], _ => true
  | _ :: _, [] => false
  | x :: sub', y :: l' =>
      if (x =? y)%string then subsequence sub' l' else subsequence sub l'
  end.

Module Note.

Record t : Type := mk {
  ticket_id : Id;
  author : string;
  content : string
}.

End Note.

Inductive NoteResponse : Type :=
| NoteTicketNotFound
| NoteAdded (note : Note.t) (newCustomerTags : list string).

(** [.update({ tags: merged, updated_at })]. *)
Definition tags_patch (now : Time) (merged : list string) : Customer.patch :=
  {| Customer.set_name := None;
     Customer.set_phone := None;
     Customer.set_alt_emails := None;
     Customer.set_tags := Some merged;
     Customer.set_ticket_count := None;
     Customer.set_shopify_customer_id := None;
     Customer.set_shopify_order_count := None;
     Customer.set_shopify_ltv := None;
     Customer.set_possible_duplicate_of := None;
     Customer.set_updated_at := Some now |}.

(** [POST /api/tickets/:ticketId/notes] on a body that has a [content]; the
    notes table is kept beside the store; [author] defaults when the body
    has none.  A ticket's [customer_id] is an id, hence truthy. *)
Definition post_note (s : Store) (notes : list Note.t) (now : Time) (ticketId : string)
    (content : string) (author : option string)
  : Store * list Note.t * NoteResponse :=
  match single (filter (fun r => (Ticket.ticket_id r =? ticketId)%string) (tickets s)) with
  | None => (s, notes, NoteTicketNotFound)
  | Some ticket =>
      let note := {| Note.ticket_id := Ticket.id ticket;
                     Note.author := match author with Some a => a | None => "Josh" end;
                     Note.content := content |} in
      let notes1 := notes ++ [note] in
      let newTags := generateTagsFromNote content in
      let s1 :=
        if 0 <? List.length newTags then
          match find_customer s (Ticket.customer_id ticket) with
          | Some customer =>
              update_customer (Ticket.customer_id ticket)
                (tags_patch now (dedup (Customer.tags customer ++ newTags))) s
          | None => s
          end
        else s in
      (s1, notes1, NoteAdded note newTags)
  end.

(* ================================================================== *)
(** ** Customer profile *)
(* ================================================================== *)

Module Profile.

(** The columns [select('id, name, email, phone, ticket_count, tags')]
    keeps of the possible duplicate. *)
Record linked : Type := mk_linked {
  id : Id;
  name : string;
  email : string;
  phone : option string;
  ticket_count : nat;
  tags : list string
}.

(** The columns kept of a customer that points at the requested one. *)
Record pointing : Type := mk_pointing {
  p_id : Id;
  p_name : string;
  p_email : string;
  p_phone : option string;
  p_ticket_count : nat
}.

Record t : Type := mk {
  customer : Customer.t;
  possibleDuplicate : option linked;
  duplicatesOfMe : list pointing
}.

End Profile.

Definition linked_of (c : Customer.t) : Profile.linked :=
  Profile.mk_linked (Customer.id c) (Customer.name c) (Customer.email c)
    (Customer.phone c) (Customer.ticket_count c) (Customer.tags c).

Definition pointing_of (c : Customer.t) : Profile.pointing :=
  Profile.mk_pointing (Customer.id c) (Customer.name c) (Customer.email c)
    (Customer.phone c) (Customer.ticket_count c).

(** [GET /api/customers/:customerId]; [None] is the 404.  A pointer that is
    set holds a row id, hence is truthy. *)
Definition get_customer (s : Store) (customerId : Id) : option Profile.t :=
  match find_customer s customerId with
  | None => None
  | Some customer =>
      Some {| Profile.customer := customer;
              Profile.possibleDuplicate :=
                match Customer.possible_duplicate_of customer with
                | Some d => option_map linked_of (find_customer s d)
                | None => None
                end;
              Profile.duplicatesOfMe :=
                map pointing_of (filter (points_at customerId) (customers s)) |}
  end.

(* ================================================================== *)
(** ** Referential integrity *)
(* ================================================================== *)

(** What every store built by the routes satisfies: row ids are unique and
    below their sequence, every ticket has an owner, every message a ticket,
    every duplicate pointer an existing customer created earlier, and
    primary emails are unique when the store enforces it. *)
Record integrity (s : Store) : Prop := mk_integrity {
  customer_ids_unique : NoDup (map Customer.id (customers s));
  customer_ids_below : forall c, In c (customers s) -> Customer.id c < next_customer_id s;
  ticket_ids_unique : NoDup (map Ticket.id (tickets s));
  ticket_ids_below : forall t, In t (tickets s) -> Ticket.id t < next_ticket_id s;
  tickets_owned :
    forall t, In t (tickets s) ->
              In (Ticket.customer_id t) (map Customer.id (customers s));
  messages_attached :
    forall m, In m (messages s) ->
              In (Message.ticket_id m) (map Ticket.id (tickets s));
  pointers_sound :
    forall c d, In c (customers s) -> Customer.possible_duplicate_of c = Some d ->
                d < Customer.id c /\ In d (map Customer.id (customers s));
  emails_unique :
    unique_email s = true -> NoDup (map Customer.email (customers s))
}.

(** Customer [a] is flagged as a possible duplicate of customer [b]. *)
Definition flagged_as (s : Store) (a b : Id) : Prop :=
  exists c, In c (customers s) /\ Customer.id c = a
            /\ Customer.possible_duplicate_of c = Some b.

(** The pointer a customer update leaves: the old one or none. *)
Definition pointer_safe (u : Customer.patch) : Prop :=
  Customer.set_possible_duplicate_of u = None
  \/ Customer.set_possible_duplicate_of u = Some None.


(** Two customers whose first contacts draw the same random number. *)
Definition twin_store : Store :=
  run_all (empty_store true)
    [Contact Sample.now 234 Sample.alice_form;
     Contact Sample.now 234 (Sample.form "Bo" "Li" "bo@example.com" None "Hello there")].


(** Alice wrote twice on one ticket, Bo once; merging Alice into Bo reports
    two tickets moved and moves one. *)
Definition chatty_store : Store :=
  run_all (empty_store true)
    [Contact Sample.now 234 Sample.alice_form;
     Contact (Sample.now + 1)%Z 77
       (Sample.form "Alice" "Johnson" "alice@example.com" None "Me again");
     Contact (Sample.now + 2)%Z 78
       (Sample.form "Bo" "Li" "bo@example.com" None "Hello there")].


(** Alice, then a contact from another address under a name one letter
    away from hers. *)
Definition flagged_store : Store :=
  run_all (empty_store true)
    [Contact Sample.now 234 Sample.alice_form;
     Contact (Sample.now + 1)%Z 77
       (Sample.form "Alice" "Johnsen" "aj@elsewhere.com" None "Hello there")].

(** The tags of the rules that fire, in order. *)
Fixpoint pick (rules : list (bool * string)) : list string :=
  match rules with
  | [] => []
  | (c, t) :: r => if c then t :: pick r else pick r
  end.

(** The rules of [generateTagsFromNote] on the lower-cased note. *)
Definition note_rules (note : string) : list (bool * string) :=
  [(includes note "refund"
    && (includes note "gave" || includes note "processed"
        || includes note "issued" || includes note "already"), "Previous refund");
   (includes note "reshipped" || includes note "reship"
    || includes note "sent replacement", "Previous reship");
   (includes note "discount" || includes note "coupon" || includes note "% off",
    "Received discount");
   (includes note "dosage"
    && (includes note "educated" || includes note "explained"
        || includes note "guidance"), "Dosage education given");
   (includes note "vip" || includes note "high value" || includes note "important", "VIP");
   (includes note "escalat", "Previously escalated");
   (includes note "repeat"
    && (includes note "issue" || includes note "complaint" || includes note "problem"),
    "Repeat complaint");
   (includes note "influencer" || includes note "social media"
    || includes note "instagram" || includes note "tiktok", "Influencer");
   (includes note "wholesale" || includes note "bulk" || includes note "distributor",
    "Wholesale lead");
   (includes note "subscription" && (includes note "cancel" || includes note "pause"),
    "Subscription at risk");
   (includes note "happy" || includes note "satisfied" || includes note "resolved",
    "Resolved positive");
   (includes note "angry" || includes note "upset" || includes note "frustrated",
    "Difficult interaction");
   (includes note "didn't feel" || includes note "no effect"
    || includes note "not working", "Effect skeptic")].

(* ================================================================== *)
(** ** The similarity score in binary64 *)
(* ================================================================== *)

Module Double.

(** The literal [0.8] of the source: the double nearest to 8/10. *)
Definition eight_tenths : float := 0x1.999999999999ap-1%float.

(** The literal [0.7] of the source: the double nearest to 7/10. *)
Definition threshold : float := 0x1.6666666666666p-1%float.

(** A length as a number: exact below 2^53, where every length is (the
    conversion goes through a 63-bit integer and wraps at 2^63). *)
Definition of_length (n : nat) : float :=
  PrimFloat.of_uint63 (Uint63.of_Z (Z.of_nat n)).

(** One pass of the inner loop body on [matches]: [matches++],
    [matches += 0.8] or nothing. *)
Definition pair_step (pa : string) (matches : float) (pb : string) : float :=
  if (pa =? pb)%string && (1 <? length pa) then (matches + 1)%float
  else if (3 <? length pa) && (3 <? length pb)
          && (abs_diff (length pa) (length pb) <=? 1)
  then (if typo_close pa pb then (matches + eight_tenths)%float else matches)
  else matches.

Definition count_matches (partsA partsB : list string) : float :=
  fold_left (fun m pa => fold_left (pair_step pa) partsB m) partsA 0%float.

Definition nameSimilarity (a b : string) : float :=
  let na := normalizeName a in
  let nb := normalizeName b in
  if (na =? nb)%string then 1%float
  else
    let partsA := split " " na in
    let partsB := split " " nb in
    let matches := count_matches partsA partsB in
    let maxParts := Nat.max (List.length partsA) (List.length partsB) in
    if 0 <? maxParts
    then (matches / of_length maxParts)%float
    else 0%float.

(** [x > y] on numbers. *)
Definition gt (x y : float) : bool := (y <? x)%float.

(** One pass of the loop over [allCustomers] in the third tier. *)
Definition best_step (fullName : string) (acc : option Customer.t * float)
    (c : Customer.t) : option Customer.t * float :=
  let score := nameSimilarity fullName (Customer.name c) in
  if gt score threshold && gt score (snd acc) then (Some c, score) else acc.

Definition name_tier (s : Store) (fullName : string) : option Customer.t :=
  let nameParts := split " " (trim fullName) in
  if 2 <=? List.length nameParts
  then fst (fold_left (best_step fullName) (customers s) (None, 0%float))
  else None.

(** What the loop knows after the customers in [seen]. *)
Definition best_so_far (fullName : string) (seen : list Customer.t)
    (acc : option Customer.t * float) : Prop :=
  match fst acc with
  | None =>
      snd acc = 0%float
      /\ forall c, In c seen -> gt (nameSimilarity fullName (Customer.name c)) threshold = false
  | Some b =>
      In b seen
      /\ snd acc = nameSimilarity fullName (Customer.name b)
      /\ gt (snd acc) threshold = true
      /\ forall c, In c seen -> gt (nameSimilarity fullName (Customer.name c)) (snd acc) = false
  end.

End Double.

(* ================================================================== *)
(** ** The webhook on a store that may refuse the new ticket *)
(* ================================================================== *)

(** Branch 3 with the check of line 378: [ticketError] is the error the
    store reports for the insert of the ticket, if any; a refused insert
    writes nothing and the route throws before the two messages. *)
Definition create_ticket_checked (ticketError : option Error) (s : Store) (now : Time)
    (rnd : nat) (f : Form.t) (fullName message : string) (autoTags : list string)
    (customerId : Id) : Store * (Error + string) :=
  match ticketError with
  | Some e => (s, inl e)
  | None =>
      let '(s3, ticketId) :=
        create_ticket s now rnd f fullName message autoTags customerId in
      (s3, inr ticketId)
  end.

Definition route_checked (ticketError : option Error) (s : Store) (now : Time)
    (rnd : nat) (f : Form.t) (fullName message : string) (autoTags : list string)
    (customerId : Id) : Store * (Error + string * option Ticket.t) :=
  let openTicket := findOpenTicketForCustomer s customerId in
  let create :=
    match create_ticket_checked ticketError s now rnd f fullName message autoTags
            customerId with
    | (s', inl e) => (s', inl e)
    | (s', inr ticketId) => (s', inr (ticketId, openTicket))
    end in
  match openTicket with
  | Some t =>
      (thread_onto t s now f fullName message autoTags,
       inr (Ticket.ticket_id t, openTicket))
  | None =>
      let recentTicket := findRecentClosed s customerId in
      match recentTicket with
      | Some t =>
          if wasRecentlyClosed now recentTicket
          then (reopen t s now f fullName message autoTags,
                inr (Ticket.ticket_id t, openTicket))
          else create
      | None => create
      end
  end.

(** [POST /webhook/contact-form], run alone, with every throw of the
    handler: classification, the customer insert, the ticket insert.  What
    the resolver wrote stays written when a later step throws. *)
Definition contact_form_checked (ticketError : option Error) (s : Store) (now : Time)
    (rnd : nat) (f : Form.t) : Store * Response :=
  if negb (truthy_opt (Form.first_name f))
     || negb (truthy_opt (Form.email f))
     || negb (truthy_opt (Form.message f))
  then (s, BadRequest "Missing required fields: first_name, email, message")
  else
    let email := or_empty (Form.email f) in
    let message := or_empty (Form.message f) in
    let fullName := fullName_of (or_empty (Form.first_name f)) (Form.last_name f) in
    match generateAutoTags (purpose_or "Other" (Form.purpose f)) message with
    | inl e => (s, ServerError "Failed to process submission" (error_message e))
    | inr autoTags =>
        match findOrCreateCustomer s now email (Form.phone f) fullName with
        | (s1, inl e) => (s1, ServerError "Failed to process submission" (error_message e))
        | (s1, inr r) =>
            match route_checked ticketError s1 now rnd f fullName message autoTags
                    (Customer.id (customer r)) with
            | (s2, inl e) =>
                (s2, ServerError "Failed to process submission" (error_message e))
            | (s2, inr (ticketId, openTicket)) =>
                (s2, Accepted ticketId (action_of openTicket) (matchType r)
                       (option_map duplicate_of (possibleMatch r)))
            end
        end
    end.

(* ================================================================== *)
(** ** Requests as the client spells them *)
(* ================================================================== *)

(** A customer id in the body of a merge request: a JSON number or a JSON
    string.  The two guards of the route see this value; the store reads it
    as a row id. *)
Inductive RawId : Type :=
| IdNumber (n : nat)
| IdString (s : string).

(** [!v] is false: a number other than 0, a string other than the empty
    one. *)
Definition raw_truthy (v : RawId) : bool :=
  match v with
  | IdNumber n => negb (n =? 0)
  | IdString s => truthy s
  end.

(** [a === b]: same type and same value. *)
Definition strict_eq (a b : RawId) : bool :=
  match a, b with
  | IdNumber n, IdNumber m => n =? m
  | IdString s, IdString t => (s =? t)%string
  | _, _ => false
  end.

(** A store that reads an id by its decimal digits, whether it arrives as a
    number or as a string. *)
Definition decimal_id (v : RawId) : option Id :=
  match v with
  | IdNumber n => Some n
  | IdString s => option_map Nat.of_uint (NilEmpty.uint_of_string s)
  end.

Inductive Request : Type :=
| ContactForm (now : Time) (rnd : nat) (ticketError : option Error) (f : Form.t)
| PostReply (now : Time) (ticketId : string) (content sender_name : option string)
| PatchStatus (now : Time) (ticketId status : string)
| MergeCustomers (now : Time) (primary_id secondary_id : option RawId).

Section RawIds.

(** How the store reads the value of [.eq('id', v)] and
    [.eq('customer_id', v)]: the row id it denotes, if any. *)
Variable reads : RawId -> option Id.

(** [POST /api/customers/merge] on the ids as the body spells them.  The
    guards compare the raw values; every query reads them as row ids; a
    value that denotes no row id fetches nothing.  The response names the
    rows by their ids as stored. *)
Definition merge_request (fl : Faults) (s : Store) (now : Time)
    (primary_id secondary_id : option RawId) : Store * Response :=
  match primary_id, secondary_id with
  | Some p, Some q =>
      if negb (raw_truthy p) || negb (raw_truthy q)
      then (s, BadRequest "primary_id and secondary_id required")
      else if strict_eq p q then (s, BadRequest "Cannot merge customer with themselves")
      else
        match reads p, reads q with
        | Some pid, Some sid =>
            match find_customer s pid, find_customer s sid with
            | Some primary, Some secondary =>
                if fail_move_tickets fl
                then (s, ServerError "Failed to merge customers" "ticket update refused")
                else
                  let s1 := move_tickets pid sid s in
                  let s2 := attempt (fail_update_primary fl)
                              (update_customer pid (merge_updates now primary secondary))
                              s1 in
                  let s3 := attempt (fail_clear_references fl) (clear_references sid) s2 in
                  let s4 := attempt (fail_delete_secondary fl) (delete_customer sid) s3 in
                  (s4, Merged (duplicate_of primary) (duplicate_of secondary)
                         (Customer.ticket_count secondary))
            | _, _ => (s, NotFound "One or both customers not found")
            end
        | _, _ => (s, NotFound "One or both customers not found")
        end
  | _, _ => (s, BadRequest "primary_id and secondary_id required")
  end.

Definition serve (s : Store) (r : Request) : Store * Response :=
  match r with
  | ContactForm now rnd ticketError f => contact_form_checked ticketError s now rnd f
  | PostReply now ticketId content sender_name =>
      post_reply s now ticketId content sender_name
  | PatchStatus now ticketId status => patch_status s now ticketId status
  | MergeCustomers now primary_id secondary_id =>
      merge_request no_faults s now primary_id secondary_id
  end.

Definition serve_all (s : Store) (rs : list Request) : Store :=
  fold_left (fun st r => fst (serve st r)) rs s.

(** The request does not name one customer in two spellings: two ids that
    the store reads as the same row are the same value. *)
Definition one_spelling (r : Request) : Prop :=
  match r with
  | MergeCustomers _ (Some p) (Some q) =>
      forall i, reads p = Some i -> reads q = Some i -> strict_eq p q = true
  | _ => True
  end.

End RawIds.

(** Alice wrote twice, Bo once; then Alice is merged into Bo, her id spelt
    as a string. *)
Definition merged_requests : list Request :=
  [ContactForm Sample.now 234 None Sample.alice_form;
   ContactForm (Sample.now + 1)%Z 77 None
     (Sample.form "Alice" "Johnson" "alice@example.com" None "Me again");
   ContactForm (Sample.now + 2)%Z 78 None
     (Sample.form "Bo" "Li" "bo@example.com" None "Hello there");
   MergeCustomers (Sample.now + 3)%Z (Some (IdNumber 2)) (Some (IdString "1"))].

(* ================================================================== *)
(** * Properties *)
(* ================================================================== *)

Example normalizeName_ex : normalizeName "  John   O'Neil-SMITH " = "john oneilsmith".
Proof. reflexivity. Qed.

Example split_ex : split " " "john smith" = ["john"; "smith"].
Proof. reflexivity. Qed.

Example ticket_id_ex : generateTicketId 234 = "TIX-1234".
Proof. reflexivity. Qed.

Example phone_suffix_ex :
  slice_last 10 (clean_phone "+1 (555) 123-4567") = "5551234567".
Proof. reflexivity. Qed.

(* ------------------------------------------------------------------ *)
(** ** Fuzzy name similarity *)
(* ------------------------------------------------------------------ *)

(** The typo award of the server is given only to two tokens that are both
    longer than three characters. *)
Lemma pair_award_typo_length (pa pb : string) :
  pair_award pa pb = (8 # 10)%Q -> 3 < length pa /\ 3 < length pb.
Proof.
  unfold pair_award.
  destruct ((pa =? pb)%string && (1 <? length pa)); [discriminate|].
  destruct (3 <? length pa) eqn:Ha; [|discriminate].
  destruct (3 <? length pb) eqn:Hb; [|discriminate].
  intros _. split; now apply Nat.ltb_lt.
Qed.

(** C1, as stated, fails: the three bounds do not hold together, because
    the score of "John Smith" against "Jon Smith" is not above 0.7. *)
Lemma C1_three_bounds_fail :
  ~ ((threshold < nameSimilarity "John Smith" "Jon Smith")%Q
     /\ (threshold < nameSimilarity "Sarah Lee" "Sara Lee")%Q
     /\ (nameSimilarity "John Smith" "Alice Johnson" <= threshold)%Q).
Proof.
  intros [H _]. vm_compute in H. discriminate H.
Qed.

(** C1 (amended): "John Smith" against "Jon Smith" scores 1/2, which is not
    above 0.7, since the 0.8 typo award needs both tokens longer than three
    characters and "jon" has three (the rule worded without that guard would
    give 9/10); "Sarah Lee" against "Sara Lee" scores 9/10, above 0.7;
    "John Smith" against "Alice Johnson" scores 0, not above 0.7. *)
Theorem C1_name_similarity_examples :
  nameSimilarity "John Smith" "Jon Smith" = (1 # 2)%Q
  /\ ~ (threshold < nameSimilarity "John Smith" "Jon Smith")%Q
  /\ pair_award "john" "jon" = 0%Q
  /\ pair_award_spec "john" "jon" = (8 # 10)%Q
  /\ (nameSimilarity_spec "John Smith" "Jon Smith" == 9 # 10)%Q
  /\ (nameSimilarity "Sarah Lee" "Sara Lee" == 9 # 10)%Q
  /\ (threshold < nameSimilarity "Sarah Lee" "Sara Lee")%Q
  /\ (nameSimilarity "John Smith" "Alice Johnson" == 0)%Q
  /\ (nameSimilarity "John Smith" "Alice Johnson" <= threshold)%Q.
Proof.
  repeat split; try (vm_compute; reflexivity).
  - intros H. vm_compute in H. discriminate H.
  - vm_compute. intros H. discriminate H.
Qed.

(* ------------------------------------------------------------------ *)
(** ** Priority *)
(* ------------------------------------------------------------------ *)

Lemma determinePriority_cases (purpose message : string) :
  determinePriority purpose message = Urgent
  \/ determinePriority purpose message = High
  \/ determinePriority purpose message = Medium.
Proof.
  unfold determinePriority.
  repeat match goal with
         | |- context [if ?b then _ else _] => destruct b
         end; auto.
Qed.

(* ------------------------------------------------------------------ *)
(** ** Facts about the query primitives *)
(* ------------------------------------------------------------------ *)

Section QueryFacts.

Context {A : Type}.
Implicit Types (sel p : A -> bool) (f : A -> A) (l : list A).

Lemma length_update_where sel f l :
  List.length (update_where sel f l) = List.length l.
Proof. unfold update_where. apply length_map. Qed.

Lemma in_update_where sel f l x :
  In x (update_where sel f l) <->
  exists r, In r l /\ x = (if sel r then f r else r).
Proof.
  unfold update_where. rewrite in_map_iff. split.
  - intros (r & E & I). exists r. split; [exact I | now symmetry].
  - intros (r & I & E). exists r. split; [now symmetry | exact I].
Qed.

Lemma filter_update_where p sel f l :
  (forall r, p (f r) = p r) ->
  filter p (update_where sel f l) = update_where sel f (filter p l).
Proof.
  intros Hp. induction l as [|a l IH]; simpl; [reflexivity|].
  assert (E : p (if sel a then f a else a) = p a) by (destruct (sel a); auto).
  rewrite E. destruct (p a); simpl; now rewrite IH.
Qed.

Lemma map_update_where {B : Type} (g : A -> B) sel f l :
  (forall r, g (f r) = g r) ->
  map g (update_where sel f l) = map g l.
Proof.
  intros Hg. unfold update_where. rewrite map_map. apply map_ext.
  intros a. destruct (sel a); auto.
Qed.

Lemma find_update_where p sel f l :
  (forall r, p (f r) = p r) ->
  find p (update_where sel f l)
  = option_map (fun r => if sel r then f r else r) (find p l).
Proof.
  intros Hp. induction l as [|a l IH]; simpl; [reflexivity|].
  assert (E : p (if sel a then f a else a) = p a) by (destruct (sel a); auto).
  rewrite E. destruct (p a); simpl; auto.
Qed.

Lemma single_some (rows : list A) x : single rows = Some x -> rows = [x].
Proof.
  destruct rows as [|a [|b r]]; simpl; intros H; try discriminate.
  now inversion H.
Qed.

Lemma filter_singleton_in p l x : filter p l = [x] -> In x l /\ p x = true.
Proof.
  intros H. apply filter_In. rewrite H. now left.
Qed.

End QueryFacts.

Lemma latest_in (rows : list Ticket.t) (t : Ticket.t) :
  latest rows = Some t -> In t rows.
Proof.
  revert t. induction rows as [|a r IH]; simpl; intros t H; [discriminate|].
  destruct (latest r) as [t'|].
  - destruct (Ticket.updated_at a <? Ticket.updated_at t')%Z.
    + right. apply IH. exact H.
    + left. now inversion H.
  - left. now inversion H.
Qed.

Lemma latest_newest (rows : list Ticket.t) (t : Ticket.t) :
  latest rows = Some t ->
  forall t', In t' rows -> (Ticket.updated_at t' <= Ticket.updated_at t)%Z.
Proof.
  revert t. induction rows as [|a r IH]; simpl; intros t H t' I; [contradiction|].
  destruct (latest r) as [m|] eqn:L.
  - specialize (IH m eq_refl).
    destruct (Ticket.updated_at a <? Ticket.updated_at m)%Z eqn:C.
    + inversion H; subst m. destruct I as [<-|I]; [|now apply IH].
      apply Z.ltb_lt in C. lia.
    + inversion H; subst a. apply Z.ltb_ge in C.
      destruct I as [<-|I]; [lia|]. specialize (IH _ I). lia.
  - inversion H; subst a. destruct I as [<-|I]; [lia|].
    destruct r; [contradiction | simpl in L].
    destruct (latest r); [destruct (_ <? _)%Z|]; discriminate.
Qed.

Lemma latest_none (rows : list Ticket.t) : latest rows = None -> rows = [].
Proof.
  destruct rows as [|a r]; simpl; [reflexivity|].
  destruct (latest r); [destruct (_ <? _)%Z|]; discriminate.
Qed.

Lemma latest_singleton (t : Ticket.t) : latest [t] = Some t.
Proof. reflexivity. Qed.

(* ------------------------------------------------------------------ *)
(** ** Facts about the router *)
(* ------------------------------------------------------------------ *)

Lemma ticket_apply_id (u : Ticket.patch) (r : Ticket.t) :
  Ticket.id (Ticket.apply u r) = Ticket.id r.
Proof. reflexivity. Qed.

Lemma follow_up_keeps_owner now existing autoTags (r : Ticket.t) :
  Ticket.customer_id (Ticket.apply (follow_up_patch now existing autoTags) r)
  = Ticket.customer_id r.
Proof. reflexivity. Qed.

Lemma route_cases s now rnd f fullName message autoTags customerId :
  Routed s now rnd f fullName message autoTags customerId
    (route s now rnd f fullName message autoTags customerId).
Proof.
  unfold route.
  destruct (findOpenTicketForCustomer s customerId) as [t|] eqn:Eo.
  - now constructor.
  - destruct (findRecentClosed s customerId) as [t|] eqn:Ec.
    + destruct (wasRecentlyClosed now (Some t)) eqn:W.
      * apply RoutedReopened; auto. simpl in W. now apply Z.ltb_lt.
      * apply RoutedCreated; auto. now rewrite Ec.
    + apply RoutedCreated; auto. now rewrite Ec.
Qed.

Lemma tickets_thread_onto t s now f fullName message autoTags :
  tickets (thread_onto t s now f fullName message autoTags)
  = update_where (fun r => Ticket.id r =? Ticket.id t)
      (Ticket.apply (follow_up_patch now (Ticket.ai_tags t) autoTags)) (tickets s).
Proof. reflexivity. Qed.

Lemma tickets_reopen t s now f fullName message autoTags :
  tickets (reopen t s now f fullName message autoTags)
  = update_where (fun r => Ticket.id r =? Ticket.id t)
      (Ticket.apply (follow_up_patch now (Ticket.ai_tags t) autoTags)) (tickets s).
Proof. reflexivity. Qed.

Lemma tickets_create_ticket s now rnd f fullName message autoTags customerId :
  tickets (fst (create_ticket s now rnd f fullName message autoTags customerId))
  = tickets s
    ++ [new_ticket now (generateTicketId rnd) customerId f message fullName autoTags
          (next_ticket_id s)].
Proof. reflexivity. Qed.

Lemma customers_route s now rnd f fullName message autoTags customerId :
  customers (fst (fst (route s now rnd f fullName message autoTags customerId))) = customers s
  /\ next_customer_id (fst (fst (route s now rnd f fullName message autoTags customerId)))
     = next_customer_id s.
Proof.
  destruct (route_cases s now rnd f fullName message autoTags customerId); auto.
Qed.

Lemma resolve_write_tickets d s now email phone fullName :
  tickets (fst (resolve_write d s now email phone fullName)) = tickets s
  /\ messages (fst (resolve_write d s now email phone fullName)) = messages s
  /\ next_ticket_id (fst (resolve_write d s now email phone fullName)) = next_ticket_id s.
Proof.
  destruct d; simpl; auto;
    unfold insert_customer;
    match goal with |- context [if ?b then _ else _] => destruct b end; simpl; auto.
Qed.

Lemma contact_form_interleaved_ok s_read s now rnd f autoTags :
  form_ok f = true ->
  form_tags f = inr autoTags ->
  contact_form_interleaved s_read s now rnd f =
  match resolve_write
          (resolve_read s_read (or_empty (Form.email f)) (Form.phone f) (form_fullName f))
          s now (or_empty (Form.email f)) (Form.phone f) (form_fullName f) with
  | (s1, inl e) => (s1, ServerError "Failed to process submission" (error_message e))
  | (s1, inr r) =>
      let '(s2, ticketId, openTicket) :=
        route s1 now rnd f (form_fullName f) (or_empty (Form.message f)) autoTags
          (Customer.id (customer r)) in
      (s2, Accepted ticketId (action_of openTicket) (matchType r)
             (option_map duplicate_of (possibleMatch r)))
  end.
Proof.
  unfold form_ok, form_tags, contact_form_interleaved. intros H T.
  apply andb_prop in H as [H H3]. apply andb_prop in H as [H1 H2].
  rewrite H1, H2, H3, T. reflexivity.
Qed.

Lemma contact_form_unclassified s_read s now rnd f e :
  form_ok f = true ->
  form_tags f = inl e ->
  contact_form_interleaved s_read s now rnd f
  = (s, ServerError "Failed to process submission" (error_message e)).
Proof.
  unfold form_ok, form_tags, contact_form_interleaved. intros H T.
  apply andb_prop in H as [H H3]. apply andb_prop in H as [H1 H2].
  rewrite H1, H2, H3, T. reflexivity.
Qed.

Lemma contact_form_rejected s_read s now rnd f :
  form_ok f = false ->
  contact_form_interleaved s_read s now rnd f
  = (s, BadRequest "Missing required fields: first_name, email, message").
Proof.
  unfold form_ok, contact_form_interleaved. intros H.
  destruct (truthy_opt (Form.first_name f)), (truthy_opt (Form.email f)),
    (truthy_opt (Form.message f)); simpl in *; try discriminate; reflexivity.
Qed.

(* ------------------------------------------------------------------ *)
(** ** Facts about arrays used as sets *)
(* ------------------------------------------------------------------ *)

Lemma mem_In (x : string) (xs : list string) : mem x xs = true <-> In x xs.
Proof.
  unfold mem. rewrite existsb_exists. split.
  - intros (y & I & E). apply String.eqb_eq in E. now subst.
  - intros I. exists x. split; [exact I | apply String.eqb_refl].
Qed.

Lemma in_dedup_acc (seen xs : list string) (x : string) :
  In x (dedup_acc seen xs) <-> In x xs /\ ~ In x seen.
Proof.
  revert seen. induction xs as [|a r IH]; intros seen; simpl; [tauto|].
  destruct (existsb (String.eqb a) seen) eqn:E.
  - apply mem_In in E. rewrite IH. split.
    + intros [I N]. auto.
    + intros [[->|I] N]; [contradiction | auto].
  - assert (N : ~ In a seen).
    { intros I. apply mem_In in I. unfold mem in I. congruence. }
    simpl. rewrite IH. simpl. split.
    + intros [->|[I M]]; [auto|]. split; [auto|]. intros K. apply M. now right.
    + intros [[->|I] M]; [auto|].
      destruct (string_dec a x) as [->|D]; [auto|].
      right. split; [exact I|]. intros [K|K]; contradiction.
Qed.

Lemma in_dedup (xs : list string) (x : string) : In x (dedup xs) <-> In x xs.
Proof. unfold dedup. rewrite in_dedup_acc. simpl. tauto. Qed.

Lemma NoDup_dedup_acc (seen xs : list string) : NoDup (dedup_acc seen xs).
Proof.
  revert seen. induction xs as [|a r IH]; intros seen; simpl; [constructor|].
  destruct (existsb (String.eqb a) seen); [apply IH|].
  constructor; [|apply IH].
  rewrite in_dedup_acc. intros [_ N]. apply N. now left.
Qed.

Lemma NoDup_dedup (xs : list string) : NoDup (dedup xs).
Proof. apply NoDup_dedup_acc. Qed.

Lemma filter_andb {A : Type} (p q : A -> bool) (l : list A) :
  filter (fun x => p x && q x) l = filter q (filter p l).
Proof.
  induction l as [|a l IH]; simpl; [reflexivity|].
  destruct (p a); simpl; [destruct (q a)|]; now rewrite IH.
Qed.

Lemma is_done_not_active (t : Ticket.t) : is_done t = true -> is_active t = false.
Proof. unfold is_done, is_active. destruct (Ticket.status t); simpl; congruence. Qed.

Lemma owned_update_where (cid : Id) sel (f : Ticket.t -> Ticket.t) (ts : list Ticket.t) :
  (forall r, Ticket.customer_id (f r) = Ticket.customer_id r) ->
  List.length (filter (owned_by cid) (update_where sel f ts))
  = List.length (filter (owned_by cid) ts).
Proof.
  intros H. rewrite filter_update_where.
  - apply length_update_where.
  - intros r. unfold owned_by. now rewrite H.
Qed.

(* ------------------------------------------------------------------ *)
(** ** Priority of the tickets the webhook creates *)
(* ------------------------------------------------------------------ *)

Lemma contact_form_new_ticket s now rnd f t :
  In t (tickets (fst (contact_form s now rnd f))) ->
  ~ In (Ticket.id t) (map Ticket.id (tickets s)) ->
  exists customerId autoTags,
    form_tags f = inr autoTags
    /\ t = new_ticket now (generateTicketId rnd) customerId f
             (or_empty (Form.message f)) (form_fullName f) autoTags (next_ticket_id s).
Proof.
  unfold contact_form. intros I N.
  destruct (form_ok f) eqn:V.
  2:{ rewrite contact_form_rejected in I by exact V. simpl in I.
      exfalso. apply N. now apply in_map. }
  destruct (form_tags f) as [e|autoTags] eqn:T.
  { rewrite (contact_form_unclassified s s now rnd f e V T) in I. simpl in I.
      exfalso. apply N. now apply in_map. }
  rewrite (contact_form_interleaved_ok s s now rnd f autoTags V T) in I.
  set (d := resolve_read _ _ _ _) in I.
  destruct (resolve_write_tickets d s now (or_empty (Form.email f)) (Form.phone f)
              (form_fullName f)) as (Ht & _ & Hn).
  destruct (resolve_write d s now _ _ _) as [s1 [e|r]]; simpl in Ht, Hn.
  { simpl in I. rewrite Ht in I. exfalso. apply N. now apply in_map. }
  destruct (route_cases s1 now rnd f (form_fullName f) (or_empty (Form.message f))
              autoTags (Customer.id (customer r))) as [t0 Eo|t0 Eo Ec W|Eo W];
    simpl in I.
  - exfalso. apply N. rewrite <- Ht.
    erewrite <- map_update_where; [apply in_map, I|]. reflexivity.
  - exfalso. apply N. rewrite <- Ht.
    erewrite <- map_update_where; [apply in_map, I|]. reflexivity.
  - apply in_app_or in I as [I|[<-|[]]].
    + exfalso. apply N. rewrite <- Ht. now apply in_map.
    + rewrite Hn. eauto.
Qed.

(** C10: [determinePriority] returns urgent, high or medium, never low, and
    so every ticket the contact-form webhook adds to the store has a
    priority of at least medium. *)
Theorem C10_priority_at_least_medium :
  (forall purpose message,
      (determinePriority purpose message = Urgent
       \/ determinePriority purpose message = High
       \/ determinePriority purpose message = Medium)
      /\ determinePriority purpose message <> Low)
  /\ (forall s now rnd f t,
         In t (tickets (fst (contact_form s now rnd f))) ->
         ~ In (Ticket.id t) (map Ticket.id (tickets s)) ->
         Ticket.priority t <> Low
         /\ priority_rank Medium <= priority_rank (Ticket.priority t)).
Proof.
  assert (P : forall purpose message,
             (determinePriority purpose message = Urgent
              \/ determinePriority purpose message = High
              \/ determinePriority purpose message = Medium)
             /\ determinePriority purpose message <> Low).
  { intros purpose message. split; [apply determinePriority_cases|].
    destruct (determinePriority_cases purpose message) as [E|[E|E]];
      rewrite E; discriminate. }
  split; [exact P|].
  intros s now rnd f t I N.
  destruct (contact_form_new_ticket s now rnd f t I N) as (cid & autoTags & _ & ->).
  simpl.
  destruct (P (purpose_or "Other" (Form.purpose f)) (or_empty (Form.message f)))
    as [[E|[E|E]] D]; split; try exact D; rewrite E; simpl; lia.
Qed.

(** The first contact of a new customer on an empty store: the ticket it
    creates has priority high. *)
Lemma C10_priority_witness :
  Ticket.priority Sample.first_ticket <> Low
  /\ priority_rank Medium <= priority_rank (Ticket.priority Sample.first_ticket).
Proof.
  apply (proj2 C10_priority_at_least_medium
           (Sample.store [] []) Sample.now 234 Sample.alice_form Sample.first_ticket).
  - vm_compute. left. reflexivity.
  - simpl. intros [].
Defined.

(* ------------------------------------------------------------------ *)
(** ** Threading and reopening *)
(* ------------------------------------------------------------------ *)

Lemma route_threaded s now rnd f fullName message autoTags customerId t :
  findOpenTicketForCustomer s customerId = Some t ->
  route s now rnd f fullName message autoTags customerId
  = (thread_onto t s now f fullName message autoTags, Ticket.ticket_id t, Some t).
Proof. intros E. unfold route. rewrite E. reflexivity. Qed.

Lemma route_reopened s now rnd f fullName message autoTags customerId t :
  findOpenTicketForCustomer s customerId = None ->
  findRecentClosed s customerId = Some t ->
  (now - Ticket.updated_at t < reopen_window)%Z ->
  route s now rnd f fullName message autoTags customerId
  = (reopen t s now f fullName message autoTags, Ticket.ticket_id t, None).
Proof.
  intros Eo Ec W. unfold route. rewrite Eo, Ec. simpl.
  apply Z.ltb_lt in W. rewrite W. reflexivity.
Qed.

Lemma route_created s now rnd f fullName message autoTags customerId :
  findOpenTicketForCustomer s customerId = None ->
  wasRecentlyClosed now (findRecentClosed s customerId) = false ->
  route s now rnd f fullName message autoTags customerId
  = (create_ticket s now rnd f fullName message autoTags customerId, None).
Proof.
  intros Eo W. unfold route. rewrite Eo.
  destruct (findRecentClosed s customerId); [rewrite W|]; reflexivity.
Qed.

(** The store the resolver leaves keeps the tickets table. *)
Lemma find_open_after_resolve d s now email phone fullName cid :
  findOpenTicketForCustomer (fst (resolve_write d s now email phone fullName)) cid
  = findOpenTicketForCustomer s cid
  /\ findRecentClosed (fst (resolve_write d s now email phone fullName)) cid
     = findRecentClosed s cid.
Proof.
  unfold findOpenTicketForCustomer, findRecentClosed.
  destruct (resolve_write_tickets d s now email phone fullName) as (-> & _). auto.
Qed.

(** C9: when the contact resolves to a customer who has an open or pending
    ticket, the webhook picks the most recently updated of them, appends the
    message to it (one row, on that ticket, from the customer, under the
    form's name and carrying the form's message, marked as threaded), sets
    its tags to the union of its tags and the new ones, sets its status to
    open, answers [action = "threaded"], and creates no ticket: the customer
    owns as many tickets as before (one, if one). *)
Theorem C9_threading s now rnd f autoTags r :
  form_ok f = true ->
  form_tags f = inr autoTags ->
  snd (findOrCreateCustomer s now (or_empty (Form.email f)) (Form.phone f) (form_fullName f))
  = inr r ->
  (exists t0, In t0 (tickets s)
              /\ Ticket.customer_id t0 = Customer.id (customer r)
              /\ is_active t0 = true) ->
  exists t,
    In t (tickets s)
    /\ Ticket.customer_id t = Customer.id (customer r)
    /\ is_active t = true
    /\ (forall t', In t' (tickets s) ->
                   Ticket.customer_id t' = Customer.id (customer r) ->
                   is_active t' = true ->
                   (Ticket.updated_at t' <= Ticket.updated_at t)%Z)
    /\ snd (contact_form s now rnd f)
       = Accepted (Ticket.ticket_id t) "threaded" (matchType r)
           (option_map duplicate_of (possibleMatch r))
    /\ messages (fst (contact_form s now rnd f))
       = messages s
         ++ [customer_message f now (form_fullName f) (or_empty (Form.message f))
               Message.Threaded (Ticket.id t)]
    /\ (exists m first meta,
          messages (fst (contact_form s now rnd f)) = messages s ++ [m]
          /\ Message.ticket_id m = Ticket.id t
          /\ Message.sender_type m = FromCustomer
          /\ Form.first_name f = Some first
          /\ Message.sender_name m
             = trim (first ++ " "
                     ++ match Form.last_name f with
                        | Some last => last
                        | None => ""
                        end)%string
          /\ Form.message f = Some (Message.content m)
          /\ Message.meta m = Some meta
          /\ Message.flag meta = Message.Threaded
          /\ Message.purpose meta = Form.purpose f
          /\ Message.phone meta = Form.phone f)
    /\ (exists t_new,
          In t_new (tickets (fst (contact_form s now rnd f)))
          /\ Ticket.id t_new = Ticket.id t
          /\ Ticket.ticket_id t_new = Ticket.ticket_id t
          /\ Ticket.status t_new = Open
          /\ NoDup (Ticket.ai_tags t_new)
          /\ forall x, In x (Ticket.ai_tags t_new) <->
                       In x (Ticket.ai_tags t) \/ In x autoTags)
    /\ map Ticket.id (tickets (fst (contact_form s now rnd f))) = map Ticket.id (tickets s)
    /\ List.length (tickets (fst (contact_form s now rnd f))) = List.length (tickets s)
    /\ owned (fst (contact_form s now rnd f)) (Customer.id (customer r))
       = owned s (Customer.id (customer r))
    /\ (owned s (Customer.id (customer r)) = 1 ->
        owned (fst (contact_form s now rnd f)) (Customer.id (customer r)) = 1).
Proof.
  intros V T R (t0 & I0 & O0 & A0).
  set (cid := Customer.id (customer r)) in *.
  unfold findOrCreateCustomer in R.
  unfold contact_form. rewrite (contact_form_interleaved_ok s s now rnd f autoTags V T).
  set (d := resolve_read s _ _ _) in *.
  destruct (resolve_write_tickets d s now (or_empty (Form.email f)) (Form.phone f)
              (form_fullName f)) as (Ht & Hm & _).
  destruct (find_open_after_resolve d s now (or_empty (Form.email f)) (Form.phone f)
              (form_fullName f) cid) as (Ho & _).
  destruct (resolve_write d s now _ _ _) as [s1 res]. simpl in R, Ht, Hm, Ho. subst res.
  destruct (findOpenTicketForCustomer s cid) as [t|] eqn:E.
  2:{ unfold findOpenTicketForCustomer in E. apply latest_none in E.
      assert (K : In t0 (filter (fun t => owned_by cid t && is_active t) (tickets s))).
      { apply filter_In. split; [exact I0|]. unfold owned_by. rewrite O0, A0.
        now rewrite Nat.eqb_refl. }
      rewrite E in K. contradiction. }
  fold cid. rewrite (route_threaded s1 now rnd f _ _ autoTags cid t Ho).
  pose proof E as E'. unfold findOpenTicketForCustomer in E'.
  pose proof (latest_in _ _ E') as K. apply filter_In in K as (It & Pt).
  apply andb_prop in Pt as (Ot & At). unfold owned_by in Ot. apply Nat.eqb_eq in Ot.
  exists t. cbn [fst snd].
  assert (Hup : forall tags r0,
             Ticket.customer_id (Ticket.apply (follow_up_patch now (Ticket.ai_tags t) tags) r0)
             = Ticket.customer_id r0) by reflexivity.
  repeat split.
  - exact It.
  - exact Ot.
  - exact At.
  - intros t' I' O' A'. apply (latest_newest _ _ E').
    apply filter_In. split; [exact I'|]. unfold owned_by. rewrite O', A'.
    now rewrite Nat.eqb_refl.
  - simpl. now rewrite Hm.
  - unfold form_ok in V. apply andb_prop in V as (V & Vm). apply andb_prop in V as (Vf & _).
    destruct (Form.first_name f) as [first|] eqn:Ef; [|discriminate].
    destruct (Form.message f) as [msg|] eqn:Em; [|discriminate].
    exists (customer_message f now (form_fullName f) msg Message.Threaded (Ticket.id t)),
      first.
    eexists. simpl. rewrite Hm.
    repeat split.
    unfold form_fullName, fullName_of. rewrite Ef. simpl.
    destruct (Form.last_name f) as [[|? ?]|]; reflexivity.
  - exists (Ticket.apply (follow_up_patch now (Ticket.ai_tags t) autoTags) t).
    split; [|repeat split].
    + rewrite tickets_thread_onto, Ht. apply in_update_where.
      exists t. split; [exact It|]. now rewrite Nat.eqb_refl.
    + simpl. apply NoDup_dedup.
    + simpl. rewrite in_dedup. apply in_app_or.
    + simpl. rewrite in_dedup. apply in_or_app.
  - rewrite tickets_thread_onto, Ht. now apply map_update_where.
  - rewrite tickets_thread_onto, Ht. apply length_update_where.
  - unfold owned. rewrite tickets_thread_onto, Ht. now apply owned_update_where.
  - intros <-. unfold owned. rewrite tickets_thread_onto, Ht.
    now apply owned_update_where.
Qed.

(** Alice has one open ticket and writes again. *)
Lemma C9_threading_witness :
  snd (contact_form (Sample.store [Sample.alice] [Sample.ticket 1 1 Open 5])
         Sample.now 234 Sample.alice_form)
  = Accepted "TIX-1001" "threaded" "email" None
  /\ owned (fst (contact_form (Sample.store [Sample.alice] [Sample.ticket 1 1 Open 5])
                   Sample.now 234 Sample.alice_form)) 1 = 1
  /\ map (fun m => (Message.ticket_id m, Message.sender_type m, Message.sender_name m,
                    Message.content m))
       (messages (fst (contact_form (Sample.store [Sample.alice] [Sample.ticket 1 1 Open 5])
                         Sample.now 234 Sample.alice_form)))
     = [(1, FromCustomer, "Alice Johnson", "Any news on the tracking number?")].
Proof.
  destruct (C9_threading (Sample.store [Sample.alice] [Sample.ticket 1 1 Open 5])
              Sample.now 234 Sample.alice_form ["Shipping issue"; "Tracking question"]
              (mkResolved Sample.alice "email" None false))
    as (t & It & _ & _ & _ & Hr & _ & (m & first & meta & Hm & Mt & Ms & Ef & Mn & Mc & _)
        & _ & _ & _ & _ & H1).
  - reflexivity.
  - reflexivity.
  - vm_compute. reflexivity.
  - exists (Sample.ticket 1 1 Open 5). vm_compute. auto.
  - destruct It as [<-|[]]. split; [exact Hr|]. split; [apply H1; reflexivity|].
    rewrite Hm. simpl. rewrite Mt, Ms, Mn.
    simpl in Ef, Mc. injection Ef as <-. injection Mc as Mc'. rewrite <- Mc'.
    reflexivity.
Defined.

(** Two follow-ups in a row on a pending ticket: still one ticket, open,
    carrying the tags of both events. *)
Example two_follow_ups :
  let s := run_all (Sample.store [Sample.alice] [Sample.ticket 1 1 Pending 5])
             [Contact Sample.now 234 Sample.alice_form;
              Contact (Sample.now + 1)%Z 77
                (Sample.form "Alice" "Johnson" "alice@example.com" None
                   "Please cancel it")] in
  map (fun t => (Ticket.status t, Ticket.ai_tags t)) (tickets s)
  = [(Open, ["Billing inquiry"; "Shipping issue"; "Tracking question";
             "Subscription issue"])]
  /\ List.length (messages s) = 2.
Proof. vm_compute. split; reflexivity. Qed.

Lemma sole_ticket_queries s cid t :
  filter (owned_by cid) (tickets s) = [t] ->
  is_done t = true ->
  findOpenTicketForCustomer s cid = None /\ findRecentClosed s cid = Some t.
Proof.
  intros F D. unfold findOpenTicketForCustomer, findRecentClosed.
  rewrite !filter_andb, F. simpl.
  rewrite (is_done_not_active t D), D. split; reflexivity.
Qed.

(** C2, on the code: for a customer whose only ticket is resolved or closed
    and was updated less than 24 hours before the event, the webhook does
    reopen that ticket (message and system note appended, status open, no
    new ticket), but the response says [action = "created"], not
    ["reopened"].  At 24 hours or more a new ticket is created and the
    response says ["created"]. *)
Theorem C2_reopen_reports_created s now rnd f autoTags r t :
  form_ok f = true ->
  form_tags f = inr autoTags ->
  snd (findOrCreateCustomer s now (or_empty (Form.email f)) (Form.phone f) (form_fullName f))
  = inr r ->
  filter (owned_by (Customer.id (customer r))) (tickets s) = [t] ->
  is_done t = true ->
  ((now - Ticket.updated_at t < reopen_window)%Z ->
   snd (contact_form s now rnd f)
   = Accepted (Ticket.ticket_id t) "created" (matchType r)
       (option_map duplicate_of (possibleMatch r))
   /\ messages (fst (contact_form s now rnd f))
      = messages s
        ++ [customer_message f now (form_fullName f) (or_empty (Form.message f))
              Message.Reopened (Ticket.id t);
            plain_message FromSystem "System"
              "Ticket reopened - customer sent a follow-up message." (Ticket.id t)]
   /\ (exists t_new,
         In t_new (tickets (fst (contact_form s now rnd f)))
         /\ Ticket.id t_new = Ticket.id t
         /\ Ticket.status t_new = Open)
   /\ map Ticket.id (tickets (fst (contact_form s now rnd f))) = map Ticket.id (tickets s))
  /\ ((reopen_window <= now - Ticket.updated_at t)%Z ->
      snd (contact_form s now rnd f)
      = Accepted (generateTicketId rnd) "created" (matchType r)
          (option_map duplicate_of (possibleMatch r))
      /\ tickets (fst (contact_form s now rnd f))
         = tickets s
           ++ [new_ticket now (generateTicketId rnd) (Customer.id (customer r)) f
                 (or_empty (Form.message f)) (form_fullName f) autoTags
                 (next_ticket_id s)]).
Proof.
  intros V T R F D.
  set (cid := Customer.id (customer r)) in *.
  unfold findOrCreateCustomer in R.
  unfold contact_form. rewrite (contact_form_interleaved_ok s s now rnd f autoTags V T).
  set (d := resolve_read s _ _ _) in *.
  destruct (resolve_write_tickets d s now (or_empty (Form.email f)) (Form.phone f)
              (form_fullName f)) as (Ht & Hm & Hn).
  destruct (find_open_after_resolve d s now (or_empty (Form.email f)) (Form.phone f)
              (form_fullName f) cid) as (Ho & Hc).
  destruct (resolve_write d s now _ _ _) as [s1 res].
  simpl in R, Ht, Hm, Hn, Ho, Hc. subst res.
  destruct (sole_ticket_queries s cid t F D) as (Eo & Ec).
  rewrite Eo in Ho. rewrite Ec in Hc.
  assert (It : In t (tickets s)).
  { assert (K : In t (filter (owned_by cid) (tickets s))) by (rewrite F; now left).
    now apply filter_In in K. }
  fold cid. split; intros W.
  - rewrite (route_reopened s1 now rnd f _ _ autoTags cid t Ho Hc W). cbn [fst snd].
    repeat split.
    + simpl. now rewrite Hm, <- app_assoc.
    + exists (Ticket.apply (follow_up_patch now (Ticket.ai_tags t) autoTags) t).
      split; [|split; reflexivity].
      rewrite tickets_reopen, Ht. apply in_update_where.
      exists t. split; [exact It|]. now rewrite Nat.eqb_refl.
    + rewrite tickets_reopen, Ht. now apply map_update_where.
  - rewrite (route_created s1 now rnd f _ _ autoTags cid Ho).
    2:{ rewrite Hc. simpl. apply Z.ltb_ge. exact W. }
    pose proof (tickets_create_ticket s1 now rnd f (form_fullName f)
                  (or_empty (Form.message f)) autoTags cid) as Tc.
    assert (Ti : snd (create_ticket s1 now rnd f (form_fullName f)
                        (or_empty (Form.message f)) autoTags cid) = generateTicketId rnd)
      by reflexivity.
    destruct (create_ticket s1 now rnd f _ _ autoTags cid) as [s3 tid].
    cbn [fst snd] in *. subst tid. split; [reflexivity|].
    rewrite Tc, Ht, Hn. reflexivity.
Qed.

(** Alice's only ticket was resolved 23 hours ago: the ticket is reopened
    and the response says "created". *)
Lemma C2_reopen_witness :
  snd (contact_form (Sample.store [Sample.alice] [Sample.ticket 1 1 Resolved 23])
         Sample.now 234 Sample.alice_form)
  = Accepted "TIX-1001" "created" "email" None
  /\ map (fun t => (Ticket.id t, Ticket.status t))
       (tickets (fst (contact_form (Sample.store [Sample.alice] [Sample.ticket 1 1 Resolved 23])
                        Sample.now 234 Sample.alice_form)))
     = [(1, Open)].
Proof.
  destruct (C2_reopen_reports_created
              (Sample.store [Sample.alice] [Sample.ticket 1 1 Resolved 23])
              Sample.now 234 Sample.alice_form ["Shipping issue"; "Tracking question"]
              (mkResolved Sample.alice "email" None false)
              (Sample.ticket 1 1 Resolved 23)) as (H & _).
  - reflexivity.
  - reflexivity.
  - vm_compute. reflexivity.
  - reflexivity.
  - reflexivity.
  - destruct H as (Hr & _); [vm_compute; reflexivity|].
    split; [exact Hr | vm_compute; reflexivity].
Defined.

(** The same ticket resolved 25 hours ago: a second ticket is created. *)
Example stale_ticket_creates :
  snd (contact_form (Sample.store [Sample.alice] [Sample.ticket 1 1 Resolved 25])
         Sample.now 234 Sample.alice_form)
  = Accepted "TIX-1234" "created" "email" None
  /\ map (fun t => (Ticket.id t, Ticket.status t))
       (tickets (fst (contact_form (Sample.store [Sample.alice] [Sample.ticket 1 1 Resolved 25])
                        Sample.now 234 Sample.alice_form)))
     = [(1, Resolved); (10, Open)].
Proof. vm_compute. split; reflexivity. Qed.

(* ------------------------------------------------------------------ *)
(** ** The resolver: email tier *)
(* ------------------------------------------------------------------ *)

Lemma customer_apply_id (u : Customer.patch) (r : Customer.t) :
  Customer.id (Customer.apply u r) = Customer.id r.
Proof. reflexivity. Qed.

Lemma customer_apply_email (u : Customer.patch) (r : Customer.t) :
  Customer.email (Customer.apply u r) = Customer.email r.
Proof. reflexivity. Qed.

Lemma filter_nil_iff {A : Type} (p : A -> bool) (l : list A) :
  (forall x, In x l -> p x = false) -> filter p l = [].
Proof.
  induction l as [|a l IH]; simpl; intros H; [reflexivity|].
  rewrite (H a (or_introl eq_refl)). apply IH. intros x I. apply H. now right.
Qed.

Lemma truthy_nonempty (x : string) : truthy x = true <-> x <> "".
Proof.
  unfold truthy. destruct (String.eqb_spec x ""); simpl; split; congruence.
Qed.

(** C7 (amended): if customer [C] is the one whose primary email is [E]
    (stored lower-cased, as every insert stores it) and the contact's email
    equals [E] up to letter case, the resolver returns [C] with match type
    "email", adds exactly one to [C]'s ticket count, replaces [C]'s name by
    the incoming name when that name is non-empty and differs, fills [C]'s
    phone only when it was absent, and adds no customer row. *)
Theorem C7_email_match s now email phone fullName E C :
  toLowerCase E = E ->
  toLowerCase email = toLowerCase E ->
  filter (fun c => (Customer.email c =? E)%string) (customers s) = [C] ->
  snd (findOrCreateCustomer s now email phone fullName)
  = inr (mkResolved C "email" None false)
  /\ List.length (customers (fst (findOrCreateCustomer s now email phone fullName)))
     = List.length (customers s)
  /\ map Customer.id (customers (fst (findOrCreateCustomer s now email phone fullName)))
     = map Customer.id (customers s)
  /\ map Customer.email (customers (fst (findOrCreateCustomer s now email phone fullName)))
     = map Customer.email (customers s)
  /\ (forall c, In c (customers s) -> Customer.id c <> Customer.id C ->
                In c (customers (fst (findOrCreateCustomer s now email phone fullName))))
  /\ exists C',
      In C' (customers (fst (findOrCreateCustomer s now email phone fullName)))
      /\ Customer.id C' = Customer.id C
      /\ Customer.email C' = E
      /\ Customer.ticket_count C' = Customer.ticket_count C + 1
      /\ (fullName <> "" -> fullName <> Customer.name C -> Customer.name C' = fullName)
      /\ (fullName = "" \/ fullName = Customer.name C -> Customer.name C' = Customer.name C)
      /\ (truthy_opt phone = true -> truthy_opt (Customer.phone C) = false ->
          Customer.phone C' = phone)
      /\ (truthy_opt phone = false \/ truthy_opt (Customer.phone C) = true ->
          Customer.phone C' = Customer.phone C)
      /\ Customer.alt_emails C' = Customer.alt_emails C
      /\ Customer.tags C' = Customer.tags C
      /\ Customer.possible_duplicate_of C' = Customer.possible_duplicate_of C.
Proof.
  intros HE Hcase HC.
  assert (Rd : resolve_read s email phone fullName = ByEmail C).
  { unfold resolve_read, email_tier. rewrite Hcase, HE, HC. reflexivity. }
  unfold findOrCreateCustomer. rewrite Rd. simpl.
  destruct (filter_singleton_in _ _ _ HC) as (IC & EC). apply String.eqb_eq in EC.
  split; [reflexivity|].
  split; [apply length_update_where|].
  split; [now apply map_update_where|].
  split; [now apply map_update_where|].
  split.
  { intros c I D. apply in_update_where. exists c. split; [exact I|].
    apply Nat.eqb_neq in D. now rewrite D. }
  exists (Customer.apply (email_updates now phone fullName C) C).
  split.
  { apply in_update_where. exists C. split; [exact IC|]. now rewrite Nat.eqb_refl. }
  simpl. repeat split; try assumption.
  - intros N D. apply truthy_nonempty in N. rewrite N.
    destruct (String.eqb_spec fullName (Customer.name C)); [contradiction|reflexivity].
  - intros [->| ->]; [reflexivity|].
    rewrite String.eqb_refl, andb_false_r. reflexivity.
  - intros P A. rewrite P, A. reflexivity.
  - intros [P|A]; [rewrite P | rewrite A, andb_false_r]; reflexivity.
Qed.

(** Alice writes from her address in capitals, under a new name and with a
    phone number: she is matched by email, the name is replaced, the phone
    she already had stays. *)
Lemma C7_email_match_witness :
  snd (findOrCreateCustomer (Sample.store [Sample.alice; Sample.alicia] [])
         Sample.now "ALICE@Example.COM" (Some "555 000 1111") "Alice J. Smith")
  = inr (mkResolved Sample.alice "email" None false)
  /\ map (fun c => (Customer.name c, Customer.phone c, Customer.ticket_count c))
       (customers (fst (findOrCreateCustomer (Sample.store [Sample.alice; Sample.alicia] [])
                          Sample.now "ALICE@Example.COM" (Some "555 000 1111")
                          "Alice J. Smith")))
     = [("Alice J. Smith", Some "+1 (555) 123-4567", 2); ("Alicia Johnson", None, 1)].
Proof.
  split.
  - apply (C7_email_match (Sample.store [Sample.alice; Sample.alicia] []) Sample.now
             "ALICE@Example.COM" (Some "555 000 1111") "Alice J. Smith"
             "alice@example.com" Sample.alice); reflexivity.
  - vm_compute. reflexivity.
Defined.

(** C7, as stated, fails on the name: a form whose first name is a blank
    gives the empty incoming name, which differs from the stored name and is
    not written. *)
Lemma C7_empty_name_not_written :
  form_ok (Sample.form " " "" "alice@example.com" None "hello") = true
  /\ form_fullName (Sample.form " " "" "alice@example.com" None "hello") = ""
  /\ "" <> Customer.name Sample.alice
  /\ snd (findOrCreateCustomer (Sample.store [Sample.alice] []) Sample.now
            "alice@example.com" None "")
     = inr (mkResolved Sample.alice "email" None false)
  /\ ~ (exists C',
           In C' (customers (fst (findOrCreateCustomer (Sample.store [Sample.alice] [])
                                    Sample.now "alice@example.com" None "")))
           /\ Customer.name C' = "").
Proof.
  repeat split; try discriminate.
  intros (C' & [<-|[]] & N). discriminate N.
Qed.

(* ------------------------------------------------------------------ *)
(** ** The resolver: phone tier *)
(* ------------------------------------------------------------------ *)

Lemma email_tier_miss s email :
  (forall c, In c (customers s) -> Customer.email c <> toLowerCase email) ->
  email_tier s email = None.
Proof.
  intros H. unfold email_tier. rewrite filter_nil_iff; [reflexivity|].
  intros c I. apply String.eqb_neq. now apply H.
Qed.

Lemma clean_phone_nonempty (p : string) : 10 <= length (clean_phone p) -> truthy p = true.
Proof.
  intros H. apply truthy_nonempty. intros ->. simpl in H. lia.
Qed.

Lemma phone_tier_hit s p :
  10 <= length (clean_phone p) ->
  (exists c q, In c (customers s) /\ Customer.phone c = Some q
               /\ slice_last 10 (clean_phone q) = slice_last 10 (clean_phone p)) ->
  exists C q,
    phone_tier s (Some p) = Some C
    /\ find (phone_matches (slice_last 10 (clean_phone p))) (filter has_phone (customers s))
       = Some C
    /\ In C (customers s) /\ Customer.phone C = Some q
    /\ slice_last 10 (clean_phone q) = slice_last 10 (clean_phone p).
Proof.
  intros L (c & q & I & P & M).
  unfold phone_tier. rewrite (clean_phone_nonempty p L).
  apply Nat.leb_le in L. rewrite L.
  destruct (find _ (filter has_phone (customers s))) as [C|] eqn:F.
  - apply find_some in F as F'. destruct F' as (IC & MC).
    apply filter_In in IC as (IC & HC).
    unfold has_phone in HC. unfold phone_matches in MC.
    destruct (Customer.phone C) as [q'|] eqn:PC; [|discriminate].
    apply String.eqb_eq in MC. exists C, q'. auto.
  - exfalso. pose proof (find_none _ _ F c) as N.
    assert (K : In c (filter has_phone (customers s))).
    { apply filter_In. split; [exact I|]. unfold has_phone. now rewrite P. }
    specialize (N K). unfold phone_matches in N. rewrite P in N. simpl in N.
    rewrite M, String.eqb_refl in N. discriminate.
Qed.

Lemma mem_add_once e old : mem e (add_once e old) = true.
Proof.
  unfold add_once. destruct (mem e old) eqn:M; [exact M|].
  apply mem_In, in_or_app. right. now left.
Qed.

Lemma phone_updates_alt now email (C : Customer.t) :
  Customer.alt_emails (Customer.apply (phone_updates now email C) C)
  = Some (add_once (toLowerCase email) (or_nil (Customer.alt_emails C))).
Proof.
  unfold add_once. simpl. destruct (Customer.alt_emails C) as [alts|]; simpl.
  - destruct (mem (toLowerCase email) alts); reflexivity.
  - reflexivity.
Qed.

Lemma phone_updates_settled now email (C : Customer.t) alts :
  Customer.alt_emails C = Some alts ->
  mem (toLowerCase email) alts = true ->
  Customer.set_alt_emails (phone_updates now email C) = None.
Proof. intros A M. simpl. now rewrite A, M. Qed.

Lemma phone_updates_phone now email (C r : Customer.t) :
  Customer.phone (Customer.apply (phone_updates now email C) r) = Customer.phone r.
Proof. reflexivity. Qed.

Lemma add_once_spec e old :
  (forall x, In x (add_once e old) <-> In x old \/ x = e)
  /\ (NoDup old -> NoDup (add_once e old)).
Proof.
  unfold add_once. destruct (mem e old) eqn:M.
  - apply mem_In in M. split; [|auto].
    intros x. split; [auto|]. intros [I| ->]; assumption.
  - assert (N : ~ In e old) by (intros I; apply mem_In in I; congruence).
    split.
    + intros x. rewrite in_app_iff. simpl. split.
      * intros [I|[<-|[]]]; auto.
      * intros [I| ->]; auto.
    + intros D. apply NoDup_app; [exact D | repeat constructor; intros [] |].
      intros x I [<-|[]]. contradiction.
Qed.

(** C8: a contact whose email is nobody's primary email and whose phone has
    ten or more digits, the last ten of which are the last ten digits of an
    existing customer's phone, resolves to such a customer (the first in
    scan order) with match type "phone"; the lower-cased email is then in
    that customer's alternate emails, added only if it was not there, and
    resolving the same contact again returns the same customer and leaves
    every alternate-email set as it is. *)
Theorem C8_phone_match s now now' email p fullName :
  (forall c, In c (customers s) -> Customer.email c <> toLowerCase email) ->
  10 <= length (clean_phone p) ->
  (exists c q, In c (customers s) /\ Customer.phone c = Some q
               /\ slice_last 10 (clean_phone q) = slice_last 10 (clean_phone p)) ->
  exists C q C1 alts,
    In C (customers s)
    /\ Customer.phone C = Some q
    /\ slice_last 10 (clean_phone q) = slice_last 10 (clean_phone p)
    /\ snd (findOrCreateCustomer s now email (Some p) fullName)
       = inr (mkResolved C "phone" None false)
    /\ List.length (customers (fst (findOrCreateCustomer s now email (Some p) fullName)))
       = List.length (customers s)
    /\ In C1 (customers (fst (findOrCreateCustomer s now email (Some p) fullName)))
    /\ Customer.id C1 = Customer.id C
    /\ Customer.ticket_count C1 = Customer.ticket_count C + 1
    /\ Customer.alt_emails C1 = Some alts
    /\ alts = (if mem (toLowerCase email) (or_nil (Customer.alt_emails C))
               then or_nil (Customer.alt_emails C)
               else or_nil (Customer.alt_emails C) ++ [toLowerCase email])
    /\ (forall x, In x alts <->
                  In x (or_nil (Customer.alt_emails C)) \/ x = toLowerCase email)
    /\ (NoDup (or_nil (Customer.alt_emails C)) -> NoDup alts)
    /\ snd (findOrCreateCustomer
              (fst (findOrCreateCustomer s now email (Some p) fullName))
              now' email (Some p) fullName)
       = inr (mkResolved C1 "phone" None false)
    /\ map Customer.alt_emails
         (customers (fst (findOrCreateCustomer
                            (fst (findOrCreateCustomer s now email (Some p) fullName))
                            now' email (Some p) fullName)))
       = map Customer.alt_emails
           (customers (fst (findOrCreateCustomer s now email (Some p) fullName))).
Proof.
  intros Hno L Hex.
  destruct (phone_tier_hit s p L Hex) as (C & q & PT & F & IC & PC & MC).
  set (e := toLowerCase email) in *.
  set (old := or_nil (Customer.alt_emails C)).
  set (C1 := Customer.apply (phone_updates now email C) C).
  assert (Rd : resolve_read s email (Some p) fullName = ByPhone C).
  { unfold resolve_read. rewrite (email_tier_miss s email Hno), PT. reflexivity. }
  assert (S1 : findOrCreateCustomer s now email (Some p) fullName
               = (update_customer (Customer.id C) (phone_updates now email C) s,
                  inr (mkResolved C "phone" None false))).
  { unfold findOrCreateCustomer. rewrite Rd. reflexivity. }
  rewrite S1. cbn [fst snd].
  set (s1 := update_customer (Customer.id C) (phone_updates now email C) s).
  assert (I1 : In C1 (customers s1)).
  { apply in_update_where. exists C. split; [exact IC|]. now rewrite Nat.eqb_refl. }
  assert (A1 : Customer.alt_emails C1 = Some (add_once e old))
    by apply phone_updates_alt.
  (* the second resolution *)
  assert (Hno1 : forall c, In c (customers s1) -> Customer.email c <> e).
  { intros c I. apply in_update_where in I as (r & Ir & ->).
    destruct (Customer.id r =? Customer.id C); [rewrite customer_apply_email|];
      now apply Hno. }
  assert (PT1 : phone_tier s1 (Some p) = Some C1).
  { unfold phone_tier. rewrite (clean_phone_nonempty p L).
    apply Nat.leb_le in L. rewrite L.
    unfold s1, update_customer. cbn [customers with_customers].
    rewrite filter_update_where by (intros r; reflexivity).
    rewrite find_update_where by (intros r; reflexivity).
    rewrite F. simpl. now rewrite Nat.eqb_refl. }
  assert (Rd1 : resolve_read s1 email (Some p) fullName = ByPhone C1).
  { unfold resolve_read. rewrite (email_tier_miss s1 email Hno1), PT1. reflexivity. }
  assert (S2 : findOrCreateCustomer s1 now' email (Some p) fullName
               = (update_customer (Customer.id C1) (phone_updates now' email C1) s1,
                  inr (mkResolved C1 "phone" None false))).
  { unfold findOrCreateCustomer. rewrite Rd1. reflexivity. }
  rewrite S2. cbn [fst snd].
  exists C, q, C1, (add_once e old).
  repeat split; try assumption; try reflexivity.
  - apply length_update_where.
  - apply (proj1 (add_once_spec e old)).
  - apply (proj1 (add_once_spec e old)).
  - apply (proj2 (add_once_spec e old)).
  - cbn [customers update_customer with_customers].
    apply map_update_where. intros r.
    unfold Customer.apply at 1. cbn [Customer.alt_emails].
    now rewrite (phone_updates_settled now' email C1 _ A1 (mem_add_once e old)).
Qed.

(** Alice writes from another address, giving her phone without the
    country code, twice. *)
Lemma C8_phone_match_witness :
  snd (findOrCreateCustomer (Sample.store [Sample.alicia; Sample.alice] []) Sample.now
         "AJ@Work.com" (Some "555-123-4567") "A Johnson")
  = inr (mkResolved Sample.alice "phone" None false)
  /\ map Customer.alt_emails
       (customers
          (fst (findOrCreateCustomer
                  (fst (findOrCreateCustomer (Sample.store [Sample.alicia; Sample.alice] [])
                          Sample.now "AJ@Work.com" (Some "555-123-4567") "A Johnson"))
                  (Sample.now + 5)%Z "AJ@Work.com" (Some "555-123-4567") "A Johnson")))
     = [Some ["aj@example.com"]; Some ["aj@work.com"]].
Proof.
  destruct (C8_phone_match (Sample.store [Sample.alicia; Sample.alice] []) Sample.now
              (Sample.now + 5)%Z "AJ@Work.com" "555-123-4567" "A Johnson")
    as (C & q & C1 & alts & IC & PC & _ & R1 & _ & _ & _ & _ & _ & _ & _ & _ & _ & A2).
  - intros c [<-|[<-|[]]]; vm_compute; discriminate.
  - vm_compute. lia.
  - exists Sample.alice, "+1 (555) 123-4567". repeat split. right. now left.
  - split.
    + destruct IC as [<-|[<-|[]]]; [discriminate PC | exact R1].
    + rewrite A2. vm_compute. reflexivity.
Defined.

(* ------------------------------------------------------------------ *)
(** ** The resolver: a refused insert *)
(* ------------------------------------------------------------------ *)

Lemma insert_customer_conflict row_of s c :
  unique_email s = true ->
  In c (customers s) ->
  Customer.email c = Customer.email (row_of (next_customer_id s)) ->
  insert_customer row_of s = (s, inl ConflictError).
Proof.
  intros U I E. unfold insert_customer. rewrite U. simpl.
  assert (X : existsb
                (fun c0 => (Customer.email c0 =? Customer.email (row_of (next_customer_id s)))%string)
                (customers s) = true).
  { apply existsb_exists. exists c. split; [exact I|]. rewrite E. apply String.eqb_refl. }
  rewrite X. reflexivity.
Qed.

(** C4 (amended): when the reads of the resolver found no match by email or
    phone, and by the time of its insert the store, which enforces unique
    primary emails, holds a customer with the same lower-cased email, the
    insert is refused and [findOrCreateCustomer] throws: nothing is retried,
    no customer is returned, the store stays as it was, and the webhook
    answers 500. *)
Theorem C4_conflict_is_thrown s_read s now rnd f autoTags c :
  form_ok f = true ->
  form_tags f = inr autoTags ->
  email_tier s_read (or_empty (Form.email f)) = None ->
  phone_tier s_read (Form.phone f) = None ->
  unique_email s = true ->
  In c (customers s) ->
  Customer.email c = toLowerCase (or_empty (Form.email f)) ->
  resolve_write
    (resolve_read s_read (or_empty (Form.email f)) (Form.phone f) (form_fullName f))
    s now (or_empty (Form.email f)) (Form.phone f) (form_fullName f)
  = (s, inl ConflictError)
  /\ contact_form_interleaved s_read s now rnd f
     = (s, ServerError "Failed to process submission" (error_message ConflictError))
  /\ http_status (snd (contact_form_interleaved s_read s now rnd f)) = 500.
Proof.
  intros V T E P U I Ec.
  assert (W : resolve_write
                (resolve_read s_read (or_empty (Form.email f)) (Form.phone f) (form_fullName f))
                s now (or_empty (Form.email f)) (Form.phone f) (form_fullName f)
              = (s, inl ConflictError)).
  { unfold resolve_read. rewrite E, P.
    destruct (name_tier s_read (form_fullName f)); simpl;
      erewrite (insert_customer_conflict _ s c U I); reflexivity || exact Ec. }
  rewrite (contact_form_interleaved_ok s_read s now rnd f autoTags V T). rewrite W. auto.
Qed.

(** Two events with one email, both resolved against the empty store; the
    second writes after the first has finished. *)
Lemma C4_conflict_witness :
  contact_form_interleaved (Sample.store [] [])
    (fst (contact_form (Sample.store [] []) Sample.now 234 Sample.alice_form))
    Sample.now 77 (Sample.form "Alice" "Johnson" "alice@example.com" None "Me again")
  = (fst (contact_form (Sample.store [] []) Sample.now 234 Sample.alice_form),
     ServerError "Failed to process submission" (error_message ConflictError)).
Proof.
  apply (C4_conflict_is_thrown (Sample.store [] [])
           (fst (contact_form (Sample.store [] []) Sample.now 234 Sample.alice_form))
           Sample.now 77 (Sample.form "Alice" "Johnson" "alice@example.com" None "Me again")
           ["Shipping issue"]
           (new_customer Sample.now "Alice@Example.com" None "Alice Johnson" None 10)).
  - reflexivity.
  - reflexivity.
  - reflexivity.
  - reflexivity.
  - reflexivity.
  - vm_compute. left. reflexivity.
  - reflexivity.
Defined.

(** C4, as stated, fails: in that race the second event is not answered
    from the exact-email branch; the violation reaches the caller as a 500
    and no customer is returned. *)
Lemma C4_conflict_reaches_caller :
  let s0 := Sample.store [] [] in
  let s1 := fst (contact_form s0 Sample.now 234 Sample.alice_form) in
  let second := Sample.form "Alice" "Johnson" "alice@example.com" None "Me again" in
  snd (findOrCreateCustomer s0 Sample.now "alice@example.com" None "Alice Johnson")
  = inr (mkResolved (new_customer Sample.now "alice@example.com" None "Alice Johnson" None 10)
           "new" None true)
  /\ snd (resolve_write (resolve_read s0 "alice@example.com" None "Alice Johnson")
            s1 Sample.now "alice@example.com" None "Alice Johnson")
     = inl ConflictError
  /\ http_status (snd (contact_form_interleaved s0 s1 Sample.now 77 second)) = 500
  /\ ~ (exists ticketId action duplicate,
           snd (contact_form_interleaved s0 s1 Sample.now 77 second)
           = Accepted ticketId action "email" duplicate).
Proof.
  repeat split.
  intros (ticketId & action & duplicate & H). vm_compute in H. discriminate H.
Qed.

(** Without the constraint the same race leaves two customers with one
    primary email. *)
Example race_without_constraint :
  let s0 := empty_store false in
  let s1 := fst (contact_form s0 Sample.now 234 Sample.alice_form) in
  let second := Sample.form "Alice" "Johnson" "alice@example.com" None "Me again" in
  map Customer.email (customers (fst (contact_form_interleaved s0 s1 Sample.now 77 second)))
  = ["alice@example.com"; "alice@example.com"].
Proof. vm_compute. reflexivity. Qed.

(* ------------------------------------------------------------------ *)
(** ** Merge *)
(* ------------------------------------------------------------------ *)

Lemma filter_delete_where {A : Type} (p q : A -> bool) (l : list A) :
  (forall x, p x = true -> q x = false) ->
  filter p (delete_where q l) = filter p l.
Proof.
  intros H. unfold delete_where. induction l as [|a l IH]; simpl; [reflexivity|].
  destruct (q a) eqn:Q; simpl.
  - destruct (p a) eqn:P; [|exact IH]. rewrite (H a P) in Q. discriminate.
  - destruct (p a); now rewrite IH.
Qed.

Lemma filter_delete_same {A : Type} (p : A -> bool) (l : list A) :
  filter p (delete_where p l) = [].
Proof.
  apply filter_nil_iff. intros x I. unfold delete_where in I.
  apply filter_In in I as (_ & N). now apply negb_true_iff in N.
Qed.

Lemma length_filter_cons {A : Type} (p : A -> bool) (a : A) (l : list A) :
  List.length (filter p (a :: l))
  = (if p a then 1 else 0) + List.length (filter p l).
Proof. simpl. destruct (p a); reflexivity. Qed.

Lemma owned_after_move (pid sid cid : Id) (ts : list Ticket.t) :
  pid <> sid ->
  List.length (filter (owned_by cid)
                 (update_where (owned_by sid) (Ticket.apply (move_patch pid)) ts))
  = if cid =? sid then 0
    else if cid =? pid
         then List.length (filter (owned_by pid) ts) + List.length (filter (owned_by sid) ts)
         else List.length (filter (owned_by cid) ts).
Proof.
  intros D. induction ts as [|a ts IH].
  - simpl. destruct (cid =? sid), (cid =? pid); reflexivity.
  - change (update_where (owned_by sid) (Ticket.apply (move_patch pid)) (a :: ts))
      with ((if owned_by sid a then Ticket.apply (move_patch pid) a else a)
              :: update_where (owned_by sid) (Ticket.apply (move_patch pid)) ts).
    rewrite !length_filter_cons, IH. unfold owned_by.
    destruct (Nat.eqb_spec (Ticket.customer_id a) sid); simpl;
      repeat match goal with
             | |- context [Nat.eqb ?x ?y] => destruct (Nat.eqb_spec x y)
             end; subst; try lia; try congruence.
Qed.

Lemma find_customer_in s cid c :
  find_customer s cid = Some c -> In c (customers s) /\ Customer.id c = cid.
Proof.
  unfold find_customer. intros H. apply single_some in H.
  apply filter_singleton_in in H as (I & E). apply Nat.eqb_eq in E. auto.
Qed.

Lemma merge_found s now pid sid primary secondary :
  pid <> sid ->
  find_customer s pid = Some primary ->
  find_customer s sid = Some secondary ->
  merge s now (Some pid) (Some sid)
  = (delete_customer sid
       (clear_references sid
          (update_customer pid (merge_updates now primary secondary)
             (move_tickets pid sid s))),
     Merged (duplicate_of primary) (duplicate_of secondary)
       (Customer.ticket_count secondary)).
Proof.
  intros D P S. unfold merge, merge_with.
  apply Nat.eqb_neq in D. rewrite D, P, S. reflexivity.
Qed.

Lemma in_remove_string (x y : string) (xs : list string) :
  In y (remove_string x xs) <-> In y xs /\ y <> x.
Proof.
  unfold remove_string. rewrite filter_In. split.
  - intros (I & N). split; [exact I|]. apply negb_true_iff in N.
    now apply String.eqb_neq.
  - intros (I & N). split; [exact I|]. apply negb_true_iff. now apply String.eqb_neq.
Qed.

Lemma NoDup_remove_string (x : string) (xs : list string) :
  NoDup xs -> NoDup (remove_string x xs).
Proof. apply NoDup_filter. Qed.

(** C6: merging [secondary] into [primary], two distinct existing customers,
    hands every ticket of the secondary to the primary; the primary's tags
    become the union of both tag sets, its alternate emails the union of
    both sets and the secondary's primary email without the primary's own
    email, its phone its own or else the secondary's, its order count and
    lifetime value the maximum of the two, its ticket count the sum; the
    secondary row is deleted and no customer is left pointing at it. *)
Theorem C6_merge_effects s now pid sid primary secondary :
  pid <> sid ->
  find_customer s pid = Some primary ->
  find_customer s sid = Some secondary ->
  snd (merge s now (Some pid) (Some sid))
  = Merged (mkDuplicate pid (Customer.name primary) (Customer.email primary))
      (mkDuplicate sid (Customer.name secondary) (Customer.email secondary))
      (Customer.ticket_count secondary)
  (* tickets *)
  /\ (forall t, In t (tickets (fst (merge s now (Some pid) (Some sid)))) ->
                Ticket.customer_id t <> sid)
  /\ (forall t, In t (tickets s) -> Ticket.customer_id t = sid ->
                exists t', In t' (tickets (fst (merge s now (Some pid) (Some sid))))
                           /\ Ticket.id t' = Ticket.id t
                           /\ Ticket.ticket_id t' = Ticket.ticket_id t
                           /\ Ticket.customer_id t' = pid)
  /\ (forall t, In t (tickets s) -> Ticket.customer_id t <> sid ->
                In t (tickets (fst (merge s now (Some pid) (Some sid)))))
  /\ map Ticket.id (tickets (fst (merge s now (Some pid) (Some sid))))
     = map Ticket.id (tickets s)
  /\ owned (fst (merge s now (Some pid) (Some sid))) pid = owned s pid + owned s sid
  /\ owned (fst (merge s now (Some pid) (Some sid))) sid = 0
  (* the surviving customer *)
  /\ (exists p',
         find_customer (fst (merge s now (Some pid) (Some sid))) pid = Some p'
         /\ Customer.name p' = Customer.name primary
         /\ Customer.email p' = Customer.email primary
         /\ NoDup (Customer.tags p')
         /\ (forall x, In x (Customer.tags p') <->
                       In x (Customer.tags primary) \/ In x (Customer.tags secondary))
         /\ (exists alts,
                Customer.alt_emails p' = Some alts
                /\ NoDup alts
                /\ forall x, In x alts <->
                             ((exists l, Customer.alt_emails primary = Some l /\ In x l)
                              \/ (exists l, Customer.alt_emails secondary = Some l
                                            /\ In x l)
                              \/ x = Customer.email secondary)
                             /\ x <> Customer.email primary)
         /\ Customer.phone p'
            = match Customer.phone primary with
              | Some (String _ _) => Customer.phone primary
              | _ => Customer.phone secondary
              end
         /\ Customer.shopify_order_count p'
            = Some (Nat.max
                      match Customer.shopify_order_count primary with
                      | Some a => a
                      | None => 0
                      end
                      match Customer.shopify_order_count secondary with
                      | Some b => b
                      | None => 0
                      end)
         /\ Customer.shopify_ltv p'
            = Some (Nat.max
                      match Customer.shopify_ltv primary with
                      | Some a => a
                      | None => 0
                      end
                      match Customer.shopify_ltv secondary with
                      | Some b => b
                      | None => 0
                      end)
         /\ Customer.ticket_count p'
            = Customer.ticket_count primary + Customer.ticket_count secondary
         /\ Customer.possible_duplicate_of p' = None)
  (* the retired customer *)
  /\ find_customer (fst (merge s now (Some pid) (Some sid))) sid = None
  /\ (forall c, In c (customers (fst (merge s now (Some pid) (Some sid)))) ->
                Customer.id c <> sid)
  /\ (forall c, In c (customers (fst (merge s now (Some pid) (Some sid)))) ->
                Customer.possible_duplicate_of c <> Some sid).
Proof.
  intros D P S.
  rewrite (merge_found s now pid sid primary secondary D P S). cbn [fst snd].
  destruct (find_customer_in s pid primary P) as (IP & EP).
  destruct (find_customer_in s sid secondary S) as (IS & ES).
  split; [unfold duplicate_of; now rewrite EP, ES|].
  assert (T : tickets (delete_customer sid
                (clear_references sid
                   (update_customer pid (merge_updates now primary secondary)
                      (move_tickets pid sid s))))
              = update_where (owned_by sid) (Ticket.apply (move_patch pid)) (tickets s))
    by reflexivity.
  assert (Cs : customers (delete_customer sid
                 (clear_references sid
                    (update_customer pid (merge_updates now primary secondary)
                       (move_tickets pid sid s))))
               = delete_where (fun r => Customer.id r =? sid)
                   (update_where (points_at sid) (Customer.apply clear_patch)
                      (update_where (fun r => Customer.id r =? pid)
                         (Customer.apply (merge_updates now primary secondary))
                         (customers s))))
    by reflexivity.
  unfold owned, find_customer. rewrite T, Cs.
  repeat match goal with |- _ /\ _ => split end.
  - intros t I. apply in_update_where in I as (r & Ir & ->). unfold owned_by.
    destruct (Nat.eqb_spec (Ticket.customer_id r) sid); simpl; congruence.
  - intros t I E. exists (Ticket.apply (move_patch pid) t). split; [|now simpl].
    apply in_update_where. exists t. split; [exact I|].
    unfold owned_by. now rewrite E, Nat.eqb_refl.
  - intros t I N. apply in_update_where. exists t. split; [exact I|].
    unfold owned_by. apply Nat.eqb_neq in N. now rewrite N.
  - now apply map_update_where.
  - rewrite (owned_after_move pid sid pid (tickets s) D), Nat.eqb_refl.
    apply Nat.eqb_neq in D. now rewrite D.
  - rewrite (owned_after_move pid sid sid (tickets s) D), Nat.eqb_refl. reflexivity.
  - exists (Customer.apply (merge_updates now primary secondary) primary). split.
    + rewrite filter_delete_where.
      2:{ intros x E. apply Nat.eqb_eq in E. rewrite E. now apply Nat.eqb_neq. }
      rewrite !filter_update_where by (intros r; reflexivity).
      unfold find_customer in P. apply single_some in P. rewrite P. simpl.
      now rewrite EP, Nat.eqb_refl.
    + simpl. repeat match goal with |- _ /\ _ => split end; try reflexivity.
      * apply NoDup_dedup.
      * intros x. rewrite in_dedup. apply in_app_iff.
      * exists (mergedAltEmails primary secondary). split; [reflexivity|]. split.
        -- apply NoDup_remove_string, NoDup_dedup.
        -- intros x. unfold mergedAltEmails.
           rewrite in_remove_string, in_dedup, !in_app_iff. simpl.
           destruct (Customer.alt_emails primary) as [l1|],
                    (Customer.alt_emails secondary) as [l2|]; simpl;
             split;
             (intros ([(l & E & I)|[(l & E & I)|E]] & N)
              || intros ([I|[I|[E|[]]]] & N));
             try discriminate; try contradiction;
             try (inversion E; subst); split; eauto 6.
      * destruct (Customer.phone primary) as [[|? ?]|]; reflexivity.
  - now rewrite filter_delete_same.
  - intros c I. unfold delete_where in I. apply filter_In in I as (_ & N).
    apply negb_true_iff in N. now apply Nat.eqb_neq.
  - intros c I. unfold delete_where in I. apply filter_In in I as (I & _).
    apply in_update_where in I as (r & _ & ->). unfold points_at.
    destruct (Customer.possible_duplicate_of r) as [d|] eqn:E.
    + destruct (Nat.eqb_spec d sid) as [->|N]; simpl; [discriminate|].
      rewrite E. congruence.
    + rewrite E. discriminate.
Qed.

(** Alicia, flagged as a possible duplicate of Alice, is merged into her:
    Alice ends with the three tickets, five orders (3 and 5) and a lifetime
    value of 120 (120 and 80). *)
Lemma C6_merge_witness :
  owned (fst (merge MergeSample.before Sample.now (Some 1) (Some 2))) 1 = 3
  /\ find_customer (fst (merge MergeSample.before Sample.now (Some 1) (Some 2))) 2 = None
  /\ exists p',
       find_customer (fst (merge MergeSample.before Sample.now (Some 1) (Some 2))) 1
       = Some p'
       /\ Customer.shopify_order_count p' = Some 5
       /\ Customer.shopify_ltv p' = Some 120.
Proof.
  destruct (C6_merge_effects MergeSample.before Sample.now 1 2 Sample.alice Sample.alicia)
    as (_ & _ & _ & _ & _ & O & _ & (p' & F & _ & _ & _ & _ & _ & _ & Oc & Lv & _) & G & _).
  - discriminate.
  - reflexivity.
  - reflexivity.
  - split; [etransitivity; [exact O | reflexivity]|]. split; [exact G|].
    exists p'. split; [exact F|]. split; [exact Oc | exact Lv].
Defined.

Example merge_result :
  map (fun c => (Customer.id c, Customer.tags c, Customer.alt_emails c,
                 Customer.ticket_count c, Customer.shopify_order_count c,
                 Customer.shopify_ltv c))
    (customers (fst (merge MergeSample.before Sample.now (Some 1) (Some 2))))
  = [(1, ["VIP"; "Influencer"], Some ["aj@example.com"; "alicia@example.com"],
      2, Some 5, Some 120)]
  /\ map Ticket.customer_id
       (tickets (fst (merge MergeSample.before Sample.now (Some 1) (Some 2))))
     = [1; 1; 1].
Proof. vm_compute. split; reflexivity. Qed.

(** Merging again with the deleted secondary is answered 404. *)
Example merge_again_not_found :
  snd (merge (fst (merge MergeSample.before Sample.now (Some 1) (Some 2)))
         Sample.now (Some 1) (Some 2))
  = NotFound "One or both customers not found".
Proof. vm_compute. reflexivity. Qed.

(** C3, as stated, fails: when the store refuses the update of the primary
    customer, the merge still answers success, the tickets of the secondary
    have moved and the secondary is deleted, while the primary keeps its old
    ticket count and tags. *)
Lemma C3_merge_partially_applied :
  any_fault MergeSample.update_refused = true
  /\ fst (merge_with MergeSample.update_refused MergeSample.before Sample.now (Some 1) (Some 2))
     <> MergeSample.before
  /\ http_status
       (snd (merge_with MergeSample.update_refused MergeSample.before Sample.now
               (Some 1) (Some 2))) = 200
  /\ map Ticket.customer_id
       (tickets (fst (merge_with MergeSample.update_refused MergeSample.before Sample.now
                        (Some 1) (Some 2))))
     = [1; 1; 1]
  /\ map (fun c => (Customer.id c, Customer.ticket_count c, Customer.tags c))
       (customers (fst (merge_with MergeSample.update_refused MergeSample.before Sample.now
                          (Some 1) (Some 2))))
     = [(1, 1, ["VIP"])].
Proof.
  repeat split.
  intros H. apply (f_equal (fun st => List.length (customers st))) in H.
  vm_compute in H. discriminate H.
Qed.

(** C3 (amended): if the store refuses the first write, the move of the
    tickets, the merge stops with an error and leaves the store exactly as
    it was.  If that write goes through, the move of the tickets stays
    persisted and success is reported, whatever happens to the later
    writes, whose results are not inspected. *)
Theorem C3_merge_aborts_on_first_write fl s now pid sid primary secondary :
  pid <> sid ->
  find_customer s pid = Some primary ->
  find_customer s sid = Some secondary ->
  (fail_move_tickets fl = true ->
   fst (merge_with fl s now (Some pid) (Some sid)) = s
   /\ http_status (snd (merge_with fl s now (Some pid) (Some sid))) = 500)
  /\ (fail_move_tickets fl = false ->
      tickets (fst (merge_with fl s now (Some pid) (Some sid)))
      = tickets (move_tickets pid sid s)
      /\ snd (merge_with fl s now (Some pid) (Some sid))
         = Merged (duplicate_of primary) (duplicate_of secondary)
             (Customer.ticket_count secondary)).
Proof.
  intros D P S. unfold merge_with.
  apply Nat.eqb_neq in D. rewrite D, P, S.
  split; intros F; rewrite F; cbn [fst snd].
  - split; reflexivity.
  - split; [|reflexivity].
    unfold attempt.
    destruct (fail_update_primary fl), (fail_clear_references fl),
      (fail_delete_secondary fl); reflexivity.
Qed.

Lemma C3_merge_witness :
  fst (merge_with MergeSample.move_refused MergeSample.before Sample.now (Some 1) (Some 2))
  = MergeSample.before
  /\ http_status
       (snd (merge_with MergeSample.move_refused MergeSample.before Sample.now
               (Some 1) (Some 2))) = 500.
Proof.
  apply (C3_merge_aborts_on_first_write MergeSample.move_refused MergeSample.before
           Sample.now 1 2 Sample.alice Sample.alicia).
  - discriminate.
  - reflexivity.
  - reflexivity.
  - reflexivity.
Defined.

(* ------------------------------------------------------------------ *)
(** ** Ticket counts *)
(* ------------------------------------------------------------------ *)

Lemma counts_cover_empty (uq : bool) : counts_cover (empty_store uq).
Proof. repeat split; intros ? []. Qed.

Lemma owned_fresh s n :
  (forall t, In t (tickets s) -> Ticket.customer_id t < n) -> owned s n = 0.
Proof.
  intros H. unfold owned. rewrite filter_nil_iff; [reflexivity|].
  intros t I. unfold owned_by. apply Nat.eqb_neq. specialize (H t I). lia.
Qed.

Lemma resolve_read_in s email phone fullName :
  match resolve_read s email phone fullName with
  | ByEmail b | ByPhone b => In b (customers s)
  | _ => True
  end.
Proof.
  unfold resolve_read.
  destruct (email_tier s email) as [b|] eqn:E.
  - unfold email_tier in E. apply single_some in E.
    now apply filter_singleton_in in E.
  - destruct (phone_tier s phone) as [b|] eqn:P.
    + unfold phone_tier in P. destruct phone as [p|]; [|discriminate].
      destruct (truthy p); [|discriminate].
      destruct (10 <=? length (clean_phone p)); [|discriminate].
      apply find_some in P as (I & _). now apply filter_In in I.
    + now destruct (name_tier s fullName).
Qed.

(** A matched customer: the update writes its read count plus one. *)
Lemma bump_ready s b u :
  counts_cover s ->
  In b (customers s) ->
  Customer.set_ticket_count u = Some (Customer.ticket_count b + 1) ->
  counts_cover (update_customer (Customer.id b) u s)
  /\ ready (update_customer (Customer.id b) u s) (Customer.id b).
Proof.
  intros (Hc & Hi & Ht) Ib Hu.
  assert (Tc : forall r, Customer.ticket_count (Customer.apply u r)
                         = Customer.ticket_count b + 1).
  { intros r. simpl. now rewrite Hu. }
  assert (Ow : forall cid, owned (update_customer (Customer.id b) u s) cid = owned s cid)
    by reflexivity.
  repeat split.
  - intros c I. rewrite Ow. apply in_update_where in I as (r & Ir & ->).
    destruct (Nat.eqb_spec (Customer.id r) (Customer.id b)) as [E|N].
    + rewrite customer_apply_id, Tc, E. specialize (Hc b Ib). lia.
    + now apply Hc.
  - intros c I. apply in_update_where in I as (r & Ir & ->).
    destruct (Customer.id r =? Customer.id b); [rewrite customer_apply_id|];
      now apply Hi.
  - exact Ht.
  - intros c I E. rewrite Ow. apply in_update_where in I as (r & Ir & ->).
    destruct (Nat.eqb_spec (Customer.id r) (Customer.id b)) as [E'|N].
    + rewrite Tc. specialize (Hc b Ib). lia.
    + contradiction.
  - now apply Hi.
Qed.

(** A created customer: a fresh id, a count of one, no ticket yet. *)
Lemma insert_ready row_of s s1 row :
  counts_cover s ->
  Customer.id (row_of (next_customer_id s)) = next_customer_id s ->
  Customer.ticket_count (row_of (next_customer_id s)) = 1 ->
  insert_customer row_of s = (s1, inr row) ->
  counts_cover s1 /\ ready s1 (Customer.id row).
Proof.
  intros (Hc & Hi & Ht) Eid Etc. unfold insert_customer.
  destruct (unique_email s && _); [discriminate|].
  intros H. inversion H; subst s1 row; clear H.
  set (row := row_of (next_customer_id s)) in *.
  assert (F : owned s (next_customer_id s) = 0) by now apply owned_fresh.
  unfold counts_cover, ready, owned in *. cbn [customers tickets next_customer_id].
  repeat split.
  - intros c I. apply in_app_or in I as [I|[<-|[]]].
    + now apply Hc.
    + rewrite Eid, Etc, F. lia.
  - intros c I. apply in_app_or in I as [I|[<-|[]]].
    + specialize (Hi c I). lia.
    + rewrite Eid. lia.
  - intros t I. specialize (Ht t I). lia.
  - intros c I E. rewrite Eid in *. rewrite F.
    apply in_app_or in I as [I|[<-|[]]].
    + specialize (Hi c I). lia.
    + rewrite Etc. lia.
  - rewrite Eid. lia.
Qed.

Lemma resolve_write_ready s now email phone fullName s1 r :
  counts_cover s ->
  findOrCreateCustomer s now email phone fullName = (s1, inr r) ->
  counts_cover s1 /\ ready s1 (Customer.id (customer r)).
Proof.
  intros C. unfold findOrCreateCustomer.
  pose proof (resolve_read_in s email phone fullName) as I.
  destruct (resolve_read s email phone fullName) as [b|b|b|]; simpl.
  - intros H. inversion H; subst s1 r; clear H. now apply bump_ready.
  - intros H. inversion H; subst s1 r; clear H. now apply bump_ready.
  - destruct (insert_customer _ s) as [s' [e|row]] eqn:Ins; [discriminate|].
    intros H. inversion H; subst s1 r; clear H. simpl.
    eapply insert_ready; [exact C | | | exact Ins]; reflexivity.
  - destruct (insert_customer _ s) as [s' [e|row]] eqn:Ins; [discriminate|].
    intros H. inversion H; subst s1 r; clear H. simpl.
    eapply insert_ready; [exact C | | | exact Ins]; reflexivity.
Qed.

Lemma resolve_write_error d s now email phone fullName s1 e :
  resolve_write d s now email phone fullName = (s1, inl e) -> s1 = s.
Proof.
  destruct d; simpl; try discriminate; unfold insert_customer;
    destruct (unique_email s && _); simpl; intros H; now inversion H.
Qed.

(** Rewriting tickets without touching their owner keeps the invariant. *)
Lemma counts_cover_update_tickets s s' sel f :
  (forall r, Ticket.customer_id (f r) = Ticket.customer_id r) ->
  tickets s' = update_where sel f (tickets s) ->
  customers s' = customers s ->
  next_customer_id s' = next_customer_id s ->
  (counts_cover s -> counts_cover s')
  /\ (forall cid, ready s cid -> ready s' cid).
Proof.
  intros Hf Et Ec En.
  assert (Ow : forall cid, owned s' cid = owned s cid).
  { intros cid. unfold owned. rewrite Et. now apply owned_update_where. }
  split.
  - intros (Hc & Hi & Ht). unfold counts_cover. rewrite Ec, En. repeat split.
    + intros c I. rewrite Ow. now apply Hc.
    + exact Hi.
    + intros t I. rewrite Et in I. apply in_update_where in I as (r & Ir & ->).
      destruct (sel r); [rewrite Hf|]; now apply Ht.
  - intros cid (Hr & Hn). unfold ready. rewrite Ec, En, Ow. now split.
Qed.

Lemma route_cover s now rnd f fullName message autoTags cid :
  counts_cover s -> ready s cid ->
  counts_cover (fst (fst (route s now rnd f fullName message autoTags cid))).
Proof.
  intros C R.
  destruct (route_cases s now rnd f fullName message autoTags cid)
    as [t Eo|t Eo Ec W|Eo W];
    cbn [fst].
  - eapply (counts_cover_update_tickets s); try exact C;
      [| apply tickets_thread_onto | reflexivity | reflexivity]. reflexivity.
  - eapply (counts_cover_update_tickets s); try exact C;
      [| apply tickets_reopen | reflexivity | reflexivity]. reflexivity.
  - destruct C as (Hc & Hi & Ht). destruct R as (Hr & Hn).
    set (t := new_ticket now (generateTicketId rnd) cid f message fullName autoTags
                (next_ticket_id s)).
    assert (Ow : forall k,
               owned (fst (create_ticket s now rnd f fullName message autoTags cid)) k
                           = owned s k + (if owned_by k t then 1 else 0)).
    { intros k. unfold owned. rewrite tickets_create_ticket.
      rewrite filter_app, length_app. simpl. fold t.
      destruct (owned_by k t); reflexivity. }
    repeat split.
    + intros c I. rewrite Ow. change (In c (customers s)) in I.
      unfold owned_by. simpl.
      destruct (Nat.eqb_spec cid (Customer.id c)) as [E|N].
      * rewrite <- E. apply Hr; auto.
      * specialize (Hc c I). lia.
    + exact Hi.
    + intros t' I. rewrite tickets_create_ticket in I.
      apply in_app_or in I as [I|[<-|[]]]; [now apply Ht | exact Hn].
Qed.

Lemma contact_form_cover s now rnd f :
  counts_cover s -> counts_cover (fst (contact_form s now rnd f)).
Proof.
  intros C. unfold contact_form.
  destruct (form_ok f) eqn:V.
  2:{ now rewrite contact_form_rejected. }
  destruct (form_tags f) as [e|autoTags] eqn:T.
  { now rewrite (contact_form_unclassified s s now rnd f e V T). }
  rewrite (contact_form_interleaved_ok s s now rnd f autoTags V T).
  pose proof (resolve_write_ready s now (or_empty (Form.email f)) (Form.phone f)
                (form_fullName f)) as R.
  pose proof (resolve_write_error
                (resolve_read s (or_empty (Form.email f)) (Form.phone f) (form_fullName f))
                s now (or_empty (Form.email f)) (Form.phone f) (form_fullName f)) as E.
  unfold findOrCreateCustomer in R.
  destruct (resolve_write _ s now _ _ _) as [s1 [e|r]].
  - simpl. now rewrite (E s1 e eq_refl).
  - destruct (R s1 r C eq_refl) as (C1 & R1).
    pose proof (route_cover s1 now rnd f (form_fullName f) (or_empty (Form.message f))
                  autoTags (Customer.id (customer r)) C1 R1) as K.
    destruct (route s1 now rnd f _ _ _ _) as [[s2 tid] ot]. exact K.
Qed.

Lemma post_reply_cover s now ticketId content sender_name :
  counts_cover s -> counts_cover (fst (post_reply s now ticketId content sender_name)).
Proof.
  intros C. unfold post_reply.
  destruct (negb (truthy_opt content)); [exact C|].
  destruct (single _) as [ticket|]; [|exact C]. cbn [fst].
  eapply (counts_cover_update_tickets s); try exact C;
    [| reflexivity | reflexivity | reflexivity]. reflexivity.
Qed.

Lemma patch_status_cover s now ticketId status :
  counts_cover s -> counts_cover (fst (patch_status s now ticketId status)).
Proof.
  intros C. unfold patch_status.
  destruct (parse_status status) as [st|]; [|exact C]. cbn [fst].
  eapply (counts_cover_update_tickets s); try exact C;
    [| reflexivity | reflexivity | reflexivity]. reflexivity.
Qed.

Lemma merge_cover s now primary_id secondary_id :
  counts_cover s -> counts_cover (fst (merge s now primary_id secondary_id)).
Proof.
  intros C.
  destruct primary_id as [pid|]; [|exact C].
  destruct secondary_id as [sid|]; [|exact C].
  destruct (Nat.eqb_spec pid sid) as [E|D].
  { unfold merge, merge_with. apply Nat.eqb_eq in E. rewrite E. exact C. }
  destruct (find_customer s pid) as [primary|] eqn:P.
  2:{ unfold merge, merge_with. apply Nat.eqb_neq in D. rewrite D, P. exact C. }
  destruct (find_customer s sid) as [secondary|] eqn:S.
  2:{ unfold merge, merge_with. apply Nat.eqb_neq in D. rewrite D, P, S. exact C. }
  rewrite (merge_found s now pid sid primary secondary D P S). cbn [fst].
  destruct C as (Hc & Hi & Ht).
  destruct (find_customer_in s pid primary P) as (IP & EP).
  destruct (find_customer_in s sid secondary S) as (IS & ES).
  pose proof (Hc primary IP) as Cp. pose proof (Hc secondary IS) as Cse.
  rewrite EP in Cp. rewrite ES in Cse.
  unfold counts_cover, owned in *.
  cbn [tickets customers next_customer_id delete_customer clear_references
         update_customer move_tickets with_customers with_tickets].
  repeat split.
  - intros c I. unfold delete_where in I. apply filter_In in I as (I & N).
    apply negb_true_iff, Nat.eqb_neq in N.
    apply in_update_where in I as (r1 & I1 & ->).
    apply in_update_where in I1 as (r & Ir & ->).
    assert (Eid : Customer.id
                    (if points_at sid
                          (if Customer.id r =? pid
                           then Customer.apply (merge_updates now primary secondary) r
                           else r)
                     then Customer.apply clear_patch
                            (if Customer.id r =? pid
                             then Customer.apply (merge_updates now primary secondary) r
                             else r)
                     else if Customer.id r =? pid
                          then Customer.apply (merge_updates now primary secondary) r
                          else r) = Customer.id r).
    { destruct (points_at sid _), (Customer.id r =? pid); reflexivity. }
    rewrite Eid in *.
    rewrite (owned_after_move pid sid (Customer.id r) (tickets s) D).
    apply Nat.eqb_neq in N. rewrite N.
    destruct (Nat.eqb_spec (Customer.id r) pid) as [Ep|Np].
    + destruct (points_at sid _); simpl; lia.
    + specialize (Hc r Ir). destruct (points_at sid r); simpl; lia.
  - intros c I. unfold delete_where in I. apply filter_In in I as (I & _).
    apply in_update_where in I as (r1 & I1 & ->).
    apply in_update_where in I1 as (r & Ir & ->).
    specialize (Hi r Ir).
    destruct (points_at sid _), (Customer.id r =? pid); exact Hi.
  - intros t I. apply in_update_where in I as (r & Ir & ->).
    destruct (owned_by sid r); simpl.
    + rewrite <- EP. now apply Hi.
    + now apply Ht.
Qed.

Lemma run_cover s op : counts_cover s -> counts_cover (fst (run s op)).
Proof.
  destruct op; simpl.
  - apply contact_form_cover.
  - apply post_reply_cover.
  - apply patch_status_cover.
  - apply merge_cover.
Qed.

Lemma run_all_cover ops : forall s, counts_cover s -> counts_cover (run_all s ops).
Proof.
  unfold run_all. induction ops as [|op ops IH]; intros s C; simpl; [exact C|].
  apply IH, run_cover, C.
Qed.

(** C5, as stated, fails: a customer created by a first contact and
    writing a second time has one ticket and a ticket count of two. *)
Lemma C5_count_exceeds_owned :
  let s := run_all (empty_store true)
             [Contact Sample.now 234 Sample.alice_form;
              Contact (Sample.now + 1)%Z 77
                (Sample.form "Alice" "Johnson" "alice@example.com" None "Me again")] in
  map (fun c => (Customer.ticket_count c, owned s (Customer.id c))) (customers s)
  = [(2, 1)]
  /\ ~ (forall c, In c (customers s) -> Customer.ticket_count c = owned s (Customer.id c)).
Proof.
  split; [vm_compute; reflexivity|].
  intros H.
  specialize (H _ (or_introl eq_refl)). vm_compute in H. discriminate H.
Qed.

(** C5 (amended): after every operation (contact event, reply, status
    change, merge) each customer's ticket count is at least the number of
    tickets the customer owns: the count is one at creation, grows by one
    with every contact matched by email or phone, whether or not a ticket is
    created, and is the sum of both counts after a merge. *)
Theorem C5_ticket_count_covers_owned :
  (forall s op, counts_cover s -> counts_cover (fst (run s op)))
  /\ (forall uq ops c,
         In c (customers (run_all (empty_store uq) ops)) ->
         owned (run_all (empty_store uq) ops) (Customer.id c) <= Customer.ticket_count c).
Proof.
  split.
  - apply run_cover.
  - intros uq ops c I.
    now apply (run_all_cover ops (empty_store uq) (counts_cover_empty uq)).
Qed.

Lemma C5_ticket_count_witness :
  owned (run_all (empty_store true)
           [Contact Sample.now 234 Sample.alice_form;
            Contact (Sample.now + 1)%Z 77
              (Sample.form "Alice" "Johnson" "alice@example.com" None "Me again")])
    1
  <= 2.
Proof.
  apply (proj2 C5_ticket_count_covers_owned true
           [Contact Sample.now 234 Sample.alice_form;
            Contact (Sample.now + 1)%Z 77
              (Sample.form "Alice" "Johnson" "alice@example.com" None "Me again")]
           (Customer.mk 1 "Alice Johnson" "alice@example.com" None None [] 2 None None None
              None (Sample.now + 1)%Z)).
  vm_compute. left. reflexivity.
Defined.

(* ------------------------------------------------------------------ *)
(** ** Classification and stored emails *)
(* ------------------------------------------------------------------ *)

(** The classifier returns tags for every purpose but the names an object
    literal inherits. *)
Lemma generateAutoTags_returns (purpose message : string) :
  purposeTags purpose <> Inherited ->
  exists tags, generateAutoTags purpose message = inr tags /\ NoDup tags.
Proof.
  unfold generateAutoTags. intros H.
  destruct (purposeTags purpose) as [tags| |]; [| contradiction |];
    eexists; (split; [reflexivity | apply NoDup_dedup]).
Qed.

(** A form whose purpose is such a name is answered 500 before any
    resolution. *)
Example inherited_purpose_throws :
  let f := {| Form.first_name := Some "Alice"; Form.last_name := None;
              Form.email := Some "alice@example.com"; Form.phone := None;
              Form.purpose := Some "constructor"; Form.message := Some "hello";
              Form.attachment_info := None; Form.submitted_at := None |} in
  contact_form (Sample.store [Sample.alice] []) Sample.now 234 f
  = (Sample.store [Sample.alice] [],
     ServerError "Failed to process submission" "purposeTags[purpose] is not iterable").
Proof. reflexivity. Qed.

Lemma lower_char_idem (c : ascii) : lower_char (lower_char c) = lower_char c.
Proof. destruct c as [[] [] [] [] [] [] [] []]; reflexivity. Qed.

Lemma toLowerCase_idem (x : string) : toLowerCase (toLowerCase x) = toLowerCase x.
Proof.
  induction x as [|c x IH]; simpl; [reflexivity|].
  now rewrite lower_char_idem, IH.
Qed.

Lemma emails_lower_update sel u s s' :
  customers s' = update_where sel (Customer.apply u) (customers s) ->
  emails_lower s -> emails_lower s'.
Proof.
  intros E H c I. rewrite E in I. apply in_update_where in I as (r & Ir & ->).
  destruct (sel r); [rewrite customer_apply_email|]; now apply H.
Qed.

Lemma emails_lower_resolve d s now email phone fullName :
  emails_lower s -> emails_lower (fst (resolve_write d s now email phone fullName)).
Proof.
  intros H. destruct d; simpl.
  - eapply emails_lower_update; [reflexivity | exact H].
  - eapply emails_lower_update; [reflexivity | exact H].
  - unfold insert_customer. destruct (unique_email s && _); simpl; [exact H|].
    intros c I. apply in_app_or in I as [I|[<-|[]]]; [now apply H|].
    apply toLowerCase_idem.
  - unfold insert_customer. destruct (unique_email s && _); simpl; [exact H|].
    intros c I. apply in_app_or in I as [I|[<-|[]]]; [now apply H|].
    apply toLowerCase_idem.
Qed.

Lemma emails_lower_run s op : emails_lower s -> emails_lower (fst (run s op)).
Proof.
  intros H. destruct op as [now rnd f|now tid content sender|now tid status|now p q];
    simpl.
  - unfold contact_form.
    destruct (form_ok f) eqn:V; [|now rewrite contact_form_rejected].
    destruct (form_tags f) as [e|autoTags] eqn:T.
    { now rewrite (contact_form_unclassified s s now rnd f e V T). }
    rewrite (contact_form_interleaved_ok s s now rnd f autoTags V T).
    pose proof (emails_lower_resolve
                  (resolve_read s (or_empty (Form.email f)) (Form.phone f) (form_fullName f))
                  s now (or_empty (Form.email f)) (Form.phone f) (form_fullName f) H) as K.
    destruct (resolve_write _ s now _ _ _) as [s1 [e|r]]; [exact K|].
    simpl in K.
    pose proof (customers_route s1 now rnd f (form_fullName f)
                  (or_empty (Form.message f)) autoTags (Customer.id (customer r)))
      as (Ec & _).
    destruct (route s1 now rnd f _ _ _ _) as [[s2 t] o]. simpl in *.
    intros c I. rewrite Ec in I. now apply K.
  - unfold post_reply. destruct (negb (truthy_opt content)); [exact H|].
    destruct (single _); exact H.
  - unfold patch_status. destruct (parse_status status); exact H.
  - unfold merge, merge_with.
    destruct p as [pid|]; [|exact H]. destruct q as [sid|]; [|exact H].
    destruct (pid =? sid); [exact H|].
    destruct (find_customer s pid); [|exact H].
    destruct (find_customer s sid); [|exact H]. simpl.
    intros c I. unfold delete_where in I. apply filter_In in I as (I & _).
    apply in_update_where in I as (r1 & I1 & ->).
    apply in_update_where in I1 as (r & Ir & ->).
    specialize (H r Ir).
    destruct (points_at sid _), (Customer.id r =? pid); exact H.
Qed.

(** In every store the routes build from an empty one, primary emails are
    lower-cased. *)
Lemma emails_lower_reachable uq ops : emails_lower (run_all (empty_store uq) ops).
Proof.
  assert (G : forall s, emails_lower s -> emails_lower (run_all s ops)).
  { unfold run_all. induction ops as [|op ops IH]; intros s H; simpl; [exact H|].
    apply IH, emails_lower_run, H. }
  apply G. intros c [].
Qed.

(* ------------------------------------------------------------------ *)
(** ** The shape of normalized names *)
(* ------------------------------------------------------------------ *)

Lemma all_chars_keep_chars (p : ascii -> bool) (s : string) :
  all_chars p (keep_chars p s) = true.
Proof.
  induction s as [|c r IH]; simpl; [reflexivity|].
  destruct (p c) eqn:E; simpl; [now rewrite E|exact IH].
Qed.

Lemma all_chars_collapse_ws (b : bool) (s : string) :
  all_chars is_name_char s = true ->
  all_chars is_name_char (collapse_ws b s) = true.
Proof.
  revert b. induction s as [|c r IH]; intros b; simpl; [reflexivity|].
  intros H. apply andb_prop in H as (Hc & Hr).
  destruct (is_space c).
  - destruct b; simpl; auto.
  - simpl. rewrite Hc. simpl. auto.
Qed.

Lemma space_is_space (c : ascii) : (code c =? 32) = true -> is_space c = true.
Proof.
  intros H. unfold is_space. rewrite H. now rewrite orb_true_r.
Qed.

Lemma single_spaced_collapse_ws (b : bool) (s : string) :
  single_spaced (collapse_ws b s) = true
  /\ (b = true ->
      match collapse_ws b s with
      | EmptyString => True
      | String a _ => (code a =? 32) = false
      end).
Proof.
  revert b. induction s as [|c r IH]; intros b; simpl; [auto|].
  destruct (is_space c) eqn:Sp.
  - destruct b.
    + apply IH.
    + destruct (IH true) as (S1 & S2). split; [|discriminate].
      specialize (S2 eq_refl). simpl.
      destruct (collapse_ws true r) as [|a t]; [reflexivity|].
      rewrite S2. simpl. exact S1.
  - destruct (IH false) as (S1 & _).
    assert (N : (code c =? 32) = false).
    { destruct (code c =? 32) eqn:E; [|reflexivity].
      apply space_is_space in E. congruence. }
    split; [|intros _; exact N].
    simpl. destruct (collapse_ws false r) as [|a t]; [reflexivity|].
    rewrite N. simpl. exact S1.
Qed.

(** A normalized name holds only the letters a-z and single spaces, and
    the letter case of the name does not matter. *)
Theorem normalizeName_shape (name : string) :
  all_chars is_name_char (normalizeName name) = true
  /\ single_spaced (normalizeName name) = true
  /\ normalizeName (toLowerCase name) = normalizeName name.
Proof.
  unfold normalizeName. repeat split.
  - apply all_chars_collapse_ws, all_chars_keep_chars.
  - apply single_spaced_collapse_ws.
  - now rewrite toLowerCase_idem.
Qed.

(** Normalizing is not idempotent: a space left by a removed leading digit
    survives the first pass and is trimmed by the second. *)
Example normalizeName_twice :
  normalizeName "1 John" = " john" /\ normalizeName (normalizeName "1 John") = "john".
Proof. split; reflexivity. Qed.

Section Similarity.

Local Open Scope Q_scope.

(* ------------------------------------------------------------------ *)
(** ** Bounds of the similarity score *)
(* ------------------------------------------------------------------ *)

Lemma pair_award_range (pa pb : string) : 0 <= pair_award pa pb <= 1.
Proof.
  unfold pair_award.
  destruct ((pa =? pb)%string && (1 <? length pa)%nat); [split; discriminate|].
  destruct ((3 <? length pa)%nat && (3 <? length pb)%nat
            && (abs_diff (length pa) (length pb) <=? 1)%nat);
    [destruct (typo_close pa pb)|]; split; discriminate.
Qed.

Lemma q_of_nat_succ (n : nat) : q_of_nat (S n) == q_of_nat n + 1.
Proof.
  unfold q_of_nat. rewrite Nat2Z.inj_succ. unfold Z.succ.
  now rewrite inject_Z_plus.
Qed.

Lemma q_of_nat_add (n m : nat) : q_of_nat (n + m) == q_of_nat n + q_of_nat m.
Proof. unfold q_of_nat. now rewrite Nat2Z.inj_add, inject_Z_plus. Qed.

Lemma q_of_nat_mul (n m : nat) : q_of_nat (n * m) == q_of_nat n * q_of_nat m.
Proof. unfold q_of_nat. now rewrite Nat2Z.inj_mul, inject_Z_mult. Qed.

Lemma q_of_nat_nonneg (n : nat) : 0 <= q_of_nat n.
Proof.
  unfold q_of_nat. change 0 with (inject_Z 0). rewrite <- Zle_Qle. lia.
Qed.

(** The inner loop adds between nothing and one per token of [partsB]. *)
Lemma row_range (pa : string) (partsB : list string) (m : Q) :
  m <= fold_left (fun m' pb => Qplus m' (pair_award pa pb)) partsB m
    <= m + q_of_nat (List.length partsB).
Proof.
  revert m. induction partsB as [|pb r IH]; intros m; simpl.
  - change (q_of_nat 0) with 0. lra.
  - specialize (IH (m + pair_award pa pb)).
    pose proof (pair_award_range pa pb) as R.
    rewrite q_of_nat_succ. lra.
Qed.

Lemma count_range (partsA partsB : list string) (m : Q) :
  m <= fold_left
         (fun m0 pa => fold_left (fun m' pb => Qplus m' (pair_award pa pb)) partsB m0)
         partsA m
    <= m + q_of_nat (List.length partsA * List.length partsB).
Proof.
  revert m. induction partsA as [|pa r IH]; intros m; simpl.
  - change (q_of_nat 0) with 0. lra.
  - pose proof (row_range pa partsB m) as R.
    specialize (IH (fold_left (fun m' pb => Qplus m' (pair_award pa pb)) partsB m)).
    rewrite q_of_nat_add. lra.
Qed.

Lemma split_nonempty (sep : ascii) (s : string) : (1 <= List.length (split sep s))%nat.
Proof.
  induction s as [|c r IH]; simpl; [lia|].
  destruct (Ascii.eqb c sep); simpl; [lia|].
  destruct (split sep r); simpl in *; lia.
Qed.

(** The score is never negative and never above the token count of the
    shorter name.  (It is not bounded by 1: see [nameSimilarity_above_one].) *)
Theorem nameSimilarity_range (a b : string) :
  0 <= nameSimilarity a b
  /\ nameSimilarity a b
     <= q_of_nat (Nat.min (List.length (name_parts a)) (List.length (name_parts b))).
Proof.
  unfold nameSimilarity, name_parts.
  set (A := split " " (normalizeName a)). set (B := split " " (normalizeName b)).
  pose proof (split_nonempty " " (normalizeName a)) as HA. fold A in HA.
  pose proof (split_nonempty " " (normalizeName b)) as HB. fold B in HB.
  destruct ((normalizeName a =? normalizeName b)%string).
  { split; [discriminate|].
    unfold q_of_nat. change 1 with (inject_Z 1). rewrite <- Zle_Qle. lia. }
  assert (M : (1 <= Nat.max (List.length A) (List.length B))%nat) by lia.
  destruct (Nat.ltb_spec 0 (Nat.max (List.length A) (List.length B))) as [P|P]; [|lia].
  pose proof (count_range A B 0) as (Lo & Hi). fold (count_matches A B) in Lo, Hi.
  fold (q_of_nat (Nat.max (List.length A) (List.length B))).
  assert (Pq : 0 < q_of_nat (Nat.max (List.length A) (List.length B))).
  { unfold q_of_nat. change 0 with (inject_Z 0). rewrite <- Zlt_Qlt. lia. }
  split.
  - apply Qle_shift_div_l; [exact Pq|]. lra.
  - apply Qle_shift_div_r; [exact Pq|].
    rewrite <- q_of_nat_mul.
    replace (Nat.min (List.length A) (List.length B)
             * Nat.max (List.length A) (List.length B))%nat
      with (List.length A * List.length B)%nat.
    + lra.
    + destruct (Nat.le_ge_cases (List.length A) (List.length B)) as [L|L].
      * rewrite Nat.min_l, Nat.max_r by exact L. reflexivity.
      * rewrite Nat.min_r, Nat.max_l by exact L. apply Nat.mul_comm.
Qed.

Example nameSimilarity_above_one : nameSimilarity "Ann Ann" "Ann Ann Ann" == 2.
Proof. vm_compute. reflexivity. Qed.

End Similarity.

(* ------------------------------------------------------------------ *)
(** ** The resolver: name tier and creation *)
(* ------------------------------------------------------------------ *)

Lemma Qltb_lt (x y : Q) : Qltb x y = true <-> (x < y)%Q.
Proof.
  unfold Qltb. rewrite negb_true_iff. split.
  - intros H. apply Qnot_le_lt. intros L. apply Qle_bool_iff in L. congruence.
  - intros H. destruct (Qle_bool y x) eqn:E; [|reflexivity].
    apply Qle_bool_iff in E. apply Qlt_not_le in H. contradiction.
Qed.

Lemma best_step_keeps fullName seen acc c :
  best_so_far fullName seen acc ->
  best_so_far fullName (seen ++ [c]) (best_step fullName acc c).
Proof.
  destruct acc as [[b|] bs]; unfold best_so_far, best_step; simpl.
  - intros (Ib & Eb & Tb & Mb).
    destruct (Qltb threshold (nameSimilarity fullName (Customer.name c))
              && Qltb bs (nameSimilarity fullName (Customer.name c))) eqn:E; simpl.
    + apply andb_prop in E as (E1 & E2). apply Qltb_lt in E1, E2.
      repeat split; auto.
      * apply in_or_app. right. now left.
      * intros c' I. apply in_app_or in I as [I|[<-|[]]].
        -- specialize (Mb c' I). lra.
        -- lra.
    + repeat split; auto.
      * apply in_or_app. now left.
      * intros c' I. apply in_app_or in I as [I|[<-|[]]]; [now apply Mb|].
        apply andb_false_iff in E as [E|E].
        -- assert (N : ~ (threshold < nameSimilarity fullName (Customer.name c))%Q).
           { intros L. apply Qltb_lt in L. congruence. }
           apply Qnot_lt_le in N. lra.
        -- assert (N : ~ (bs < nameSimilarity fullName (Customer.name c))%Q).
           { intros L. apply Qltb_lt in L. congruence. }
           now apply Qnot_lt_le in N.
  - intros (Eb & Mb). subst bs.
    destruct (Qltb threshold (nameSimilarity fullName (Customer.name c))
              && Qltb 0 (nameSimilarity fullName (Customer.name c))) eqn:E; simpl.
    + apply andb_prop in E as (E1 & E2). apply Qltb_lt in E1.
      repeat split; auto.
      * apply in_or_app. right. now left.
      * intros c' I. apply in_app_or in I as [I|[<-|[]]]; [|lra].
        specialize (Mb c' I). apply Qnot_lt_le in Mb. lra.
    + split; [reflexivity|].
      intros c' I. apply in_app_or in I as [I|[<-|[]]]; [now apply Mb|].
      intros L. apply andb_false_iff in E as [E|E].
      * apply Qltb_lt in L. congruence.
      * assert (P : (0 < nameSimilarity fullName (Customer.name c))%Q).
        { unfold threshold in L. lra. }
        apply Qltb_lt in P. congruence.
Qed.

Lemma best_fold fullName l seen acc :
  best_so_far fullName seen acc ->
  best_so_far fullName (seen ++ l) (fold_left (best_step fullName) l acc).
Proof.
  revert seen acc. induction l as [|c l IH]; intros seen acc H; simpl.
  - now rewrite app_nil_r.
  - replace (seen ++ c :: l) with ((seen ++ [c]) ++ l) by now rewrite <- app_assoc.
    apply IH, best_step_keeps, H.
Qed.

Lemma name_tier_in (s : Store) (fullName : string) (b : Customer.t) :
  name_tier s fullName = Some b -> In b (customers s).
Proof.
  unfold name_tier. destruct (2 <=? List.length (split " " (trim fullName)))%nat;
    [|discriminate].
  assert (B0 : best_so_far fullName [] (None, 0%Q)).
  { split; [reflexivity|]. intros c []. }
  pose proof (best_fold fullName (customers s) [] (None, 0%Q) B0) as B.
  simpl in B. unfold best_so_far in B. intros E. rewrite E in B. apply B.
Qed.

Example single_token_never_flags :
  name_tier (Sample.store [Sample.alice] []) "Alice" = None
  /\ name_tier (Sample.store [Sample.alice] []) "Alice Johnsen" = Some Sample.alice.
Proof. vm_compute. split; reflexivity. Qed.




(* ------------------------------------------------------------------ *)
(** ** The resolver: phone tier *)
(* ------------------------------------------------------------------ *)

Lemma length_substring (n m : nat) (s : string) :
  length (substring n m s) = Nat.min m (length s - n).
Proof.
  revert n m. induction s as [|c r IH]; intros n m.
  - destruct n, m; reflexivity.
  - destruct n as [|n]; simpl.
    + destruct m as [|m]; simpl; [reflexivity|]. rewrite IH. f_equal. f_equal. lia.
    + apply IH.
Qed.

Lemma length_slice_last (n : nat) (s : string) :
  length (slice_last n s) = Nat.min n (length s).
Proof. unfold slice_last. rewrite length_substring. lia. Qed.

(** A customer returned by the phone tier is a row of the store whose
    phone and the incoming phone both hold ten digits or more and agree on
    the last ten.  An incoming phone with fewer than ten digits matches
    nobody, not even a customer storing the very same phone. *)
Theorem phone_tier_sound (s : Store) (phone : option string) (c : Customer.t) :
  phone_tier s phone = Some c ->
  exists p q,
    phone = Some p
    /\ In c (customers s)
    /\ Customer.phone c = Some q
    /\ 10 <= length (clean_phone p)
    /\ 10 <= length (clean_phone q)
    /\ slice_last 10 (clean_phone q) = slice_last 10 (clean_phone p).
Proof.
  unfold phone_tier. destruct phone as [p|]; [|discriminate].
  destruct (truthy p); [|discriminate].
  destruct (Nat.leb_spec 10 (length (clean_phone p))) as [L|L]; [|discriminate].
  intros F. apply find_some in F as (I & M).
  apply filter_In in I as (I & H). unfold has_phone in H. unfold phone_matches in M.
  destruct (Customer.phone c) as [q|]; [|discriminate]. simpl in M.
  apply String.eqb_eq in M.
  exists p, q. repeat split; auto.
  pose proof (f_equal length M) as E. rewrite !length_slice_last in E. lia.
Qed.

Lemma phone_tier_sound_witness :
  exists p q,
    Some "555-123-4567" = Some p
    /\ In Sample.alice (customers (Sample.store [Sample.alicia; Sample.alice] []))
    /\ Customer.phone Sample.alice = Some q
    /\ 10 <= length (clean_phone p)
    /\ 10 <= length (clean_phone q)
    /\ slice_last 10 (clean_phone q) = slice_last 10 (clean_phone p).
Proof.
  apply (phone_tier_sound (Sample.store [Sample.alicia; Sample.alice] [])
           (Some "555-123-4567") Sample.alice).
  reflexivity.
Defined.

(** Seven digits are not enough, whoever stores them. *)
Example short_phone_no_match :
  phone_tier
    (Sample.store
       [Customer.mk 1 "Bo Li" "bo@example.com" (Some "555-1234") None [] 1 None None None
          None 0%Z] [])
    (Some "555-1234") = None.
Proof. reflexivity. Qed.

(* ------------------------------------------------------------------ *)
(** ** The webhook: answers and what an accepted event leaves *)
(* ------------------------------------------------------------------ *)

Lemma resolve_write_matchType d s now email phone fullName s1 r :
  resolve_write d s now email phone fullName = (s1, inr r) ->
  matchType r = "email" \/ matchType r = "phone"
  \/ matchType r = "possible_duplicate" \/ matchType r = "new".
Proof.
  destruct d; simpl.
  - intros H. inversion H. auto.
  - intros H. inversion H. auto.
  - destruct (insert_customer _ s) as [s' [e|c]]; intros H; inversion H. auto.
  - destruct (insert_customer _ s) as [s' [e|c]]; intros H; inversion H. auto.
Qed.

(** The handler on a store that accepts the new ticket: what each answer
    says of the form and of the store. *)
Lemma contact_form_accepting_outcome (s : Store) (now : Time) (rnd : nat) (f : Form.t) :
  match snd (contact_form s now rnd f) with
  | BadRequest _ => form_ok f = false /\ fst (contact_form s now rnd f) = s
  | ServerError _ _ => form_ok f = true /\ fst (contact_form s now rnd f) = s
  | Accepted _ action customer_match _ =>
      form_ok f = true
      /\ (action = "threaded" \/ action = "created")
      /\ (customer_match = "email" \/ customer_match = "phone"
          \/ customer_match = "possible_duplicate" \/ customer_match = "new")
  | _ => False
  end.
Proof.
  unfold contact_form.
  destruct (form_ok f) eqn:V.
  2:{ rewrite contact_form_rejected by exact V. simpl. auto. }
  destruct (form_tags f) as [e|autoTags] eqn:T.
  { rewrite (contact_form_unclassified s s now rnd f e V T). simpl. auto. }
  rewrite (contact_form_interleaved_ok s s now rnd f autoTags V T).
  destruct (resolve_write _ s now _ _ _) as [s1 [e|r]] eqn:W.
  - simpl. split; [reflexivity|]. eapply resolve_write_error, W.
  - pose proof (resolve_write_matchType _ _ _ _ _ _ _ _ W) as M.
    destruct (route_cases s1 now rnd f (form_fullName f) (or_empty (Form.message f))
                autoTags (Customer.id (customer r))) as [t Eo|t Eo Ec Wc|Eo Wc]; simpl.
    + auto.
    + auto.
    + auto.
Qed.

(** After an accepted event the ticket the response names is in the store,
    open, and carries the customer's message as the first message appended;
    a threaded event appends nothing else, any other appends exactly one more
    message, not from the customer, on the same ticket; at most one ticket is
    added. *)
Theorem contact_form_accepted (s : Store) (now : Time) (rnd : nat) (f : Form.t)
    (ticketId action customer_match : string) (dup : option Duplicate) :
  snd (contact_form s now rnd f) = Accepted ticketId action customer_match dup ->
  exists t m rest,
    In t (tickets (fst (contact_form s now rnd f)))
    /\ Ticket.ticket_id t = ticketId
    /\ Ticket.status t = Open
    /\ messages (fst (contact_form s now rnd f)) = messages s ++ m :: rest
    /\ Message.ticket_id m = Ticket.id t
    /\ Message.sender_type m = FromCustomer
    /\ Message.sender_name m = form_fullName f
    /\ Message.content m = or_empty (Form.message f)
    /\ (action = "threaded" -> rest = [])
    /\ (action <> "threaded" ->
        exists m2, rest = [m2] /\ Message.ticket_id m2 = Ticket.id t
                   /\ Message.sender_type m2 <> FromCustomer)
    /\ List.length (tickets (fst (contact_form s now rnd f)))
       <= S (List.length (tickets s)).
Proof.
  unfold contact_form.
  destruct (form_ok f) eqn:V.
  2:{ rewrite contact_form_rejected by exact V. discriminate. }
  destruct (form_tags f) as [e|autoTags] eqn:T.
  { rewrite (contact_form_unclassified s s now rnd f e V T). discriminate. }
  rewrite (contact_form_interleaved_ok s s now rnd f autoTags V T).
  pose proof (resolve_write_tickets
                (resolve_read s (or_empty (Form.email f)) (Form.phone f) (form_fullName f))
                s now (or_empty (Form.email f)) (Form.phone f) (form_fullName f))
    as (Ht & Hm & _).
  destruct (resolve_write _ s now _ _ _) as [s1 [e|r]]; [discriminate|].
  simpl in Ht, Hm.
  destruct (route_cases s1 now rnd f (form_fullName f) (or_empty (Form.message f))
              autoTags (Customer.id (customer r))) as [t Eo|t Eo Ec Wc|Eo Wc].
  - simpl. intros H. inversion H; subst; clear H.
    unfold findOpenTicketForCustomer in Eo. apply latest_in in Eo.
    apply filter_In in Eo as (It & _).
    exists (Ticket.apply (follow_up_patch now (Ticket.ai_tags t) autoTags) t),
      (customer_message f now (form_fullName f) (or_empty (Form.message f))
         Message.Threaded (Ticket.id t)), [].
    repeat split; try reflexivity.
    + apply in_update_where. exists t. split; [exact It|]. now rewrite Nat.eqb_refl.
    + now rewrite Hm.
    + intros N. now contradiction N.
    + rewrite length_update_where, Ht. lia.
  - simpl. intros H. inversion H; subst; clear H.
    unfold findRecentClosed in Ec. apply latest_in in Ec.
    apply filter_In in Ec as (It & _).
    exists (Ticket.apply (follow_up_patch now (Ticket.ai_tags t) autoTags) t),
      (customer_message f now (form_fullName f) (or_empty (Form.message f))
         Message.Reopened (Ticket.id t)),
      [plain_message FromSystem "System"
         "Ticket reopened - customer sent a follow-up message." (Ticket.id t)].
    repeat split; try reflexivity.
    + apply in_update_where. exists t. split; [exact It|]. now rewrite Nat.eqb_refl.
    + rewrite Hm, <- app_assoc. reflexivity.
    + discriminate.
    + intros _. eexists. repeat split. discriminate.
    + rewrite length_update_where, Ht. lia.
  - simpl. intros H. inversion H; subst; clear H.
    exists (new_ticket now (generateTicketId rnd) (Customer.id (customer r)) f
              (or_empty (Form.message f)) (form_fullName f) autoTags
              (next_ticket_id s1)),
      (customer_message f now (form_fullName f) (or_empty (Form.message f))
         Message.Plain (next_ticket_id s1)),
      [plain_message FromAgent "Auto-reply"
         ("Thanks for reaching out! We've received your message and a team member will get back to you shortly. Your ticket number is "
          ++ generateTicketId rnd ++ ".") (next_ticket_id s1)].
    repeat split; try reflexivity.
    + apply in_or_app. right. now left.
    + rewrite Hm, <- app_assoc. reflexivity.
    + discriminate.
    + intros _. eexists. repeat split. discriminate.
    + rewrite length_app, Ht. simpl. lia.
Qed.

Lemma contact_form_accepted_witness :
  exists t m rest,
    In t (tickets (fst (contact_form (Sample.store [] []) Sample.now 234 Sample.alice_form)))
    /\ Ticket.ticket_id t = "TIX-1234"
    /\ Ticket.status t = Open
    /\ messages (fst (contact_form (Sample.store [] []) Sample.now 234 Sample.alice_form))
       = messages (Sample.store [] []) ++ m :: rest
    /\ Message.ticket_id m = Ticket.id t
    /\ Message.sender_type m = FromCustomer
    /\ Message.sender_name m = form_fullName Sample.alice_form
    /\ Message.content m = or_empty (Form.message Sample.alice_form)
    /\ ("created" = "threaded" -> rest = [])
    /\ ("created" <> "threaded" ->
        exists m2, rest = [m2] /\ Message.ticket_id m2 = Ticket.id t
                   /\ Message.sender_type m2 <> FromCustomer)
    /\ List.length
         (tickets (fst (contact_form (Sample.store [] []) Sample.now 234 Sample.alice_form)))
       <= S (List.length (tickets (Sample.store [] []))).
Proof.
  apply (contact_form_accepted (Sample.store [] []) Sample.now 234 Sample.alice_form
           "TIX-1234" "created" "new" None).
  reflexivity.
Defined.

(* ------------------------------------------------------------------ *)
(** ** Ticket routes *)
(* ------------------------------------------------------------------ *)

Lemma update_where_none {A : Type} (sel : A -> bool) (f : A -> A) (l : list A) :
  (forall x, In x l -> sel x = false) -> update_where sel f l = l.
Proof.
  intros H. unfold update_where. induction l as [|a l IH]; simpl; [reflexivity|].
  rewrite (H a (or_introl eq_refl)). f_equal. apply IH. intros x I. apply H. now right.
Qed.

Lemma with_tickets_same (s : Store) : with_tickets s (tickets s) = s.
Proof. now destruct s. Qed.

(** The status route refuses every status but open, pending, resolved and
    closed with a 400 that writes nothing.  Otherwise it answers success,
    gives the status to every ticket with the display id and to no other,
    and touches neither customers nor messages; for a display id no ticket
    has, it still answers success and the store is as before. *)
Theorem patch_status_effect (s : Store) (now : Time) (ticketId status : string) :
  match snd (patch_status s now ticketId status) with
  | BadRequest _ =>
      ~ In status ["open"; "pending"; "resolved"; "closed"]
      /\ fst (patch_status s now ticketId status) = s
  | Success =>
      exists st,
        parse_status status = Some st
        /\ In status ["open"; "pending"; "resolved"; "closed"]
        /\ map Ticket.id (tickets (fst (patch_status s now ticketId status)))
           = map Ticket.id (tickets s)
        /\ map Ticket.customer_id (tickets (fst (patch_status s now ticketId status)))
           = map Ticket.customer_id (tickets s)
        /\ (forall t, In t (tickets (fst (patch_status s now ticketId status))) ->
                      Ticket.ticket_id t = ticketId ->
                      Ticket.status t = st /\ Ticket.updated_at t = now)
        /\ (forall t, In t (tickets s) -> Ticket.ticket_id t <> ticketId ->
                      In t (tickets (fst (patch_status s now ticketId status))))
        /\ customers (fst (patch_status s now ticketId status)) = customers s
        /\ messages (fst (patch_status s now ticketId status)) = messages s
        /\ ((forall t, In t (tickets s) -> Ticket.ticket_id t <> ticketId) ->
            fst (patch_status s now ticketId status) = s)
  | _ => False
  end.
Proof.
  unfold patch_status.
  destruct (parse_status status) as [st|] eqn:P.
  - simpl. exists st.
    assert (I : In status ["open"; "pending"; "resolved"; "closed"]).
    { unfold parse_status in P. simpl.
      destruct (String.eqb_spec status "open"); [auto|].
      destruct (String.eqb_spec status "pending"); [auto|].
      destruct (String.eqb_spec status "resolved"); [auto|].
      destruct (String.eqb_spec status "closed"); [auto 6|discriminate]. }
    repeat split; auto.
    + now apply map_update_where.
    + now apply map_update_where.
    + apply in_update_where in H as (r & Ir & ->).
      destruct (String.eqb_spec (Ticket.ticket_id r) ticketId) as [E|N]; [reflexivity|].
      contradiction.
    + apply in_update_where in H as (r & Ir & ->).
      destruct (String.eqb_spec (Ticket.ticket_id r) ticketId) as [E|N]; [reflexivity|].
      contradiction.
    + intros t It N. apply in_update_where. exists t. split; [exact It|].
      apply String.eqb_neq in N. now rewrite N.
    + intros H. rewrite update_where_none; [apply with_tickets_same|].
      intros t It. apply String.eqb_neq. now apply H.
  - simpl. split; [|reflexivity].
    unfold parse_status in P. intros [E|[E|[E|[E|[]]]]]; subst status; discriminate.
Qed.

(** The reply route answers 400 for an empty reply and 404 unless exactly
    one ticket has the display id, writing nothing in both cases.  Otherwise
    it appends one agent message to that ticket and touches no ticket's
    status, owner or tags: a reply does not reopen a ticket. *)
Theorem post_reply_effect (s : Store) (now : Time) (ticketId : string)
    (content sender_name : option string) :
  match snd (post_reply s now ticketId content sender_name) with
  | BadRequest _ =>
      truthy_opt content = false
      /\ fst (post_reply s now ticketId content sender_name) = s
  | NotFound _ =>
      List.length (filter (fun r => (Ticket.ticket_id r =? ticketId)%string) (tickets s))
      <> 1
      /\ fst (post_reply s now ticketId content sender_name) = s
  | Success =>
      exists t,
        filter (fun r => (Ticket.ticket_id r =? ticketId)%string) (tickets s) = [t]
        /\ messages (fst (post_reply s now ticketId content sender_name))
           = messages s
             ++ [plain_message FromAgent
                   (match sender_name with Some n => n | None => "Lauren" end)
                   (or_empty content) (Ticket.id t)]
        /\ map (fun r => (Ticket.id r, Ticket.ticket_id r, Ticket.customer_id r,
                          Ticket.status r, Ticket.ai_tags r))
             (tickets (fst (post_reply s now ticketId content sender_name)))
           = map (fun r => (Ticket.id r, Ticket.ticket_id r, Ticket.customer_id r,
                            Ticket.status r, Ticket.ai_tags r))
               (tickets s)
        /\ customers (fst (post_reply s now ticketId content sender_name)) = customers s
  | _ => False
  end.
Proof.
  unfold post_reply.
  destruct (truthy_opt content); simpl; [|auto].
  destruct (single _) as [t|] eqn:S; simpl.
  - apply single_some in S. exists t. repeat split; auto.
    now apply map_update_where.
  - split; [|reflexivity].
    destruct (filter _ (tickets s)) as [|a [|b r]]; simpl in *; try discriminate; lia.
Qed.

Lemma single_two {A : Type} (p : A -> bool) (l : list A) (x y : A) :
  In x l -> In y l -> x <> y -> p x = true -> p y = true ->
  single (filter p l) = None.
Proof.
  intros Ix Iy D Px Py.
  destruct (single (filter p l)) as [z|] eqn:S; [|reflexivity].
  apply single_some in S.
  assert (Fx : In x (filter p l)) by (apply filter_In; auto).
  assert (Fy : In y (filter p l)) by (apply filter_In; auto).
  rewrite S in Fx, Fy. destruct Fx as [<-|[]]. destruct Fy as [<-|[]].
  now contradiction D.
Qed.

(** Display ids are drawn at random and never checked.  When two tickets
    share one, no reply can be posted under it (404, nothing written), while
    a status change under it hits both tickets. *)
Theorem shared_display_id (s : Store) (now : Time) (ticketId : string)
    (t1 t2 : Ticket.t) (content sender_name : option string)
    (status : string) (st : Status) :
  In t1 (tickets s) -> In t2 (tickets s) ->
  Ticket.id t1 <> Ticket.id t2 ->
  Ticket.ticket_id t1 = ticketId -> Ticket.ticket_id t2 = ticketId ->
  truthy_opt content = true ->
  parse_status status = Some st ->
  post_reply s now ticketId content sender_name = (s, NotFound "Ticket not found")
  /\ exists t1' t2',
       In t1' (tickets (fst (patch_status s now ticketId status)))
       /\ In t2' (tickets (fst (patch_status s now ticketId status)))
       /\ Ticket.id t1' = Ticket.id t1 /\ Ticket.id t2' = Ticket.id t2
       /\ Ticket.status t1' = st /\ Ticket.status t2' = st.
Proof.
  intros I1 I2 D E1 E2 C P. split.
  - unfold post_reply. rewrite C. simpl.
    rewrite (single_two _ (tickets s) t1 t2 I1 I2); auto.
    + congruence.
    + rewrite E1. apply String.eqb_refl.
    + rewrite E2. apply String.eqb_refl.
  - unfold patch_status. rewrite P. simpl.
    set (u := {| Ticket.set_customer_id := None; Ticket.set_ai_tags := None;
                 Ticket.set_status := Some st; Ticket.set_updated_at := Some now |}).
    exists (Ticket.apply u t1), (Ticket.apply u t2). repeat split.
    + apply in_update_where. exists t1. split; [exact I1|].
      now rewrite E1, String.eqb_refl.
    + apply in_update_where. exists t2. split; [exact I2|].
      now rewrite E2, String.eqb_refl.
Qed.

Lemma shared_display_id_witness :
  post_reply twin_store Sample.now "TIX-1234" (Some "On it") None
  = (twin_store, NotFound "Ticket not found")
  /\ map (fun t => (Ticket.id t, Ticket.ticket_id t, Ticket.status t))
       (tickets (fst (patch_status twin_store Sample.now "TIX-1234" "closed")))
     = [(1, "TIX-1234", Closed); (2, "TIX-1234", Closed)].
Proof.
  split; [|vm_compute; reflexivity].
  apply (shared_display_id twin_store Sample.now "TIX-1234"
           (nth 0 (tickets twin_store) Sample.first_ticket)
           (nth 1 (tickets twin_store) Sample.first_ticket)
           (Some "On it") None "closed" Closed).
  - vm_compute. left. reflexivity.
  - vm_compute. right. left. reflexivity.
  - vm_compute. discriminate.
  - reflexivity.
  - reflexivity.
  - reflexivity.
  - reflexivity.
Defined.

(* ------------------------------------------------------------------ *)
(** ** Display ids *)
(* ------------------------------------------------------------------ *)

Lemma generateTicketId_inj (a b : nat) :
  generateTicketId a = generateTicketId b -> a = b.
Proof.
  unfold generateTicketId. simpl. intros H. injection H as H.
  assert (E : Nat.to_uint (a + 1000) = Nat.to_uint (b + 1000)).
  { pose proof (NilEmpty.usu (Nat.to_uint (a + 1000))) as Ua.
    pose proof (NilEmpty.usu (Nat.to_uint (b + 1000))) as Ub.
    rewrite H in Ua. rewrite Ua in Ub. now inversion Ub. }
  apply (f_equal Nat.of_uint) in E. rewrite !Unsigned.of_to in E. lia.
Qed.

(** For every draw below 9000 the display id is "TIX-" and four digits,
    and different draws give different ids: there are 9000 display ids. *)
Theorem generateTicketId_format (rnd rnd' : nat) :
  rnd < 9 * 1000 ->
  well_formed_ticket_id (generateTicketId rnd) = true
  /\ (generateTicketId rnd = generateTicketId rnd' -> rnd = rnd').
Proof.
  intros H. split; [|apply generateTicketId_inj].
  assert (A : forallb (fun n => well_formed_ticket_id (generateTicketId n)) (seq 0 (9 * 1000))
              = true) by (vm_compute; reflexivity).
  rewrite forallb_forall in A. apply A. apply in_seq. lia.
Qed.

Lemma generateTicketId_format_witness :
  well_formed_ticket_id (generateTicketId 4321) = true
  /\ (generateTicketId 4321 = generateTicketId 0 -> 4321 = 0).
Proof.
  apply (generateTicketId_format 4321 0). lia.
Defined.

(* ------------------------------------------------------------------ *)
(** ** Merge: refusals, repetition, conservation *)
(* ------------------------------------------------------------------ *)

Lemma find_customer_after_merge s now pid sid primary secondary :
  pid <> sid ->
  find_customer s pid = Some primary ->
  find_customer s sid = Some secondary ->
  find_customer (fst (merge s now (Some pid) (Some sid))) sid = None.
Proof.
  intros D P S. rewrite (merge_found s now pid sid primary secondary D P S).
  unfold find_customer. cbn [fst customers delete_customer with_customers].
  now rewrite filter_delete_same.
Qed.

(** A merge cannot be repeated: once the secondary is merged away, any
    further merge that names it, on either side, is refused (404, or 400 when
    it is named on both sides) and writes nothing. *)
Theorem merge_again_refused (s : Store) (now now' : Time) (pid sid other : Id)
    (primary secondary : Customer.t) :
  pid <> sid ->
  find_customer s pid = Some primary ->
  find_customer s sid = Some secondary ->
  merge (fst (merge s now (Some pid) (Some sid))) now' (Some pid) (Some sid)
  = (fst (merge s now (Some pid) (Some sid)), NotFound "One or both customers not found")
  /\ fst (merge (fst (merge s now (Some pid) (Some sid))) now' (Some other) (Some sid))
     = fst (merge s now (Some pid) (Some sid))
  /\ fst (merge (fst (merge s now (Some pid) (Some sid))) now' (Some sid) (Some other))
     = fst (merge s now (Some pid) (Some sid))
  /\ http_status
       (snd (merge (fst (merge s now (Some pid) (Some sid))) now' (Some other) (Some sid)))
     <> 200
  /\ http_status
       (snd (merge (fst (merge s now (Some pid) (Some sid))) now' (Some sid) (Some other)))
     <> 200.
Proof.
  intros D P S.
  pose proof (find_customer_after_merge s now pid sid primary secondary D P S) as G.
  set (s' := fst (merge s now (Some pid) (Some sid))) in *.
  assert (R : forall x, merge s' now' (Some x) (Some sid)
                        = (s', if x =? sid
                               then BadRequest "Cannot merge customer with themselves"
                               else NotFound "One or both customers not found")).
  { intros x. unfold merge, merge_with. destruct (x =? sid); [reflexivity|].
    rewrite G. now destruct (find_customer s' x). }
  assert (L : forall x, merge s' now' (Some sid) (Some x)
                        = (s', if sid =? x
                               then BadRequest "Cannot merge customer with themselves"
                               else NotFound "One or both customers not found")).
  { intros x. unfold merge, merge_with. destruct (sid =? x); [reflexivity|].
    now rewrite G. }
  repeat split.
  - rewrite R. apply Nat.eqb_neq in D. now rewrite D.
  - now rewrite R.
  - now rewrite L.
  - rewrite R. destruct (other =? sid); discriminate.
  - rewrite L. destruct (sid =? other); discriminate.
Qed.

Lemma merge_again_refused_witness :
  merge (fst (merge MergeSample.before Sample.now (Some 1) (Some 2)))
    (Sample.now + 1)%Z (Some 1) (Some 2)
  = (fst (merge MergeSample.before Sample.now (Some 1) (Some 2)),
     NotFound "One or both customers not found").
Proof.
  apply (merge_again_refused MergeSample.before Sample.now (Sample.now + 1)%Z 1 2 1
           Sample.alice Sample.alicia).
  - discriminate.
  - reflexivity.
  - reflexivity.
Defined.

Lemma length_delete_where {A : Type} (p : A -> bool) (l : list A) :
  List.length (delete_where p l) + List.length (filter p l) = List.length l.
Proof.
  unfold delete_where. induction l as [|a l IH]; simpl; [reflexivity|].
  destruct (p a); simpl; lia.
Qed.

(** A merge removes exactly one customer row and no ticket or message:
    every ticket keeps its id, display id, status and tags, the messages are
    untouched, and a customer that is neither of the two and does not point
    at the secondary is left as it was. *)
Theorem merge_conserves (s : Store) (now : Time) (pid sid : Id)
    (primary secondary : Customer.t) :
  pid <> sid ->
  find_customer s pid = Some primary ->
  find_customer s sid = Some secondary ->
  S (List.length (customers (fst (merge s now (Some pid) (Some sid)))))
  = List.length (customers s)
  /\ map (fun t => (Ticket.id t, Ticket.ticket_id t, Ticket.status t, Ticket.ai_tags t,
                    Ticket.updated_at t))
       (tickets (fst (merge s now (Some pid) (Some sid))))
     = map (fun t => (Ticket.id t, Ticket.ticket_id t, Ticket.status t, Ticket.ai_tags t,
                      Ticket.updated_at t))
         (tickets s)
  /\ messages (fst (merge s now (Some pid) (Some sid))) = messages s
  /\ (forall c, In c (customers s) ->
                Customer.id c <> pid -> Customer.id c <> sid ->
                Customer.possible_duplicate_of c <> Some sid ->
                In c (customers (fst (merge s now (Some pid) (Some sid)))))
  /\ (forall c, In c (customers s) ->
                Customer.id c <> pid -> Customer.id c <> sid ->
                exists c', In c' (customers (fst (merge s now (Some pid) (Some sid))))
                           /\ Customer.id c' = Customer.id c
                           /\ Customer.ticket_count c' = Customer.ticket_count c
                           /\ Customer.tags c' = Customer.tags c
                           /\ Customer.email c' = Customer.email c).
Proof.
  intros D P S.
  rewrite (merge_found s now pid sid primary secondary D P S).
  cbn [fst customers tickets messages delete_customer clear_references update_customer
         move_tickets with_customers with_tickets].
  set (l1 := update_where (fun r => Customer.id r =? pid)
               (Customer.apply (merge_updates now primary secondary)) (customers s)).
  set (l2 := update_where (points_at sid) (Customer.apply clear_patch) l1).
  repeat split.
  - pose proof (length_delete_where (fun r => Customer.id r =? sid) l2) as L.
    assert (F : List.length (filter (fun r => Customer.id r =? sid) l2) = 1).
    { unfold l2, l1. rewrite !filter_update_where by (intros r; reflexivity).
      rewrite !length_update_where.
      unfold find_customer in S. apply single_some in S. now rewrite S. }
    assert (E : List.length l2 = List.length (customers s)).
    { unfold l2, l1. now rewrite !length_update_where. }
    lia.
  - rewrite map_update_where; reflexivity.
  - intros c I Np Ns Nd. unfold delete_where. apply filter_In. split.
    + unfold l2. apply in_update_where. exists c. split.
      * unfold l1. apply in_update_where. exists c. split; [exact I|].
        apply Nat.eqb_neq in Np. now rewrite Np.
      * unfold points_at. destruct (Customer.possible_duplicate_of c) as [d|];
          [|reflexivity].
        destruct (Nat.eqb_spec d sid) as [->|]; [now contradiction Nd | reflexivity].
    + apply negb_true_iff. now apply Nat.eqb_neq.
  - intros c I Np Ns.
    exists (if points_at sid c then Customer.apply clear_patch c else c). split.
    + unfold delete_where. apply filter_In. split.
      * unfold l2. apply in_update_where. exists c. split; [|reflexivity].
        unfold l1. apply in_update_where. exists c. split; [exact I|].
        apply Nat.eqb_neq in Np. now rewrite Np.
      * apply negb_true_iff. apply Nat.eqb_neq.
        now destruct (points_at sid c).
    + destruct (points_at sid c); repeat split.
Qed.

Lemma merge_conserves_witness :
  S (List.length (customers (fst (merge MergeSample.before Sample.now (Some 1) (Some 2)))))
  = List.length (customers MergeSample.before)
  /\ messages (fst (merge MergeSample.before Sample.now (Some 1) (Some 2)))
     = messages MergeSample.before.
Proof.
  destruct (merge_conserves MergeSample.before Sample.now 1 2 Sample.alice Sample.alicia)
    as (L & _ & M & _).
  - discriminate.
  - reflexivity.
  - reflexivity.
  - split; [exact L | exact M].
Defined.

(** The [ticketsMoved] of the response is the secondary's ticket count, not
    the number of tickets reassigned: in a store that keeps the count
    invariant it is an upper bound of that number. *)
Theorem merge_tickets_moved (s : Store) (now : Time) (pid sid : Id)
    (primary secondary : Customer.t) :
  counts_cover s ->
  pid <> sid ->
  find_customer s pid = Some primary ->
  find_customer s sid = Some secondary ->
  exists p q moved,
    snd (merge s now (Some pid) (Some sid)) = Merged p q moved
    /\ moved = Customer.ticket_count secondary
    /\ owned (fst (merge s now (Some pid) (Some sid))) pid - owned s pid = owned s sid
    /\ owned s sid <= moved.
Proof.
  intros (Hc & _) D P S.
  rewrite (merge_found s now pid sid primary secondary D P S). cbn [fst snd].
  destruct (find_customer_in s sid secondary S) as (IS & ES).
  exists (duplicate_of primary), (duplicate_of secondary), (Customer.ticket_count secondary).
  repeat split.
  - unfold owned.
    cbn [tickets delete_customer clear_references update_customer move_tickets
           with_customers with_tickets].
    rewrite (owned_after_move pid sid pid (tickets s) D), Nat.eqb_refl.
    apply Nat.eqb_neq in D. rewrite D. lia.
  - rewrite <- ES. now apply Hc.
Qed.

Lemma merge_tickets_moved_witness :
  exists p q moved,
    snd (merge chatty_store Sample.now (Some 2) (Some 1)) = Merged p q moved
    /\ moved = 2
    /\ owned (fst (merge chatty_store Sample.now (Some 2) (Some 1))) 2
       - owned chatty_store 2 = 1
    /\ owned chatty_store 1 <= moved.
Proof.
  destruct (merge_tickets_moved chatty_store Sample.now 2 1
              (nth 1 (customers chatty_store) Sample.alice)
              (nth 0 (customers chatty_store) Sample.alice))
    as (p & q & moved & R & M & O & B).
  - apply run_all_cover, counts_cover_empty.
  - discriminate.
  - reflexivity.
  - reflexivity.
  - exists p, q, moved.
    split; [exact R|]. split; [rewrite M; reflexivity|].
    split; [etransitivity; [exact O | reflexivity] | exact B].
Defined.

(* ------------------------------------------------------------------ *)
(** ** Referential integrity of reachable stores *)
(* ------------------------------------------------------------------ *)

Lemma integrity_empty (uq : bool) : integrity (empty_store uq).
Proof. split; simpl; try constructor; intros; contradiction. Qed.

Lemma NoDup_map_filter {A B : Type} (g : A -> B) (p : A -> bool) (l : list A) :
  NoDup (map g l) -> NoDup (map g (filter p l)).
Proof.
  induction l as [|a l IH]; simpl; intros H; [constructor|].
  inversion H as [|x r N D]; subst.
  destruct (p a); simpl; [|now apply IH].
  constructor; [|now apply IH].
  intros I. apply N. apply in_map_iff in I as (y & E & Iy).
  apply filter_In in Iy as (Iy & _). apply in_map_iff. eauto.
Qed.

Lemma NoDup_snoc {A : Type} (l : list A) (x : A) :
  NoDup l -> ~ In x l -> NoDup (l ++ [x]).
Proof.
  intros D N. apply NoDup_app; [exact D | repeat constructor; intros [] |].
  intros y I [<-|[]]. contradiction.
Qed.

Lemma fresh_not_in (ids : list nat) (n : nat) :
  (forall x, In x ids -> x < n) -> ~ In n ids.
Proof. intros H I. specialize (H n I). lia. Qed.

Lemma integrity_update_customers s s' sel u :
  pointer_safe u ->
  customers s' = update_where sel (Customer.apply u) (customers s) ->
  tickets s' = tickets s -> messages s' = messages s ->
  next_customer_id s' = next_customer_id s -> next_ticket_id s' = next_ticket_id s ->
  unique_email s' = unique_email s ->
  integrity s -> integrity s'.
Proof.
  intros Pu Ec Et Em En1 En2 Eu [I1 I2 I3 I4 I5 I6 I7 I8].
  assert (Mid : map Customer.id (customers s') = map Customer.id (customers s)).
  { rewrite Ec. now apply map_update_where. }
  assert (Mem : map Customer.email (customers s') = map Customer.email (customers s)).
  { rewrite Ec. now apply map_update_where. }
  split; rewrite ?Mid, ?Mem, ?Et, ?Em, ?En1, ?En2, ?Eu; auto.
  - intros c I. rewrite Ec in I. apply in_update_where in I as (r & Ir & ->).
    destruct (sel r); [rewrite customer_apply_id|]; now apply I2.
  - intros c d I P. rewrite Ec in I. apply in_update_where in I as (r & Ir & ->).
    destruct (sel r); [|now apply I7].
    rewrite customer_apply_id. apply I7; [exact Ir|].
    simpl in P. destruct Pu as [Pu|Pu]; rewrite Pu in P; simpl in P;
      [exact P | discriminate].
Qed.

Lemma integrity_update_tickets s s' sel u :
  Ticket.set_customer_id u = None ->
  tickets s' = update_where sel (Ticket.apply u) (tickets s) ->
  customers s' = customers s -> messages s' = messages s ->
  next_customer_id s' = next_customer_id s -> next_ticket_id s' = next_ticket_id s ->
  unique_email s' = unique_email s ->
  integrity s -> integrity s'.
Proof.
  intros Pu Et Ec Em En1 En2 Eu [I1 I2 I3 I4 I5 I6 I7 I8].
  assert (Mid : map Ticket.id (tickets s') = map Ticket.id (tickets s)).
  { rewrite Et. now apply map_update_where. }
  split; rewrite ?Mid, ?Ec, ?Em, ?En1, ?En2, ?Eu; auto.
  - intros t I. rewrite Et in I. apply in_update_where in I as (r & Ir & ->).
    destruct (sel r); [rewrite ticket_apply_id|]; now apply I4.
  - intros t I. rewrite Et in I. apply in_update_where in I as (r & Ir & ->).
    destruct (sel r); [|now apply I5].
    simpl. rewrite Pu. simpl. now apply I5.
Qed.

Lemma integrity_insert_message s m :
  In (Message.ticket_id m) (map Ticket.id (tickets s)) ->
  integrity s -> integrity (insert_message m s).
Proof.
  intros Hm [I1 I2 I3 I4 I5 I6 I7 I8]. split; simpl; auto.
  intros m' I. apply in_app_or in I as [I|[<-|[]]]; auto.
Qed.

Lemma integrity_insert_ticket s row_of :
  Ticket.id (row_of (next_ticket_id s)) = next_ticket_id s ->
  In (Ticket.customer_id (row_of (next_ticket_id s))) (map Customer.id (customers s)) ->
  integrity s -> integrity (fst (insert_ticket row_of s)).
Proof.
  intros Eid Ho [I1 I2 I3 I4 I5 I6 I7 I8]. split; simpl; auto.
  - rewrite map_app. simpl. apply NoDup_snoc; [exact I3|].
    rewrite Eid. apply fresh_not_in. intros x I.
    apply in_map_iff in I as (t & <- & It). now apply I4.
  - intros t I. apply in_app_or in I as [I|[<-|[]]].
    + specialize (I4 t I). lia.
    + rewrite Eid. lia.
  - intros t I. apply in_app_or in I as [I|[<-|[]]]; auto.
  - intros m I. rewrite map_app. apply in_or_app. left. now apply I6.
Qed.

Lemma integrity_insert_customer s row_of s1 row :
  Customer.id (row_of (next_customer_id s)) = next_customer_id s ->
  (forall d, Customer.possible_duplicate_of (row_of (next_customer_id s)) = Some d ->
             In d (map Customer.id (customers s))) ->
  insert_customer row_of s = (s1, inr row) ->
  integrity s ->
  integrity s1 /\ In (Customer.id row) (map Customer.id (customers s1)).
Proof.
  intros Eid Hd Ins [I1 I2 I3 I4 I5 I6 I7 I8]. unfold insert_customer in Ins.
  destruct (unique_email s && _) eqn:U; [discriminate|].
  inversion Ins; subst s1 row; clear Ins.
  set (row := row_of (next_customer_id s)) in *.
  assert (Hb : forall x, In x (map Customer.id (customers s)) -> x < next_customer_id s).
  { intros x I. apply in_map_iff in I as (c & <- & Ic). now apply I2. }
  split; [split|]; simpl; auto.
  - rewrite map_app. simpl. apply NoDup_snoc; [exact I1|].
    rewrite Eid. now apply fresh_not_in.
  - intros c I. apply in_app_or in I as [I|[<-|[]]].
    + specialize (I2 c I). lia.
    + rewrite Eid. lia.
  - intros t I. rewrite map_app. apply in_or_app. left. now apply I5.
  - intros c d I P. rewrite map_app. apply in_app_or in I as [I|[<-|[]]].
    + destruct (I7 c d I P) as (L & Id). split; [exact L|]. apply in_or_app. now left.
    + specialize (Hd d P). split; [rewrite Eid; now apply Hb|].
      apply in_or_app. now left.
  - intros Uq. rewrite Uq in U. simpl in U.
    rewrite map_app. simpl. apply NoDup_snoc; [now apply I8|].
    intros I. apply in_map_iff in I as (c & E & Ic).
    assert (X : existsb (fun c0 => (Customer.email c0 =? Customer.email row)%string)
                  (customers s) = true).
    { apply existsb_exists. exists c. split; [exact Ic|]. now apply String.eqb_eq. }
    congruence.
  - rewrite map_app. apply in_or_app. right. now left.
Qed.

Lemma pointer_safe_email now phone fullName b : pointer_safe (email_updates now phone fullName b).
Proof. now left. Qed.

Lemma pointer_safe_phone now email b : pointer_safe (phone_updates now email b).
Proof. now left. Qed.

Lemma integrity_resolve s now email phone fullName s1 r :
  integrity s ->
  findOrCreateCustomer s now email phone fullName = (s1, inr r) ->
  integrity s1 /\ In (Customer.id (customer r)) (map Customer.id (customers s1)).
Proof.
  intros H. unfold findOrCreateCustomer.
  pose proof (resolve_read_in s email phone fullName) as I.
  destruct (resolve_read s email phone fullName) as [b|b|b|] eqn:Rd; simpl.
  - intros E. inversion E; subst s1 r; clear E. split.
    + eapply (integrity_update_customers s); try reflexivity; [|exact H].
      apply pointer_safe_email.
    + simpl. rewrite map_update_where by reflexivity. now apply in_map.
  - intros E. inversion E; subst s1 r; clear E. split.
    + eapply (integrity_update_customers s); try reflexivity; [|exact H].
      apply pointer_safe_phone.
    + simpl. rewrite map_update_where by reflexivity. now apply in_map.
  - destruct (insert_customer _ s) as [s' [e|row]] eqn:Ins; [discriminate|].
    intros E. inversion E; subst s1 r; clear E. simpl.
    eapply integrity_insert_customer; [| | exact Ins | exact H]; [reflexivity|].
    simpl. intros d Ed. inversion Ed; subst d. apply in_map.
    unfold resolve_read in Rd.
    destruct (email_tier s email); [discriminate|].
    destruct (phone_tier s phone); [discriminate|].
    destruct (name_tier s fullName) as [b'|] eqn:N; [|discriminate].
    inversion Rd; subst b'. now apply name_tier_in in N.
  - destruct (insert_customer _ s) as [s' [e|row]] eqn:Ins; [discriminate|].
    intros E. inversion E; subst s1 r; clear E. simpl.
    eapply integrity_insert_customer; [| | exact Ins | exact H]; [reflexivity|].
    simpl. discriminate.
Qed.

Lemma integrity_follow_up s cm (extra : list Message.t) t now autoTags :
  In t (tickets s) ->
  Message.ticket_id cm = Ticket.id t ->
  (forall m, In m extra -> Message.ticket_id m = Ticket.id t) ->
  integrity s ->
  integrity
    (update_ticket (Ticket.id t) (follow_up_patch now (Ticket.ai_tags t) autoTags)
       (fold_left (fun st m => insert_message m st) (cm :: extra) s)).
Proof.
  intros It Ec Ee H.
  assert (G : forall l st,
             (forall m, In m l -> Message.ticket_id m = Ticket.id t) ->
             tickets st = tickets s -> integrity st ->
             integrity (fold_left (fun st m => insert_message m st) l st)
             /\ tickets (fold_left (fun st m => insert_message m st) l st) = tickets s).
  { induction l as [|m l IH]; intros st Hl Et Hs; simpl; [auto|].
    apply IH.
    - intros m' I. apply Hl. now right.
    - exact Et.
    - apply integrity_insert_message; [|exact Hs].
      rewrite Et, (Hl m (or_introl eq_refl)). now apply in_map. }
  destruct (G (cm :: extra) s) as (Hi & Et); auto.
  { intros m [<-|I]; auto. }
  eapply integrity_update_tickets; cycle 1; [reflexivity .. | exact Hi | reflexivity].
Qed.

Lemma integrity_route s now rnd f fullName message autoTags cid :
  integrity s ->
  In cid (map Customer.id (customers s)) ->
  integrity (fst (fst (route s now rnd f fullName message autoTags cid))).
Proof.
  intros H Ic.
  destruct (route_cases s now rnd f fullName message autoTags cid)
    as [t Eo|t Eo Ec W|Eo W]; cbn [fst].
  - unfold findOpenTicketForCustomer in Eo. apply latest_in in Eo.
    apply filter_In in Eo as (It & _).
    apply (integrity_follow_up s
             (customer_message f now fullName message Message.Threaded (Ticket.id t)) []
             t now autoTags It eq_refl); [intros m []|exact H].
  - unfold findRecentClosed in Ec. apply latest_in in Ec.
    apply filter_In in Ec as (It & _).
    apply (integrity_follow_up s
             (customer_message f now fullName message Message.Reopened (Ticket.id t))
             [plain_message FromSystem "System"
                "Ticket reopened - customer sent a follow-up message." (Ticket.id t)]
             t now autoTags It eq_refl); [|exact H].
    intros m [<-|[]]. reflexivity.
  - unfold create_ticket.
    pose proof (integrity_insert_ticket s
                  (new_ticket now (generateTicketId rnd) cid f message fullName autoTags)
                  eq_refl Ic H) as H1.
    destruct (insert_ticket _ s) as [s1 ticket] eqn:Ins. cbn [fst] in *.
    assert (Et : In (Ticket.id ticket) (map Ticket.id (tickets s1))).
    { unfold insert_ticket in Ins. inversion Ins; subst. simpl.
      rewrite map_app. apply in_or_app. right. now left. }
    apply integrity_insert_message; [exact Et|].
    apply integrity_insert_message; [exact Et|exact H1].
Qed.

Lemma integrity_contact_form s now rnd f :
  integrity s -> integrity (fst (contact_form s now rnd f)).
Proof.
  intros H. unfold contact_form.
  destruct (form_ok f) eqn:V; [|now rewrite contact_form_rejected].
  destruct (form_tags f) as [e|autoTags] eqn:T.
  { now rewrite (contact_form_unclassified s s now rnd f e V T). }
  rewrite (contact_form_interleaved_ok s s now rnd f autoTags V T).
  pose proof (integrity_resolve s now (or_empty (Form.email f)) (Form.phone f)
                (form_fullName f)) as R.
  pose proof (resolve_write_error
                (resolve_read s (or_empty (Form.email f)) (Form.phone f) (form_fullName f))
                s now (or_empty (Form.email f)) (Form.phone f) (form_fullName f)) as E.
  unfold findOrCreateCustomer in R.
  destruct (resolve_write _ s now _ _ _) as [s1 [e|r]].
  - simpl. now rewrite (E s1 e eq_refl).
  - destruct (R s1 r H eq_refl) as (H1 & I1).
    pose proof (integrity_route s1 now rnd f (form_fullName f) (or_empty (Form.message f))
                  autoTags (Customer.id (customer r)) H1 I1) as K.
    destruct (route s1 now rnd f _ _ _ _) as [[s2 tid] ot]. exact K.
Qed.

Lemma integrity_post_reply s now ticketId content sender_name :
  integrity s -> integrity (fst (post_reply s now ticketId content sender_name)).
Proof.
  intros H. unfold post_reply.
  destruct (negb (truthy_opt content)); [exact H|].
  destruct (single _) as [ticket|] eqn:S; [|exact H]. cbn [fst].
  apply single_some in S. apply filter_singleton_in in S as (It & _).
  eapply integrity_update_tickets; cycle 1; [reflexivity .. | | reflexivity].
  apply integrity_insert_message; [|exact H]. simpl. now apply in_map.
Qed.

Lemma integrity_patch_status s now ticketId status :
  integrity s -> integrity (fst (patch_status s now ticketId status)).
Proof.
  intros H. unfold patch_status.
  destruct (parse_status status) as [st|]; [|exact H]. cbn [fst].
  eapply (integrity_update_tickets s); cycle 1; [reflexivity .. | exact H | reflexivity].
Qed.

Lemma in_ids_delete (l : list Customer.t) (sid x : Id) :
  In x (map Customer.id (delete_where (fun r => Customer.id r =? sid) l))
  <-> In x (map Customer.id l) /\ x <> sid.
Proof.
  unfold delete_where. rewrite !in_map_iff. split.
  - intros (c & E & I). apply filter_In in I as (I & N).
    apply negb_true_iff, Nat.eqb_neq in N. split; [eauto | congruence].
  - intros ((c & E & I) & N). exists c. split; [exact E|].
    apply filter_In. split; [exact I|]. apply negb_true_iff, Nat.eqb_neq. congruence.
Qed.

Lemma integrity_merge s now primary_id secondary_id :
  integrity s -> integrity (fst (merge s now primary_id secondary_id)).
Proof.
  intros H.
  destruct primary_id as [pid|]; [|exact H].
  destruct secondary_id as [sid|]; [|exact H].
  destruct (Nat.eqb_spec pid sid) as [E|D].
  { unfold merge, merge_with. apply Nat.eqb_eq in E. rewrite E. exact H. }
  destruct (find_customer s pid) as [primary|] eqn:P.
  2:{ unfold merge, merge_with. apply Nat.eqb_neq in D. rewrite D, P. exact H. }
  destruct (find_customer s sid) as [secondary|] eqn:S.
  2:{ unfold merge, merge_with. apply Nat.eqb_neq in D. rewrite D, P, S. exact H. }
  rewrite (merge_found s now pid sid primary secondary D P S). cbn [fst].
  destruct (find_customer_in s pid primary P) as (IP & EP).
  (* the three customer updates and the move, one by one *)
  assert (H1 : integrity (move_tickets pid sid s)).
  { destruct H as [I1 I2 I3 I4 I5 I6 I7 I8].
    assert (Mid : map Ticket.id (tickets (move_tickets pid sid s))
                  = map Ticket.id (tickets s)).
    { simpl. now apply map_update_where. }
    split; rewrite ?Mid; auto.
    - intros t I. simpl in I. apply in_update_where in I as (r & Ir & ->).
      destruct (owned_by sid r); [rewrite ticket_apply_id|]; now apply I4.
    - intros t I. simpl in I. apply in_update_where in I as (r & Ir & ->). simpl.
      destruct (owned_by sid r); [|now apply I5].
      simpl. rewrite <- EP. now apply in_map. }
  assert (H2 : integrity (update_customer pid (merge_updates now primary secondary)
                            (move_tickets pid sid s))).
  { eapply (integrity_update_customers _ _ _ _); try reflexivity; [|exact H1].
    now right. }
  assert (H3 : integrity (clear_references sid
                            (update_customer pid (merge_updates now primary secondary)
                               (move_tickets pid sid s)))).
  { eapply (integrity_update_customers _ _ _ clear_patch); try reflexivity; [|exact H2].
    now right. }
  set (s3 := clear_references sid
               (update_customer pid (merge_updates now primary secondary)
                  (move_tickets pid sid s))) in *.
  assert (NoPtr : forall c, In c (customers s3) ->
                            Customer.possible_duplicate_of c <> Some sid).
  { intros c I. simpl in I. apply in_update_where in I as (r & _ & ->).
    unfold points_at. destruct (Customer.possible_duplicate_of r) as [d|] eqn:Ed.
    - destruct (Nat.eqb_spec d sid) as [->|N]; simpl; [discriminate|].
      rewrite Ed. congruence.
    - rewrite Ed. discriminate. }
  assert (NoOwn : forall t, In t (tickets s3) -> Ticket.customer_id t <> sid).
  { intros t I. simpl in I. apply in_update_where in I as (r & _ & ->). unfold owned_by.
    destruct (Nat.eqb_spec (Ticket.customer_id r) sid); simpl; congruence. }
  destruct H3 as [I1 I2 I3 I4 I5 I6 I7 I8].
  split; auto.
  - simpl. unfold delete_where. apply NoDup_map_filter. exact I1.
  - intros c I. simpl in I. unfold delete_where in I. apply filter_In in I as (I & _).
    now apply I2.
  - intros t I. change (tickets (delete_customer sid s3)) with (tickets s3) in I.
    apply in_ids_delete. split; [now apply I5 | now apply NoOwn].
  - intros c d I Pd. simpl in I. unfold delete_where in I.
    apply filter_In in I as (I & _).
    destruct (I7 c d I Pd) as (L & Id). split; [exact L|].
    apply in_ids_delete. split; [exact Id|].
    intros ->. now apply (NoPtr c I).
  - intros U. simpl. unfold delete_where. apply NoDup_map_filter. now apply I8.
Qed.

Lemma integrity_run s op : integrity s -> integrity (fst (run s op)).
Proof.
  destruct op; simpl.
  - apply integrity_contact_form.
  - apply integrity_post_reply.
  - apply integrity_patch_status.
  - apply integrity_merge.
Qed.

Lemma integrity_run_all ops : forall s, integrity s -> integrity (run_all s ops).
Proof.
  unfold run_all. induction ops as [|op ops IH]; intros s H; simpl; [exact H|].
  apply IH, integrity_run, H.
Qed.

Lemma NoDup_map_inj {A B : Type} (g : A -> B) (l : list A) (x y : A) :
  NoDup (map g l) -> In x l -> In y l -> g x = g y -> x = y.
Proof.
  induction l as [|a l IH]; simpl; intros D Ix Iy E; [contradiction|].
  inversion D as [|? ? N D']; subst.
  destruct Ix as [<-|Ix], Iy as [<-|Iy]; auto.
  - exfalso. apply N. rewrite E. now apply in_map.
  - exfalso. apply N. rewrite <- E. now apply in_map.
Qed.

Lemma unique_email_resolve_write d s now email phone fullName :
  unique_email (fst (resolve_write d s now email phone fullName)) = unique_email s.
Proof.
  destruct d; simpl; auto; unfold insert_customer;
    destruct (unique_email s && _); reflexivity.
Qed.

Lemma unique_email_run s op : unique_email (fst (run s op)) = unique_email s.
Proof.
  destruct op as [now rnd f|now tid content sender|now tid status|now p q]; simpl.
  - unfold contact_form.
    destruct (form_ok f) eqn:V; [|now rewrite contact_form_rejected].
    destruct (form_tags f) as [e|autoTags] eqn:T.
    { now rewrite (contact_form_unclassified s s now rnd f e V T). }
    rewrite (contact_form_interleaved_ok s s now rnd f autoTags V T).
    pose proof (unique_email_resolve_write
                  (resolve_read s (or_empty (Form.email f)) (Form.phone f) (form_fullName f))
                  s now (or_empty (Form.email f)) (Form.phone f) (form_fullName f)) as K.
    destruct (resolve_write _ s now _ _ _) as [s1 [e|r]]; [exact K|]. simpl in K.
    rewrite <- K.
    destruct (route_cases s1 now rnd f (form_fullName f) (or_empty (Form.message f))
                autoTags (Customer.id (customer r))); reflexivity.
  - unfold post_reply. destruct (negb (truthy_opt content)); [reflexivity|].
    destruct (single _); reflexivity.
  - unfold patch_status. destruct (parse_status status); reflexivity.
  - unfold merge, merge_with.
    destruct p as [pid|]; [|reflexivity]. destruct q as [sid|]; [|reflexivity].
    destruct (pid =? sid); [reflexivity|].
    destruct (find_customer s pid); [|reflexivity].
    destruct (find_customer s sid); reflexivity.
Qed.

Lemma unique_email_run_all ops : forall s, unique_email (run_all s ops) = unique_email s.
Proof.
  unfold run_all. induction ops as [|op ops IH]; intros s; simpl; [reflexivity|].
  rewrite IH. apply unique_email_run.
Qed.

Lemma flagged_older s a b :
  integrity s -> clos_trans Id (flagged_as s) a b -> b < a.
Proof.
  intros H C. induction C as [a b (c & Ic & <- & P)|a m b _ L1 _ L2].
  - now apply (pointers_sound s H c b Ic P).
  - lia.
Qed.

(** In every store the routes build from an empty one, a possible-duplicate
    pointer refers to an existing customer other than its holder, and
    following pointers never leads back to where one started. *)
Theorem duplicate_pointers_sound (uq : bool) (ops : list Op) :
  (forall c d,
      In c (customers (run_all (empty_store uq) ops)) ->
      Customer.possible_duplicate_of c = Some d ->
      d <> Customer.id c
      /\ exists c', In c' (customers (run_all (empty_store uq) ops))
                    /\ Customer.id c' = d)
  /\ (forall a, ~ clos_trans Id (flagged_as (run_all (empty_store uq) ops)) a a).
Proof.
  pose proof (integrity_run_all ops (empty_store uq) (integrity_empty uq)) as H.
  split.
  - intros c d Ic P. destruct (pointers_sound _ H c d Ic P) as (L & Id).
    split; [lia|]. apply in_map_iff in Id as (c' & E & Ic'). eauto.
  - intros a C. apply (flagged_older _ a a H) in C. lia.
Qed.

(** In every store the routes build from an empty one, one request after
    the other, customer ids and ticket ids are unique, every message belongs
    to a ticket of the store, and, when the store enforces the constraint, no
    two customers share a primary email. *)
Theorem reachable_keys_unique (uq : bool) (ops : list Op) :
  NoDup (map Customer.id (customers (run_all (empty_store uq) ops)))
  /\ NoDup (map Ticket.id (tickets (run_all (empty_store uq) ops)))
  /\ (forall m, In m (messages (run_all (empty_store uq) ops)) ->
                exists t, In t (tickets (run_all (empty_store uq) ops))
                          /\ Ticket.id t = Message.ticket_id m)
  /\ (uq = true ->
      NoDup (map Customer.email (customers (run_all (empty_store uq) ops)))).
Proof.
  destruct (integrity_run_all ops (empty_store uq) (integrity_empty uq))
    as [I1 _ I3 _ _ I6 _ I8].
  repeat split; auto.
  - intros m I. specialize (I6 m I). apply in_map_iff in I6 as (t & E & It). eauto.
  - intros U. apply I8. now rewrite unique_email_run_all.
Qed.

Lemma reachable_keys_unique_witness :
  NoDup (map Customer.email (customers chatty_store)).
Proof.
  apply (reachable_keys_unique true
           [Contact Sample.now 234 Sample.alice_form;
            Contact (Sample.now + 1)%Z 77
              (Sample.form "Alice" "Johnson" "alice@example.com" None "Me again");
            Contact (Sample.now + 2)%Z 78
              (Sample.form "Bo" "Li" "bo@example.com" None "Hello there")]).
  reflexivity.
Defined.

Lemma duplicate_pointers_sound_witness :
  1 <> Customer.id (nth 1 (customers flagged_store) Sample.alice)
  /\ exists c', In c' (customers flagged_store) /\ Customer.id c' = 1.
Proof.
  apply (proj1 (duplicate_pointers_sound true
                  [Contact Sample.now 234 Sample.alice_form;
                   Contact (Sample.now + 1)%Z 77
                     (Sample.form "Alice" "Johnsen" "aj@elsewhere.com" None
                        "Hello there")])
           (nth 1 (customers flagged_store) Sample.alice) 1).
  - vm_compute. right. left. reflexivity.
  - reflexivity.
Defined.

(* ------------------------------------------------------------------ *)
(** ** Customer profile *)
(* ------------------------------------------------------------------ *)




Lemma merge_rows_not_secondary s now pid sid primary secondary c :
  pid <> sid ->
  find_customer s pid = Some primary ->
  find_customer s sid = Some secondary ->
  In c (customers (fst (merge s now (Some pid) (Some sid)))) ->
  Customer.id c <> sid /\ Customer.possible_duplicate_of c <> Some sid.
Proof.
  intros D P S. rewrite (merge_found s now pid sid primary secondary D P S).
  cbn [fst customers delete_customer clear_references update_customer move_tickets
         with_customers with_tickets].
  intros I. unfold delete_where in I. apply filter_In in I as (I & N). split.
  - apply negb_true_iff in N. now apply Nat.eqb_neq.
  - apply in_update_where in I as (r & _ & ->). unfold points_at.
    destruct (Customer.possible_duplicate_of r) as [d|] eqn:Ed.
    + destruct (Nat.eqb_spec d sid) as [->|N']; simpl; [discriminate|].
      rewrite Ed. congruence.
    + rewrite Ed. discriminate.
Qed.

(** After a merge the secondary has no profile (404), the primary's
    profile shows no possible duplicate, and no profile mentions the
    secondary, neither as possible duplicate nor among those pointing at the
    customer. *)
Theorem profile_after_merge (s : Store) (now : Time) (pid sid : Id)
    (primary secondary : Customer.t) :
  pid <> sid ->
  find_customer s pid = Some primary ->
  find_customer s sid = Some secondary ->
  get_customer (fst (merge s now (Some pid) (Some sid))) sid = None
  /\ (exists p, get_customer (fst (merge s now (Some pid) (Some sid))) pid = Some p
                /\ Profile.possibleDuplicate p = None)
  /\ (forall x p,
         get_customer (fst (merge s now (Some pid) (Some sid))) x = Some p ->
         Customer.id (Profile.customer p) <> sid
         /\ (forall l, Profile.possibleDuplicate p = Some l -> Profile.id l <> sid)
         /\ (forall q, In q (Profile.duplicatesOfMe p) -> Profile.p_id q <> sid)).
Proof.
  intros D P S.
  pose proof (fun c => merge_rows_not_secondary s now pid sid primary secondary c D P S)
    as Rows.
  pose proof (find_customer_after_merge s now pid sid primary secondary D P S) as G.
  set (s' := fst (merge s now (Some pid) (Some sid))) in *.
  assert (Fp : find_customer s' pid
               = Some (Customer.apply (merge_updates now primary secondary) primary)).
  { unfold s'. rewrite (merge_found s now pid sid primary secondary D P S).
    unfold find_customer.
    cbn [fst customers delete_customer clear_references update_customer move_tickets
           with_customers with_tickets].
    rewrite filter_delete_where.
    2:{ intros x E. apply Nat.eqb_eq in E. rewrite E. now apply Nat.eqb_neq. }
    rewrite !filter_update_where by (intros r; reflexivity).
    destruct (find_customer_in s pid primary P) as (_ & EP).
    unfold find_customer in P. apply single_some in P. rewrite P. simpl.
    now rewrite EP, Nat.eqb_refl. }
  split; [|split].
  - unfold get_customer. now rewrite G.
  - unfold get_customer. rewrite Fp. eexists. split; reflexivity.
  - intros x p Gx. unfold get_customer in Gx.
    destruct (find_customer s' x) as [c|] eqn:F; [|discriminate].
    inversion Gx; subst p; clear Gx. cbn [Profile.customer Profile.possibleDuplicate
                                           Profile.duplicatesOfMe].
    destruct (find_customer_in s' x c F) as (Ic & _).
    split; [apply (Rows c Ic)|]. split.
    + intros l El.
      destruct (Customer.possible_duplicate_of c) as [d|]; [|discriminate].
      destruct (find_customer s' d) as [c'|] eqn:Fd; [|discriminate].
      inversion El; subst l. simpl.
      destruct (find_customer_in s' d c' Fd) as (Ic' & _). apply (Rows c' Ic').
    + intros q Iq. apply in_map_iff in Iq as (c' & <- & Ic').
      apply filter_In in Ic' as (Ic' & _). simpl. apply (Rows c' Ic').
Qed.

Lemma profile_after_merge_witness :
  get_customer (fst (merge MergeSample.before Sample.now (Some 1) (Some 2))) 2 = None
  /\ exists p,
       get_customer (fst (merge MergeSample.before Sample.now (Some 1) (Some 2))) 1 = Some p
       /\ Profile.possibleDuplicate p = None.
Proof.
  destruct (profile_after_merge MergeSample.before Sample.now 1 2 Sample.alice Sample.alicia)
    as (A & B & _).
  - discriminate.
  - reflexivity.
  - reflexivity.
  - split; [exact A | exact B].
Defined.

(* ------------------------------------------------------------------ *)
(** ** Notes and the tag synthesizer *)
(* ------------------------------------------------------------------ *)

Lemma dedup_acc_absorb (seen l n : list string) :
  NoDup l ->
  (forall x, In x l -> ~ In x seen) ->
  (forall x, In x n -> In x seen \/ In x l) ->
  dedup_acc seen (l ++ n) = l.
Proof.
  revert seen. induction l as [|a l IH]; intros seen D Hs Hn; simpl.
  - induction n as [|b n IHn]; simpl; [reflexivity|].
    assert (M : existsb (String.eqb b) seen = true).
    { apply mem_In. destruct (Hn b (or_introl eq_refl)) as [I|[]]. exact I. }
    rewrite M. apply IHn. intros x I. apply Hn. now right.
  - inversion D as [|? ? Na Dl]; subst.
    assert (M : existsb (String.eqb a) seen = false).
    { destruct (existsb (String.eqb a) seen) eqn:E; [|reflexivity].
      apply mem_In in E. exfalso. exact (Hs a (or_introl eq_refl) E). }
    rewrite M. f_equal. apply IH; [exact Dl | |].
    + intros x I [<-|K]; [contradiction|]. exact (Hs x (or_intror I) K).
    + intros x I. destruct (Hn x I) as [K|[<-|K]].
      * left. now right.
      * left. now left.
      * now right.
Qed.

Lemma dedup_absorb (l n : list string) :
  NoDup l -> (forall x, In x n -> In x l) -> dedup (l ++ n) = l.
Proof.
  intros D H. apply dedup_acc_absorb; [exact D | intros x _ [] |].
  intros x I. right. now apply H.
Qed.

Lemma dedup_NoDup (l : list string) : NoDup l -> dedup l = l.
Proof.
  intros D. rewrite <- (app_nil_r l) at 1. apply dedup_absorb; [exact D|].
  intros x [].
Qed.

Lemma push_rules (rules : list (bool * string)) (acc : list string) :
  fold_left (fun tags r => push_if (fst r) (snd r) tags) rules acc = acc ++ pick rules.
Proof.
  revert acc. induction rules as [|[c t] r IH]; intros acc; simpl.
  - now rewrite app_nil_r.
  - rewrite IH. unfold push_if. destruct c; [now rewrite <- app_assoc|reflexivity].
Qed.

Lemma pick_in (rules : list (bool * string)) (x : string) :
  In x (pick rules) -> In x (map snd rules).
Proof.
  induction rules as [|[c t] r IH]; simpl; [auto|].
  destruct c; simpl; intuition.
Qed.

Lemma pick_subsequence (rules : list (bool * string)) :
  NoDup (map snd rules) ->
  subsequence (pick rules) (map snd rules) = true /\ NoDup (pick rules).
Proof.
  induction rules as [|[c t] r IH]; simpl; intros D; [split; [reflexivity|constructor]|].
  inversion D as [|? ? N D']; subst. destruct (IH D') as (S & P).
  destruct c; simpl.
  - rewrite String.eqb_refl. split; [exact S|].
    constructor; [|exact P]. intros I. apply N. now apply pick_in.
  - split; [|exact P].
    destruct (pick r) as [|x p] eqn:E; [reflexivity|].
    destruct (String.eqb_spec x t) as [->|_]; [|exact S].
    exfalso. apply N. apply pick_in. rewrite E. now left.
Qed.

Lemma generateTagsFromNote_pick (noteContent : string) :
  generateTagsFromNote noteContent = pick (note_rules (toLowerCase noteContent)).
Proof.
  assert (V : NoDup (map snd (note_rules (toLowerCase noteContent)))).
  { change (NoDup note_vocabulary).
    assert (E : dedup note_vocabulary = note_vocabulary) by reflexivity.
    rewrite <- E. apply NoDup_dedup. }
  rewrite <- (dedup_NoDup _ (proj2 (pick_subsequence _ V))).
  change (generateTagsFromNote noteContent)
    with (dedup (fold_left (fun tags r => push_if (fst r) (snd r) tags)
                   (note_rules (toLowerCase noteContent)) [])).
  now rewrite push_rules.
Qed.

(** The tag synthesizer returns tags of its thirteen-tag vocabulary, each at
    most once and in the order of the vocabulary, and reads the note without
    regard to letter case. *)
Theorem generateTagsFromNote_vocabulary (noteContent : string) :
  subsequence (generateTagsFromNote noteContent) note_vocabulary = true
  /\ NoDup (generateTagsFromNote noteContent)
  /\ generateTagsFromNote (toLowerCase noteContent) = generateTagsFromNote noteContent.
Proof.
  assert (V : NoDup (map snd (note_rules (toLowerCase noteContent)))).
  { change (NoDup note_vocabulary).
    assert (E : dedup note_vocabulary = note_vocabulary) by reflexivity.
    rewrite <- E. apply NoDup_dedup. }
  rewrite !generateTagsFromNote_pick, toLowerCase_idem.
  destruct (pick_subsequence _ V) as (S & P). auto.
Qed.

Example note_tags_ex :
  generateTagsFromNote "Customer UPSET - already issued a REFUND, sent replacement"
  = ["Previous refund"; "Previous reship"; "Difficult interaction"].
Proof. reflexivity. Qed.

Lemma find_customer_row s cid customer r :
  find_customer s cid = Some customer ->
  In r (customers s) -> Customer.id r = cid -> r = customer.
Proof.
  unfold find_customer. intros F I E. apply single_some in F.
  assert (K : In r (filter (fun c => Customer.id c =? cid) (customers s))).
  { apply filter_In. split; [exact I|]. now apply Nat.eqb_eq. }
  rewrite F in K. destruct K as [<-|[]]. reflexivity.
Qed.

(** The note route answers 404 unless exactly one ticket has the display
    id, and then writes nothing.  Otherwise it appends the note, leaves
    tickets and messages alone, and changes no customer's identity, counts or
    pointers; tags are only ever added: the ticket's customer, when it
    exists, ends with its old tags and the tags synthesized from the
    note. *)
Theorem post_note_effect (s : Store) (notes : list Note.t) (now : Time)
    (ticketId content : string) (author : option string) :
  match post_note s notes now ticketId content author with
  | (s', notes', NoteTicketNotFound) =>
      List.length (filter (fun r => (Ticket.ticket_id r =? ticketId)%string) (tickets s))
      <> 1
      /\ s' = s /\ notes' = notes
  | (s', notes', NoteAdded note newTags) =>
      exists ticket,
        filter (fun r => (Ticket.ticket_id r =? ticketId)%string) (tickets s) = [ticket]
        /\ notes' = notes ++ [note]
        /\ Note.ticket_id note = Ticket.id ticket
        /\ Note.content note = content
        /\ newTags = generateTagsFromNote content
        /\ tickets s' = tickets s
        /\ messages s' = messages s
        /\ map (fun c => (Customer.id c, Customer.name c, Customer.email c,
                          Customer.phone c, Customer.ticket_count c,
                          Customer.possible_duplicate_of c))
             (customers s')
           = map (fun c => (Customer.id c, Customer.name c, Customer.email c,
                            Customer.phone c, Customer.ticket_count c,
                            Customer.possible_duplicate_of c))
               (customers s)
        /\ (forall c, In c (customers s) ->
                      exists c', In c' (customers s')
                                 /\ Customer.id c' = Customer.id c
                                 /\ forall x, In x (Customer.tags c) ->
                                              In x (Customer.tags c'))
        /\ (forall owner,
               find_customer s (Ticket.customer_id ticket) = Some owner ->
               exists owner',
                 find_customer s' (Ticket.customer_id ticket) = Some owner'
                 /\ forall x, In x (Customer.tags owner') <->
                              In x (Customer.tags owner) \/ In x newTags)
  end.
Proof.
  unfold post_note.
  destruct (single _) as [ticket|] eqn:S.
  2:{ repeat split.
      destruct (filter _ (tickets s)) as [|a [|b r]]; simpl in *; try discriminate; lia. }
  apply single_some in S. exists ticket.
  set (newTags := generateTagsFromNote content).
  set (cid := Ticket.customer_id ticket).
  destruct (0 <? List.length newTags) eqn:L.
  - destruct (find_customer s cid) as [customer|] eqn:F.
    + repeat split; auto.
      * cbn [customers update_customer with_customers].
        now apply map_update_where.
      * intros c I.
        exists (if Customer.id c =? cid
                then Customer.apply
                       (tags_patch now (dedup (Customer.tags customer ++ newTags))) c
                else c).
        split; [|split].
        -- apply in_update_where. exists c. now split.
        -- now destruct (Customer.id c =? cid).
        -- intros x Ix. destruct (Nat.eqb_spec (Customer.id c) cid) as [E|N]; [|exact Ix].
           rewrite (find_customer_row s cid customer c F I E) in *.
           simpl. apply in_dedup. apply in_or_app. now left.
      * intros owner Fo. inversion Fo; subst owner.
        exists (Customer.apply
                  (tags_patch now (dedup (Customer.tags customer ++ newTags))) customer).
        split.
        -- unfold find_customer in *.
           cbn [customers update_customer with_customers].
           rewrite filter_update_where by (intros r; reflexivity).
           apply single_some in F. rewrite F. simpl.
           assert (E : (Customer.id customer =? cid) = true).
           { apply (filter_singleton_in _ _ _ F). }
           now rewrite E.
        -- intros x. simpl. rewrite in_dedup. apply in_app_iff.
    + repeat split; auto.
      * intros c I. exists c. auto.
      * intros owner Fo. discriminate.
  - assert (E : newTags = []).
    { destruct newTags; [reflexivity|]. simpl in L. discriminate. }
    repeat split; auto.
    + intros c I. exists c. auto.
    + intros owner Fo. exists owner. split; [exact Fo|].
      intros x. rewrite E. simpl. tauto.
Qed.

(** Recording the same note a second time adds a second note row and no
    tag: every customer's tags are as the first recording left them. *)
Theorem post_note_twice (s : Store) (notes : list Note.t) (now now' : Time)
    (ticketId content : string) (author : option string) :
  map Customer.tags
    (customers
       (fst (fst (post_note (fst (fst (post_note s notes now ticketId content author)))
                    (snd (fst (post_note s notes now ticketId content author)))
                    now' ticketId content author))))
  = map Customer.tags (customers (fst (fst (post_note s notes now ticketId content author)))).
Proof.
  set (p1 := post_note s notes now ticketId content author).
  assert (T1 : tickets (fst (fst p1)) = tickets s).
  { unfold p1, post_note. destruct (single _); [|reflexivity].
    destruct (0 <? _); [|reflexivity]. destruct (find_customer s _); reflexivity. }
  unfold post_note at 1. rewrite T1.
  destruct (single (filter _ (tickets s))) as [ticket|] eqn:S; [|reflexivity].
  set (newTags := generateTagsFromNote content).
  set (cid := Ticket.customer_id ticket).
  destruct (0 <? List.length newTags) eqn:L; [|reflexivity].
  destruct (find_customer (fst (fst p1)) cid) as [c1|] eqn:F1; [|reflexivity].
  assert (A : dedup (Customer.tags c1 ++ newTags) = Customer.tags c1).
  { unfold p1, post_note in F1. rewrite S in F1. fold newTags cid in F1.
    rewrite L in F1. destruct (find_customer s cid) as [customer|] eqn:F.
    - cbn [fst] in F1.
      assert (F2 : find_customer
                     (update_customer cid
                        (tags_patch now (dedup (Customer.tags customer ++ newTags))) s) cid
                   = Some (Customer.apply
                             (tags_patch now (dedup (Customer.tags customer ++ newTags)))
                             customer)).
      { unfold find_customer in *. cbn [customers update_customer with_customers].
        rewrite filter_update_where by (intros r; reflexivity).
        apply single_some in F. rewrite F. simpl.
        assert (E : (Customer.id customer =? cid) = true).
        { apply (filter_singleton_in _ _ _ F). }
        now rewrite E. }
      rewrite F2 in F1. inversion F1; subst c1. simpl.
      apply dedup_absorb; [apply NoDup_dedup|].
      intros x I. apply in_dedup. apply in_or_app. now right.
    - cbn [fst] in F1. congruence. }
  cbn [fst customers update_customer with_customers]. rewrite A.
  unfold update_where. rewrite map_map. apply map_ext_in. intros r I.
  destruct (Nat.eqb_spec (Customer.id r) cid) as [E|N]; [|reflexivity].
  rewrite (find_customer_row _ cid c1 r F1 I E). reflexivity.
Qed.

Example note_flow :
  let '(s1, notes1, r1) :=
    post_note chatty_store [] Sample.now "TIX-1234"
      "VIP customer, already issued a refund" None in
  map (fun c => (Customer.id c, Customer.tags c)) (customers s1)
  = [(1, ["Previous refund"; "VIP"]); (2, [])]
  /\ List.length notes1 = 1.
Proof. vm_compute. split; reflexivity. Qed.

(* ------------------------------------------------------------------ *)
(** ** Substring search and the classifier *)
(* ------------------------------------------------------------------ *)

Lemma prefix_app (sub s : string) :
  prefix sub s = true <-> exists b, s = (sub ++ b)%string.
Proof.
  revert s. induction sub as [|c sub IH]; intros s.
  - split; [intros _; now exists s | intros _; now destruct s].
  - destruct s as [|d s]; simpl.
    + split; [discriminate | intros (b & E); discriminate].
    + destruct (ascii_dec c d) as [->|N].
      * rewrite IH. split; intros (b & E); exists b; [now rewrite E | now inversion E].
      * split; [discriminate | intros (b & E); inversion E; congruence].
Qed.

(** [includes] finds [sub] exactly when the string is some text, [sub],
    and some more text. *)
Lemma includes_spec (s sub : string) :
  includes s sub = true <-> exists a b, s = (a ++ sub ++ b)%string.
Proof.
  induction s as [|c s IH].
  - cbn [includes]. rewrite orb_false_r, prefix_app. split.
    + intros (b & E). exists "", b. exact E.
    + intros (a & b & E). destruct a; simpl in E; [eauto | discriminate].
  - cbn [includes]. rewrite orb_true_iff, prefix_app, IH. split.
    + intros [(b & E)|(a & b & E)].
      * exists "", b. exact E.
      * exists (String c a), b. simpl. now rewrite E.
    + intros ([|d a] & b & E); simpl in E.
      * left. eauto.
      * right. inversion E. eauto.
Qed.

Lemma toLowerCase_app (a b : string) :
  toLowerCase (a ++ b)%string = (toLowerCase a ++ toLowerCase b)%string.
Proof. induction a as [|c a IH]; simpl; [reflexivity|now rewrite IH]. Qed.

(** A ticket is urgent exactly when its message, in any letter case,
    contains "urgent", "asap" or "immediately"; the purpose never makes a
    ticket urgent and never keeps it from being urgent. *)
Theorem determinePriority_urgent (purpose message : string) :
  determinePriority purpose message = Urgent
  <-> exists a k b,
        toLowerCase message = (a ++ k ++ b)%string /\ In k ["urgent"; "asap"; "immediately"].
Proof.
  unfold determinePriority. split.
  - destruct (includes (toLowerCase message) "urgent") eqn:E1.
    { apply includes_spec in E1 as (a & b & E). intros _. exists a, "urgent", b.
      simpl. auto. }
    destruct (includes (toLowerCase message) "asap") eqn:E2.
    { apply includes_spec in E2 as (a & b & E). intros _. exists a, "asap", b.
      simpl. auto. }
    destruct (includes (toLowerCase message) "immediately") eqn:E3.
    { apply includes_spec in E3 as (a & b & E). intros _. exists a, "immediately", b.
      simpl. auto. }
    simpl.
    repeat match goal with
           | |- context [if ?c then _ else _] => destruct c
           end; discriminate.
  - intros (a & k & b & E & I).
    assert (K : includes (toLowerCase message) k = true).
    { apply includes_spec. eauto. }
    destruct I as [<-|[<-|[<-|[]]]]; rewrite K; simpl; rewrite ?orb_true_r; reflexivity.
Qed.

Example urgent_in_any_case :
  determinePriority "Wholesale" "Need this ASAP please" = Urgent
  /\ determinePriority "Billing" "no rush" = High.
Proof. split; reflexivity. Qed.

Lemma push_if_keeps (c : bool) (t x : string) (tags : list string) :
  In x tags -> In x (push_if c t tags).
Proof. unfold push_if. destruct c; [|auto]. intros I. apply in_or_app. now left. Qed.

Lemma content_tags_spec (message : string) (tags : list string) :
  NoDup (content_tags message tags)
  /\ (forall x, In x tags -> In x (content_tags message tags))
  /\ content_tags (toLowerCase message) tags = content_tags message tags.
Proof.
  unfold content_tags. repeat split.
  - apply NoDup_dedup.
  - intros x I. apply in_dedup. repeat apply push_if_keeps. exact I.
  - now rewrite toLowerCase_idem.
Qed.

Lemma purposeTags_inherited (purpose : string) :
  purposeTags purpose = Inherited <-> In purpose object_prototype_keys.
Proof.
  split.
  - unfold purposeTags.
    repeat match goal with
           | |- context [if (purpose =? ?k)%string then _ else _] =>
               destruct (purpose =? k)%string; [discriminate|]
           end.
    destruct (mem purpose object_prototype_keys) eqn:M; [|discriminate].
    intros _. now apply mem_In.
  - intros I. simpl in I.
    repeat (destruct I as [<-|I]; [reflexivity|]). contradiction.
Qed.

(** [generateAutoTags] throws exactly for the twelve purposes that name a
    member of [Object.prototype].  Otherwise it returns tags without
    duplicates, among them the tags of the purpose, and reads the message
    without regard to letter case. *)
Theorem generateAutoTags_spec (purpose message : string) :
  match generateAutoTags purpose message with
  | inl _ => In purpose object_prototype_keys
  | inr tags =>
      ~ In purpose object_prototype_keys
      /\ NoDup tags
      /\ (forall own x, purposeTags purpose = Own own -> In x own -> In x tags)
      /\ generateAutoTags purpose (toLowerCase message) = inr tags
  end.
Proof.
  unfold generateAutoTags.
  pose proof (purposeTags_inherited purpose) as PI.
  destruct (purposeTags purpose) as [own| |] eqn:E.
  - destruct (content_tags_spec message own) as (D & K & L).
    repeat split; auto.
    + intros I. apply PI in I. discriminate.
    + intros own' x Eo Ix. inversion Eo; subst own'. now apply K.
    + now rewrite L.
  - now apply PI.
  - destruct (content_tags_spec message []) as (D & K & L).
    repeat split; auto.
    + intros I. apply PI in I. discriminate.
    + intros own' x Eo. discriminate.
    + now rewrite L.
Qed.

Example refund_tag_once :
  generateAutoTags "Returns & Refunds" "I want a REFUND, money back please"
  = inr ["Refund request"].
Proof. reflexivity. Qed.

(* ------------------------------------------------------------------ *)
(** ** Order of binary64 numbers *)
(* ------------------------------------------------------------------ *)

Lemma SFltb_trans (x y z : spec_float) :
  SFltb x y = true -> SFltb y z = true -> SFltb x z = true.
Proof.
  unfold SFltb, SFcompare.
  destruct x as [sx|sx| |sx mx ex], y as [sy|sy| |sy my ey], z as [sz|sz| |sz mz ez];
    try discriminate;
    try (destruct sx; discriminate); try (destruct sy; discriminate);
    try (destruct sz; discriminate);
    try (destruct sx, sy; discriminate); try (destruct sy, sz; discriminate);
    try (destruct sx, sy, sz; try discriminate; reflexivity);
    try (destruct sx, sz; try discriminate; reflexivity).
  all: change (PosDef.Pos.compare_cont Eq) with Pos.compare.
  all: destruct sx, sy, sz; try discriminate; try reflexivity.
  all: destruct (Z.compare_spec ex ey), (Z.compare_spec ey ez), (Z.compare_spec ex ez);
    try discriminate; try reflexivity; try lia.
  all: subst.
  all: destruct (Pos.compare_spec mx my), (Pos.compare_spec my mz),
         (Pos.compare_spec mx mz); simpl; try discriminate; try reflexivity; try lia.
Qed.

Lemma gt_trans (x y z : float) :
  Double.gt x y = true -> Double.gt y z = true -> Double.gt x z = true.
Proof.
  unfold Double.gt. rewrite !ltb_spec. intros A B. exact (SFltb_trans _ _ _ B A).
Qed.

(** What is not above [y] is not above anything above [y]. *)
Lemma gt_false_trans (x y z : float) :
  Double.gt x y = false -> Double.gt z y = true -> Double.gt x z = false.
Proof.
  intros A B. destruct (Double.gt x z) eqn:C; [|reflexivity].
  now rewrite (gt_trans x z y C B) in A.
Qed.

Lemma SFltb_irrefl (x : spec_float) : SFltb x x = false.
Proof.
  unfold SFltb, SFcompare. destruct x as [s|s| |s m e]; try reflexivity.
  - destruct s; reflexivity.
  - change (PosDef.Pos.compare_cont Eq) with Pos.compare.
    rewrite Z.compare_refl, Pos.compare_refl. destruct s; reflexivity.
Qed.

Lemma gt_irrefl (x : float) : Double.gt x x = false.
Proof. unfold Double.gt. rewrite ltb_spec. apply SFltb_irrefl. Qed.

(* ------------------------------------------------------------------ *)
(** ** The name tier on binary64 scores *)
(* ------------------------------------------------------------------ *)

Lemma double_best_step_keeps fullName seen acc c :
  Double.best_so_far fullName seen acc ->
  Double.best_so_far fullName (seen ++ [c]) (Double.best_step fullName acc c).
Proof.
  destruct acc as [[b|] bs]; unfold Double.best_so_far, Double.best_step; simpl.
  - intros (Ib & Eb & Tb & Mb).
    destruct (Double.gt (Double.nameSimilarity fullName (Customer.name c))
                Double.threshold) eqn:E1;
      destruct (Double.gt (Double.nameSimilarity fullName (Customer.name c)) bs) eqn:E2;
      simpl.
    + split; [apply in_or_app; right; now left|]. split; [reflexivity|].
      split; [exact E1|]. intros c' I. apply in_app_or in I as [I|[<-|[]]].
      * exact (gt_false_trans _ _ _ (Mb c' I) E2).
      * apply gt_irrefl.
    + split; [apply in_or_app; now left|]. split; [exact Eb|]. split; [exact Tb|].
      intros c' I. apply in_app_or in I as [I|[<-|[]]]; [now apply Mb | exact E2].
    + split; [apply in_or_app; now left|]. split; [exact Eb|]. split; [exact Tb|].
      intros c' I. apply in_app_or in I as [I|[<-|[]]]; [now apply Mb|].
      exact (gt_false_trans _ _ _ E1 Tb).
    + split; [apply in_or_app; now left|]. split; [exact Eb|]. split; [exact Tb|].
      intros c' I. apply in_app_or in I as [I|[<-|[]]]; [now apply Mb | exact E2].
  - intros (-> & Mb).
    destruct (Double.gt (Double.nameSimilarity fullName (Customer.name c))
                Double.threshold) eqn:E1;
      destruct (Double.gt (Double.nameSimilarity fullName (Customer.name c)) 0%float)
        eqn:E2; simpl.
    + split; [apply in_or_app; right; now left|]. split; [reflexivity|].
      split; [exact E1|]. intros c' I. apply in_app_or in I as [I|[<-|[]]].
      * exact (gt_false_trans _ _ _ (Mb c' I) E1).
      * apply gt_irrefl.
    + assert (Z0 : Double.gt Double.threshold 0%float = true) by reflexivity.
      rewrite (gt_trans _ _ _ E1 Z0) in E2. discriminate.
    + split; [reflexivity|]. intros c' I.
      apply in_app_or in I as [I|[<-|[]]]; [now apply Mb | exact E1].
    + split; [reflexivity|]. intros c' I.
      apply in_app_or in I as [I|[<-|[]]]; [now apply Mb | exact E1].
Qed.

Lemma double_best_fold fullName l seen acc :
  Double.best_so_far fullName seen acc ->
  Double.best_so_far fullName (seen ++ l) (fold_left (Double.best_step fullName) l acc).
Proof.
  revert seen acc. induction l as [|c l IH]; intros seen acc H; simpl.
  - now rewrite app_nil_r.
  - replace (seen ++ c :: l) with ((seen ++ [c]) ++ l) by now rewrite <- app_assoc.
    apply IH, double_best_step_keeps, H.
Qed.

(** The third tier, run on the doubles the code computes: when it flags a
    customer, that customer is in the store, its name scores above 0.7
    against the incoming name, and no customer's name scores above it; it
    flags nobody exactly when the incoming name has fewer than two
    space-separated parts or no name scores above 0.7. *)
Theorem name_tier_best (s : Store) (fullName : string) :
  match Double.name_tier s fullName with
  | Some b =>
      In b (customers s)
      /\ 2 <= List.length (split " " (trim fullName))
      /\ (0x1.6666666666666p-1 <? Double.nameSimilarity fullName (Customer.name b))%float
         = true
      /\ forall c, In c (customers s) ->
                   (Double.nameSimilarity fullName (Customer.name b)
                    <? Double.nameSimilarity fullName (Customer.name c))%float = false
  | None =>
      List.length (split " " (trim fullName)) < 2
      \/ forall c, In c (customers s) ->
                   (0x1.6666666666666p-1
                    <? Double.nameSimilarity fullName (Customer.name c))%float = false
  end.
Proof.
  unfold Double.name_tier.
  destruct (Nat.leb_spec 2 (List.length (split " " (trim fullName)))) as [L|L].
  2:{ left. exact L. }
  assert (B0 : Double.best_so_far fullName [] (None, 0%float)).
  { split; [reflexivity|]. intros c []. }
  pose proof (double_best_fold fullName (customers s) [] (None, 0%float) B0) as B.
  simpl in B. unfold Double.best_so_far in B.
  destruct (fst (fold_left (Double.best_step fullName) (customers s) (None, 0%float)))
    as [b|].
  - destruct B as (Ib & Eb & Tb & Mb). rewrite Eb in Tb, Mb.
    split; [exact Ib|]. split; [exact L|]. split; [exact Tb | exact Mb].
  - right. exact (proj2 B).
Qed.

(** Where the doubles part from exact arithmetic.  The exact score of
    these two names is 7/10, which is not above the threshold; the code
    computes 0.7000000000000001, which is, and flags the customer. *)
Example flagged_at_seven_tenths :
  let incoming := "X Anne Anna X Bob X" in
  let known :=
    Sample.store [new_customer Sample.now "abby@example.com" None "Anny Bob Anny" None 1]
      [] in
  (nameSimilarity incoming "Anny Bob Anny" == 7 # 10)%Q
  /\ name_tier known incoming = None
  /\ option_map Customer.id (Double.name_tier known incoming) = Some 1.
Proof. vm_compute. repeat split; reflexivity. Qed.

(** Two customers whose exact scores tie at 9/10: exact arithmetic keeps the
    first, the code computes 0.8999999999999999 for the first and 0.9 for the
    second and flags the second. *)
Example second_of_two_flagged :
  let incoming := "Bob Anny" in
  let known :=
    Sample.store
      [new_customer Sample.now "one@example.com" None "Bob Anna Anne Bob" None 1;
       new_customer Sample.now "two@example.com" None "Bob Anne" None 2] [] in
  (nameSimilarity incoming "Bob Anna Anne Bob" == nameSimilarity incoming "Bob Anne")%Q
  /\ option_map Customer.id (name_tier known incoming) = Some 1
  /\ option_map Customer.id (Double.name_tier known incoming) = Some 2.
Proof. vm_compute. repeat split; reflexivity. Qed.

(** The score depends on the order of its arguments: the additions of 1 and
    0.8 are made in the order of the tokens of the first name, and binary64
    addition is not associative. *)
Theorem nameSimilarity_order_matters :
  ~ forall a b : string, Double.nameSimilarity a b = Double.nameSimilarity b a.
Proof.
  intros H. specialize (H "Bob Anna Anne Bob" "Bob Anny").
  apply (f_equal (fun x => (x <? 0x1.ccccccccccccdp-1)%float)) in H.
  vm_compute in H. discriminate H.
Qed.

(** The three scores of C1 as the code computes them: 0.9, 0.5 and 0. *)
Example double_scores :
  Double.nameSimilarity "Sarah Lee" "Sara Lee" = 0x1.ccccccccccccdp-1%float
  /\ Double.nameSimilarity "John Smith" "Jon Smith" = 0.5%float
  /\ Double.nameSimilarity "John Smith" "Alice Johnson" = 0%float.
Proof. vm_compute. repeat split; reflexivity. Qed.

(** The two literals are the correctly rounded quotients. *)
Example double_literals :
  (8 / 10)%float = Double.eight_tenths /\ (7 / 10)%float = Double.threshold.
Proof. vm_compute. split; reflexivity. Qed.

Lemma route_checked_accepting s now rnd f fullName message autoTags customerId :
  route_checked None s now rnd f fullName message autoTags customerId
  = let '(s2, ticketId, openTicket) :=
      route s now rnd f fullName message autoTags customerId in
    (s2, inr (ticketId, openTicket)).
Proof.
  unfold route_checked, route, create_ticket_checked.
  destruct (findOpenTicketForCustomer s customerId) as [t|]; [reflexivity|].
  destruct (create_ticket s now rnd f fullName message autoTags customerId) as [s3 tid].
  destruct (findRecentClosed s customerId) as [t|]; [|reflexivity].
  destruct (wasRecentlyClosed now (Some t)); reflexivity.
Qed.

(** With a store that accepts the ticket, the checked handler is
    [contact_form]. *)
Lemma contact_form_checked_accepting s now rnd f :
  contact_form_checked None s now rnd f = contact_form s now rnd f.
Proof.
  unfold contact_form_checked, contact_form, contact_form_interleaved, findOrCreateCustomer.
  destruct (_ || _); [reflexivity|].
  destruct (generateAutoTags _ _) as [e|autoTags]; [reflexivity|].
  destruct (resolve_write _ s now _ _ _) as [s1 [e|r]]; [reflexivity|].
  rewrite route_checked_accepting.
  destruct (route s1 now rnd f _ _ autoTags _) as [[s2 tid] o]. reflexivity.
Qed.

Lemma route_checked_refused e s now rnd f fullName message autoTags customerId s2 e' :
  route_checked (Some e) s now rnd f fullName message autoTags customerId = (s2, inl e') ->
  s2 = s /\ e' = e.
Proof.
  unfold route_checked, create_ticket_checked.
  destruct (findOpenTicketForCustomer s customerId) as [t|]; [discriminate|].
  destruct (findRecentClosed s customerId) as [t|].
  - destruct (wasRecentlyClosed now (Some t)); [discriminate|].
    intros E. inversion E. auto.
  - intros E. inversion E. auto.
Qed.

(** The webhook answers 400 exactly for a form without first name, email
    or message, and writes nothing then.  A 500 adds no ticket and no
    message, but the store is as before only when classification or the
    customer insert threw: when the ticket insert is refused, what the
    resolver wrote (a new customer, or one more on a matched customer's ticket
    count) stays.  A 201 reports "threaded" or "created" and one of the four
    match types. *)
Theorem contact_form_outcome (ticketError : option Error) (s : Store) (now : Time)
    (rnd : nat) (f : Form.t) :
  match snd (contact_form_checked ticketError s now rnd f) with
  | BadRequest _ =>
      form_ok f = false /\ fst (contact_form_checked ticketError s now rnd f) = s
  | ServerError _ _ =>
      form_ok f = true
      /\ tickets (fst (contact_form_checked ticketError s now rnd f)) = tickets s
      /\ messages (fst (contact_form_checked ticketError s now rnd f)) = messages s
      /\ (fst (contact_form_checked ticketError s now rnd f) = s
          \/ (ticketError <> None
              /\ fst (contact_form_checked ticketError s now rnd f)
                 = fst (findOrCreateCustomer s now (or_empty (Form.email f))
                          (Form.phone f) (form_fullName f))))
  | Accepted _ action customer_match _ =>
      form_ok f = true
      /\ (action = "threaded" \/ action = "created")
      /\ (customer_match = "email" \/ customer_match = "phone"
          \/ customer_match = "possible_duplicate" \/ customer_match = "new")
  | _ => False
  end.
Proof.
  destruct ticketError as [e|].
  2:{ rewrite contact_form_checked_accepting.
      pose proof (contact_form_accepting_outcome s now rnd f) as H.
      destruct (snd (contact_form s now rnd f)); try exact H.
      destruct H as (V & E). rewrite E. repeat split; auto. }
  unfold contact_form_checked, form_fullName.
  destruct (form_ok f) eqn:V.
  2:{ unfold form_ok in V.
      assert (G : negb (truthy_opt (Form.first_name f))
                  || negb (truthy_opt (Form.email f))
                  || negb (truthy_opt (Form.message f)) = true).
      { destruct (truthy_opt (Form.first_name f)), (truthy_opt (Form.email f)),
          (truthy_opt (Form.message f)); simpl in *; congruence. }
      rewrite G. simpl. auto. }
  assert (G : negb (truthy_opt (Form.first_name f))
              || negb (truthy_opt (Form.email f))
              || negb (truthy_opt (Form.message f)) = false).
  { unfold form_ok in V.
    destruct (truthy_opt (Form.first_name f)), (truthy_opt (Form.email f)),
      (truthy_opt (Form.message f)); simpl in *; congruence. }
  rewrite G.
  destruct (generateAutoTags _ _) as [e0|autoTags]; [simpl; auto|].
  pose proof (resolve_write_tickets
                (resolve_read s (or_empty (Form.email f)) (Form.phone f)
                   (fullName_of (or_empty (Form.first_name f)) (Form.last_name f)))
                s now (or_empty (Form.email f)) (Form.phone f)
                (fullName_of (or_empty (Form.first_name f)) (Form.last_name f)))
    as (Ht & Hm & _).
  pose proof (resolve_write_error
                (resolve_read s (or_empty (Form.email f)) (Form.phone f)
                   (fullName_of (or_empty (Form.first_name f)) (Form.last_name f)))
                s now (or_empty (Form.email f)) (Form.phone f)
                (fullName_of (or_empty (Form.first_name f)) (Form.last_name f))) as He.
  pose proof (resolve_write_matchType
                (resolve_read s (or_empty (Form.email f)) (Form.phone f)
                   (fullName_of (or_empty (Form.first_name f)) (Form.last_name f)))
                s now (or_empty (Form.email f)) (Form.phone f)
                (fullName_of (or_empty (Form.first_name f)) (Form.last_name f))) as Hk.
  unfold findOrCreateCustomer in *.
  destruct (resolve_write _ s now _ _ _) as [s1 [e1|r]].
  - simpl in *. rewrite (He s1 e1 eq_refl). auto.
  - simpl in Ht, Hm.
    destruct (route_checked (Some e) s1 now rnd f _ _ autoTags (Customer.id (customer r)))
      as [s2 [e2|[tid o]]] eqn:R.
    + apply route_checked_refused in R as (-> & ->). simpl.
      repeat split; auto. right. split; [discriminate | reflexivity].
    + simpl. split; [reflexivity|].
      split; [|exact (Hk s1 r eq_refl)].
      unfold route_checked, create_ticket_checked in R.
      destruct (findOpenTicketForCustomer s1 _) as [t|].
      * inversion R. now left.
      * destruct (findRecentClosed s1 _) as [t|].
        -- destruct (wasRecentlyClosed now (Some t)); [|discriminate].
           inversion R. now right.
        -- discriminate.
Qed.

(** When the store refuses the new ticket of a contact that resolves to a
    customer with no open ticket and none closed in the last 24 hours, the
    webhook answers 500 and what the resolver wrote stays: the customer it
    created, or the ticket count it incremented, with no ticket and no
    message to show for it. *)
Theorem contact_form_ticket_refused (e : Error) (s : Store) (now : Time) (rnd : nat)
    (f : Form.t) (autoTags : list string) (r : Resolution) :
  form_ok f = true ->
  form_tags f = inr autoTags ->
  snd (findOrCreateCustomer s now (or_empty (Form.email f)) (Form.phone f) (form_fullName f))
  = inr r ->
  findOpenTicketForCustomer s (Customer.id (customer r)) = None ->
  wasRecentlyClosed now (findRecentClosed s (Customer.id (customer r))) = false ->
  contact_form_checked (Some e) s now rnd f
  = (fst (findOrCreateCustomer s now (or_empty (Form.email f)) (Form.phone f)
            (form_fullName f)),
     ServerError "Failed to process submission" (error_message e))
  /\ tickets (fst (contact_form_checked (Some e) s now rnd f)) = tickets s
  /\ messages (fst (contact_form_checked (Some e) s now rnd f)) = messages s
  /\ (isNew r = true ->
      customers (fst (contact_form_checked (Some e) s now rnd f))
      = customers s ++ [customer r])
  /\ (isNew r = false ->
      exists c',
        In c' (customers (fst (contact_form_checked (Some e) s now rnd f)))
        /\ Customer.id c' = Customer.id (customer r)
        /\ Customer.ticket_count c' = Customer.ticket_count (customer r) + 1).
Proof.
  intros V T R O W.
  assert (G : negb (truthy_opt (Form.first_name f))
              || negb (truthy_opt (Form.email f))
              || negb (truthy_opt (Form.message f)) = false).
  { unfold form_ok in V.
    destruct (truthy_opt (Form.first_name f)), (truthy_opt (Form.email f)),
      (truthy_opt (Form.message f)); simpl in *; congruence. }
  unfold form_tags in T. unfold form_fullName in *.
  pose proof (resolve_write_tickets
                (resolve_read s (or_empty (Form.email f)) (Form.phone f)
                   (fullName_of (or_empty (Form.first_name f)) (Form.last_name f)))
                s now (or_empty (Form.email f)) (Form.phone f)
                (fullName_of (or_empty (Form.first_name f)) (Form.last_name f)))
    as (Ht & Hm & _).
  pose proof (find_open_after_resolve
                (resolve_read s (or_empty (Form.email f)) (Form.phone f)
                   (fullName_of (or_empty (Form.first_name f)) (Form.last_name f)))
                s now (or_empty (Form.email f)) (Form.phone f)
                (fullName_of (or_empty (Form.first_name f)) (Form.last_name f))
                (Customer.id (customer r))) as (Ho & Hc).
  assert (E : contact_form_checked (Some e) s now rnd f
              = (fst (findOrCreateCustomer s now (or_empty (Form.email f)) (Form.phone f)
                        (fullName_of (or_empty (Form.first_name f)) (Form.last_name f))),
                 ServerError "Failed to process submission" (error_message e))).
  { unfold contact_form_checked. rewrite G, T.
    unfold findOrCreateCustomer in *.
    destruct (resolve_write _ s now _ _ _) as [s1 res]. simpl in R, Ho, Hc. subst res.
    unfold route_checked, create_ticket_checked. rewrite Ho, Hc, O.
    destruct (findRecentClosed s (Customer.id (customer r))) as [t|]; [|reflexivity].
    rewrite W. reflexivity. }
  rewrite E. cbn [fst]. unfold findOrCreateCustomer in *.
  split; [reflexivity|]. split; [exact Ht|]. split; [exact Hm|].
  pose proof (resolve_read_in s (or_empty (Form.email f)) (Form.phone f)
                (fullName_of (or_empty (Form.first_name f)) (Form.last_name f))) as I.
  destruct (resolve_read s (or_empty (Form.email f)) (Form.phone f)
              (fullName_of (or_empty (Form.first_name f)) (Form.last_name f)))
    as [b|b|b|]; simpl in R |- *.
  - inversion R; subst r; simpl. split; [discriminate|]. intros _.
    eexists. split.
    + apply in_update_where. exists b. split; [exact I|]. now rewrite Nat.eqb_refl.
    + split; reflexivity.
  - inversion R; subst r; simpl. split; [discriminate|]. intros _.
    eexists. split.
    + apply in_update_where. exists b. split; [exact I|]. now rewrite Nat.eqb_refl.
    + split; reflexivity.
  - unfold insert_customer in *.
    destruct (unique_email s && _); [discriminate|].
    inversion R; subst r; simpl. split; [reflexivity | discriminate].
  - unfold insert_customer in *.
    destruct (unique_email s && _); [discriminate|].
    inversion R; subst r; simpl. split; [reflexivity | discriminate].
Qed.

(** Alice's first contact on a store that refuses the ticket: a 500, and a
    customer without a ticket. *)
Lemma contact_form_ticket_refused_witness :
  http_status (snd (contact_form_checked (Some ConflictError) (empty_store true)
                      Sample.now 234 Sample.alice_form)) = 500
  /\ map Customer.email
       (customers (fst (contact_form_checked (Some ConflictError) (empty_store true)
                          Sample.now 234 Sample.alice_form)))
     = ["alice@example.com"]
  /\ tickets (fst (contact_form_checked (Some ConflictError) (empty_store true)
                     Sample.now 234 Sample.alice_form)) = [].
Proof.
  destruct (contact_form_ticket_refused ConflictError (empty_store true) Sample.now 234
              Sample.alice_form ["Shipping issue"; "Tracking question"]
              (mkResolved
                 (new_customer Sample.now "Alice@Example.com" None "Alice Johnson" None 1)
                 "new" None true))
    as (E & T & _ & N & _).
  - reflexivity.
  - reflexivity.
  - reflexivity.
  - reflexivity.
  - reflexivity.
  - rewrite E at 1. split; [reflexivity|]. split; [|exact T].
    rewrite (N eq_refl). reflexivity.
Defined.

(* ------------------------------------------------------------------ *)
(** ** Merge requests as the client spells them *)
(* ------------------------------------------------------------------ *)

Lemma strict_eq_true (p q : RawId) : strict_eq p q = true -> p = q.
Proof.
  destruct p as [n|a], q as [m|b]; simpl; try discriminate; intros E.
  - apply Nat.eqb_eq in E. now subst.
  - apply String.eqb_eq in E. now subst.
Qed.

(** Two ids that the store reads as different rows: the request is the
    merge of two distinct customers. *)
Lemma merge_request_apart reads fl s now p q pid sid :
  raw_truthy p = true -> raw_truthy q = true ->
  reads p = Some pid -> reads q = Some sid -> pid <> sid ->
  merge_request reads fl s now (Some p) (Some q) = merge_with fl s now (Some pid) (Some sid).
Proof.
  intros Tp Tq Rp Rq D. unfold merge_request, merge_with.
  rewrite Tp, Tq. simpl.
  destruct (strict_eq p q) eqn:E.
  { apply strict_eq_true in E. subst q. congruence. }
  rewrite Rp, Rq. apply Nat.eqb_neq in D. now rewrite D.
Qed.

(** A request that spells both ids as numbers, read as themselves, is the
    merge on row ids. *)
Lemma merge_request_numbers reads fl s now pid sid :
  (forall n, reads (IdNumber n) = Some n) ->
  pid <> 0 -> sid <> 0 ->
  merge_request reads fl s now (Some (IdNumber pid)) (Some (IdNumber sid))
  = merge_with fl s now (Some pid) (Some sid).
Proof.
  intros R Np Ns. destruct (Nat.eq_dec pid sid) as [->|D].
  - unfold merge_request, merge_with. simpl.
    apply Nat.eqb_neq in Ns. now rewrite Ns, Nat.eqb_refl.
  - apply merge_request_apart; auto; simpl; apply negb_true_iff; now apply Nat.eqb_neq.
Qed.

(** The merge route answers 400 exactly when an id is missing or falsy or
    the two values are strictly equal, 404 exactly when one of the two
    values is not read as the id of exactly one customer, and writes nothing
    in these cases; otherwise it answers with the two rows as fetched and the
    secondary's ticket count.  Nothing makes the two rows distinct. *)
Theorem merge_outcome (reads : RawId -> option Id) (s : Store) (now : Time)
    (primary_id secondary_id : option RawId) :
  match snd (merge_request reads no_faults s now primary_id secondary_id) with
  | BadRequest _ =>
      match primary_id, secondary_id with
      | Some p, Some q =>
          raw_truthy p = false \/ raw_truthy q = false \/ strict_eq p q = true
      | _, _ => True
      end
      /\ fst (merge_request reads no_faults s now primary_id secondary_id) = s
  | NotFound _ =>
      (exists p q,
          primary_id = Some p /\ secondary_id = Some q
          /\ raw_truthy p = true /\ raw_truthy q = true /\ strict_eq p q = false
          /\ ((forall pid primary, reads p = Some pid -> find_customer s pid <> Some primary)
              \/ (forall sid secondary,
                     reads q = Some sid -> find_customer s sid <> Some secondary)))
      /\ fst (merge_request reads no_faults s now primary_id secondary_id) = s
  | Merged a b moved =>
      exists p q pid sid primary secondary,
        primary_id = Some p /\ secondary_id = Some q
        /\ raw_truthy p = true /\ raw_truthy q = true /\ strict_eq p q = false
        /\ reads p = Some pid /\ reads q = Some sid
        /\ find_customer s pid = Some primary
        /\ find_customer s sid = Some secondary
        /\ a = mkDuplicate pid (Customer.name primary) (Customer.email primary)
        /\ b = mkDuplicate sid (Customer.name secondary) (Customer.email secondary)
        /\ moved = Customer.ticket_count secondary
  | _ => False
  end.
Proof.
  unfold merge_request.
  destruct primary_id as [p|]; [|simpl; auto].
  destruct secondary_id as [q|]; [|simpl; auto].
  destruct (raw_truthy p) eqn:Tp; [|simpl; auto].
  destruct (raw_truthy q) eqn:Tq; [|simpl; auto].
  destruct (strict_eq p q) eqn:E; [simpl; auto|]. simpl.
  destruct (reads p) as [pid|] eqn:Rp.
  2:{ simpl. split; [|reflexivity]. exists p, q. repeat split; auto.
      left. intros pid primary H. rewrite Rp in H. discriminate. }
  destruct (reads q) as [sid|] eqn:Rq.
  2:{ simpl. split; [|reflexivity]. exists p, q. repeat split; auto.
      right. intros sid secondary H. rewrite Rq in H. discriminate. }
  destruct (find_customer s pid) as [primary|] eqn:P.
  2:{ simpl. split; [|reflexivity]. exists p, q. repeat split; auto.
      left. intros pid' primary H. rewrite Rp in H. inversion H; subst. now rewrite P. }
  destruct (find_customer s sid) as [secondary|] eqn:S.
  2:{ simpl. split; [|reflexivity]. exists p, q. repeat split; auto.
      right. intros sid' secondary H. rewrite Rq in H. inversion H; subst. now rewrite S. }
  simpl.
  destruct (find_customer_in s pid primary P) as (_ & EP).
  destruct (find_customer_in s sid secondary S) as (_ & ES).
  exists p, q, pid, sid, primary, secondary. unfold duplicate_of. rewrite EP, ES.
  repeat split; auto.
Qed.





(* ------------------------------------------------------------------ *)
(** ** Integrity of the stores the requests build *)
(* ------------------------------------------------------------------ *)

Lemma integrity_contact_form_checked ticketError s now rnd f :
  integrity s -> integrity (fst (contact_form_checked ticketError s now rnd f)).
Proof.
  intros H. destruct ticketError as [e|].
  2:{ rewrite contact_form_checked_accepting. now apply integrity_contact_form. }
  unfold contact_form_checked.
  destruct (_ || _); [exact H|].
  destruct (generateAutoTags _ _) as [e0|autoTags]; [exact H|].
  pose proof (integrity_resolve s now (or_empty (Form.email f)) (Form.phone f)
                (fullName_of (or_empty (Form.first_name f)) (Form.last_name f))) as R.
  pose proof (resolve_write_error
                (resolve_read s (or_empty (Form.email f)) (Form.phone f)
                   (fullName_of (or_empty (Form.first_name f)) (Form.last_name f)))
                s now (or_empty (Form.email f)) (Form.phone f)
                (fullName_of (or_empty (Form.first_name f)) (Form.last_name f))) as He.
  unfold findOrCreateCustomer in *.
  destruct (resolve_write _ s now _ _ _) as [s1 [e1|r]].
  - simpl. now rewrite (He s1 e1 eq_refl).
  - destruct (R s1 r H eq_refl) as (H1 & I1).
    pose proof (integrity_route s1 now rnd f
                  (fullName_of (or_empty (Form.first_name f)) (Form.last_name f))
                  (or_empty (Form.message f)) autoTags (Customer.id (customer r)) H1 I1)
      as K.
    unfold route_checked, create_ticket_checked. unfold route in K.
    destruct (findOpenTicketForCustomer s1 _) as [t|]; [exact K|].
    destruct (findRecentClosed s1 _) as [t|]; [|exact H1].
    destruct (wasRecentlyClosed now (Some t)); [exact K | exact H1].
Qed.

Lemma integrity_serve reads s r :
  one_spelling reads r -> integrity s -> integrity (fst (serve reads s r)).
Proof.
  intros O H. destruct r as [now rnd te f|now tid c n|now tid st|now p q]; simpl.
  - now apply integrity_contact_form_checked.
  - now apply integrity_post_reply.
  - now apply integrity_patch_status.
  - destruct p as [p|]; [|exact H]. destruct q as [q|]; [|exact H].
    simpl in O.
    destruct (raw_truthy p) eqn:Tp.
    2:{ unfold merge_request. rewrite Tp. exact H. }
    destruct (raw_truthy q) eqn:Tq.
    2:{ unfold merge_request. rewrite Tp, Tq. exact H. }
    destruct (reads p) as [pid|] eqn:Rp.
    2:{ unfold merge_request. rewrite Tp, Tq, Rp. simpl.
        destruct (strict_eq p q); exact H. }
    destruct (reads q) as [sid|] eqn:Rq.
    2:{ unfold merge_request. rewrite Tp, Tq, Rp, Rq. simpl.
        destruct (strict_eq p q); exact H. }
    destruct (Nat.eq_dec pid sid) as [->|D].
    + unfold merge_request. rewrite Tp, Tq, (O sid eq_refl eq_refl). exact H.
    + rewrite (merge_request_apart reads no_faults s now p q pid sid Tp Tq Rp Rq D).
      now apply integrity_merge.
Qed.

Lemma integrity_serve_all reads rs :
  Forall (one_spelling reads) rs ->
  forall s, integrity s -> integrity (serve_all reads s rs).
Proof.
  unfold serve_all. induction 1 as [|r rs O _ IH]; intros s H; simpl; [exact H|].
  apply IH, integrity_serve; assumption.
Qed.

(** In every store the requests build from an empty one, one after the
    other, whether or not the store accepts the ticket inserts, each ticket
    is owned by exactly one customer row, provided no merge request names one
    customer in two spellings. *)
Theorem ticket_has_one_owner (reads : RawId -> option Id) (uq : bool)
    (rs : list Request) (t : Ticket.t) :
  Forall (one_spelling reads) rs ->
  In t (tickets (serve_all reads (empty_store uq) rs)) ->
  exists c,
    In c (customers (serve_all reads (empty_store uq) rs))
    /\ Customer.id c = Ticket.customer_id t
    /\ forall c', In c' (customers (serve_all reads (empty_store uq) rs)) ->
                  Customer.id c' = Ticket.customer_id t -> c' = c.
Proof.
  intros O I.
  destruct (integrity_serve_all reads rs O (empty_store uq) (integrity_empty uq))
    as [I1 _ _ _ I5 _ _ _].
  specialize (I5 t I). apply in_map_iff in I5 as (c & E & Ic).
  exists c. repeat split; auto.
  intros c' Ic' E'. apply (NoDup_map_inj Customer.id _ c' c I1 Ic' Ic). congruence.
Qed.

(** Alice is merged into Bo, her id spelt as a string: her ticket is
    Bo's. *)
Lemma ticket_has_one_owner_witness :
  exists c,
    In c (customers (serve_all decimal_id (empty_store true) merged_requests))
    /\ Customer.id c = 2
    /\ forall c', In c' (customers (serve_all decimal_id (empty_store true) merged_requests))
                  -> Customer.id c' = 2 -> c' = c.
Proof.
  apply (ticket_has_one_owner decimal_id true merged_requests
           (nth 0 (tickets (serve_all decimal_id (empty_store true) merged_requests))
              Sample.first_ticket)).
  - repeat constructor. intros i A B. vm_compute in A, B. congruence.
  - vm_compute. left. reflexivity.
Defined.

(** The proviso is needed: the same requests with Alice merged into
    herself leave her ticket without an owner. *)
Example self_merge_orphans :
  let s := serve_all decimal_id (empty_store true)
             [ContactForm Sample.now 234 None Sample.alice_form;
              MergeCustomers (Sample.now + 1)%Z (Some (IdNumber 1)) (Some (IdString "1"))] in
  map Ticket.customer_id (tickets s) = [1] /\ customers s = [].
Proof. vm_compute. split; reflexivity. Qed.
